(** * Kactus changes list: the sketch-part tree of [changes-list.tsx]

    A shallow embedding of [getFileList], [getOpenedFilesList] and of the
    three places of the [ChangesList] component that run them (constructor,
    [componentWillReceiveProps], [onOpenChanged]), followed by the properties
    proved about them.

    Conventions of the embedding.
    - A JavaScript object used as a string-keyed table is an association list
      in insertion order ([Dict]): assigning an existing key replaces the value
      in place, a new key is appended, [Object.values] lists the values in that
      order.  The tables are object literals, so reading a key that the table
      does not own finds what [Object.prototype] has under that name
      ([Dict.read]); such a value is truthy and has none of the fields of a
      node.  (Keys that look like array indices are enumerated first by
      JavaScript; the visible list does not depend on it, see
      [getOpenedFilesList_enumeration].  Assigning under the key [__proto__]
      replaces the prototype instead of adding a key; the properties that
      depend on it take [assignable] keys as a hypothesis.)
    - The change records of the input array are objects that [getFileList]
      writes to ([f.shown], [f.index]) and then stores in the table.  The
      writes are made explicit: the pass returns the array as it is after the
      call next to the table, and the table holds each record as written.
    - A group object is created inside the pass and is reachable from [acc],
      [fakePartsAcc] and [parentPartChange] at once.  The only write to it
      after its creation is [status], made and read through [acc] alone, so
      the three hold it by value and the write updates [acc].
    - The closure variables of [getFileList] ([acc], [fakePartsAcc],
      [parentPartChange], [index]) are the fields of one record threaded
      through [reduce] and [forEach]. *)

From Stdlib Require Import Ascii String List Bool Arith Lia Permutation.
From Stdlib Require Import Sorted DecimalString.
Import ListNotations.

(** ** String-keyed objects *)

(** What reading a property of an object yields: the value the object owns
    under the name, a value inherited from [Object.prototype], or
    [undefined]. *)
Inductive Property (V : Type) :=
| Own (v : V)
| Inherited
| Undefined.
Arguments Own {V} v.
Arguments Inherited {V}.
Arguments Undefined {V}.

Module Dict.

Definition t (V : Type) := list (string * V).

Definition empty {V : Type} : t V := [].

(** The own property [k] of [d], if there is one. *)
Fixpoint get {V : Type} (k : string) (d : t V) : option V :=
  match d with
  | [] => None
  | (k', v) :: d' => if String.eqb k k' then Some v else get k d'
  end.

(** [d[k] = v] *)
Fixpoint set {V : Type} (k : string) (v : V) (d : t V) : t V :=
  match d with
  | [] => [(k, v)]
  | (k', v') :: d' =>
      if String.eqb k k' then (k, v) :: d' else (k', v') :: set k v d'
  end.

(** [Object.keys(d)] and [Object.values(d)] *)
Definition keys {V : Type} (d : t V) : list string := map fst d.
Definition values {V : Type} (d : t V) : list V := map snd d.

(** The names of the properties of [Object.prototype]: its methods, its
    accessor [__proto__] and the four legacy accessor helpers. *)
Definition prototypeNames : list string :=
  ["constructor"; "hasOwnProperty"; "isPrototypeOf"; "propertyIsEnumerable";
   "toLocaleString"; "toString"; "valueOf"; "__proto__";
   "__defineGetter__"; "__defineSetter__";
   "__lookupGetter__"; "__lookupSetter__"]%string.

Definition inherited (k : string) : bool :=
  existsb (String.eqb k) prototypeNames.

(** [d[k]] for an object literal [d]. *)
Definition read {V : Type} (k : string) (d : t V) : Property V :=
  match get k d with
  | Some v => Own v
  | None => if inherited k then Inherited else Undefined
  end.

End Dict.

(** ** Data model *)

(** Modelled from the spec: [AppFileStatusKind] of [models/status], which is
    not part of the sources at hand; the variants are the ones the data model
    of the specification lists for a change record's status. *)
Inductive AppFileStatusKind :=
| New | Modified | Deleted | Renamed | Copied | Untracked | Conflicted.

Definition AppFileStatusKind_eqb (a b : AppFileStatusKind) : bool :=
  match a, b with
  | New, New | Modified, Modified | Deleted, Deleted | Renamed, Renamed
  | Copied, Copied | Untracked, Untracked | Conflicted, Conflicted => true
  | _, _ => false
  end.

(** Modelled from the spec: [AppFileStatus] of [models/status].  The code under
    study reads only [status.kind]; whatever else the status object carries is
    kept as an opaque payload, so that two statuses of one kind remain
    distinguishable. *)
Record AppFileStatus := { kind : AppFileStatusKind; payload : nat }.

(** The members of [FileType] that [changes-list.tsx] mentions. *)
Inductive FileType := NormalFile | SketchFile | PageFile | LayerFile.

(** [WorkingDirectoryFileChange & { index: number; shown: boolean }]: the
    fields of a change record that the code reads or writes.  [parts] is
    optional ([None] is [undefined]); of [sketchFile] only the truthiness is
    ever looked at. *)
Module WorkingDirectoryFileChange.
Record t := mk {
  id : string;
  path : string;
  status : AppFileStatus;
  parts : option (list string);
  sketchFile : bool;
  shown : bool;
  index : nat
}.
End WorkingDirectoryFileChange.
Module F := WorkingDirectoryFileChange.

(** [TFakeSketchPartChange]; the constant [fakePart: true] is the constructor
    [Fake] of the union below. *)
Module TFakeSketchPartChange.
Record t := mk {
  opened : bool;
  shown : bool;
  index : nat;
  type : FileType;
  id : string;
  parts : list string;
  name : string;
  status : option AppFileStatus
}.
End TFakeSketchPartChange.
Module P := TFakeSketchPartChange.

Inductive TFileOrSketchPartChange :=
| File (f : F.t)
| Fake (p : P.t).

Definition node_shown (n : TFileOrSketchPartChange) : bool :=
  match n with File f => F.shown f | Fake p => P.shown p end.

Definition node_index (n : TFileOrSketchPartChange) : nat :=
  match n with File f => F.index f | Fake p => P.index p end.

Definition node_id (n : TFileOrSketchPartChange) : string :=
  match n with File f => F.id f | Fake p => P.id p end.

Definition isFake (n : TFileOrSketchPartChange) : bool :=
  match n with File _ => false | Fake _ => true end.

(** The node table [{ [id: string]: TFileOrSketchPartChange }]. *)
Definition FileTable := Dict.t TFileOrSketchPartChange.

(** Field writes. *)
Definition setShown (f : F.t) (b : bool) : F.t :=
  F.mk (F.id f) (F.path f) (F.status f) (F.parts f) (F.sketchFile f) b (F.index f).

Definition setIndex (f : F.t) (n : nat) : F.t :=
  F.mk (F.id f) (F.path f) (F.status f) (F.parts f) (F.sketchFile f) (F.shown f) n.

Definition setStatus (p : P.t) (s : AppFileStatus) : P.t :=
  P.mk (P.opened p) (P.shown p) (P.index p) (P.type p) (P.id p) (P.parts p)
       (P.name p) (Some s).

Definition setOpened (p : P.t) (b : bool) : P.t :=
  P.mk b (P.shown p) (P.index p) (P.type p) (P.id p) (P.parts p)
       (P.name p) (P.status p).

(** ** [getFileList] *)

(** The variables the callbacks of [getFileList] close over. *)
Record Closure := {
  acc : FileTable;
  fakePartsAcc : Dict.t P.t;
  parentPartChange : Property P.t;
  index : nat
}.

Definition initial : Closure :=
  {| acc := Dict.empty; fakePartsAcc := Dict.empty;
     parentPartChange := Undefined; index := 0 |}.

(** [arr.join('/')] *)
Definition join (arr : list string) : string := String.concat "/" arr.

(** Truthiness of a string. *)
Definition truthy (s : string) : bool := negb (String.eqb s "").

(** [part === (previousFile.parts || [])[i]] *)
Definition samePart (part : string) (previousParts : list string) (i : nat) : bool :=
  match nth_error previousParts i with
  | Some q => String.eqb part q
  | None => false
  end.

(** [oldSketchPart && oldSketchPart.fakePart ? oldSketchPart.opened : i === 0]
    with [oldSketchPart = oldList && oldList[id]].  An inherited property has
    no [fakePart], so it counts like a file node or [undefined]. *)
Definition openedOf (oldList : option FileTable) (id : string) (i : nat) : bool :=
  match oldList with
  | Some old =>
      match Dict.get id old with
      | Some (Fake q) => P.opened q
      | _ => i =? 0
      end
  | None => i =? 0
  end.

(** Lines 171-180: a conflicted change reaching an existing group.  An
    inherited property has no [fakePart] and is left alone. *)
Definition attachStatus (prev : FileTable) (id : string) (s : AppFileStatus)
  : FileTable :=
  match Dict.get id prev with
  | Some (Fake q) =>
      match P.status q with
      | None => Dict.set id (Fake (setStatus q s)) prev
      | Some _ => prev
      end
  | _ => prev
  end.

(** Line 191-193, with [i] the depth at which the lookup is guarded.  An
    inherited value has no [id], which differs from every [parentId]. *)
Definition findParent (c : Closure) (i : nat) (parentId : string)
  : Property P.t :=
  match parentPartChange c with
  | Undefined => Dict.read parentId (fakePartsAcc c)
  | Own q =>
      if (1 <? i) && negb (String.eqb (P.id q) parentId)
      then Dict.read parentId (fakePartsAcc c)
      else Own q
  | Inherited =>
      if 1 <? i then Dict.read parentId (fakePartsAcc c) else Inherited
  end.

(** [!parentPartChange || parentPartChange.opened || false] *)
Definition noParentOrOpened (parent : Property P.t) : bool :=
  match parent with
  | Undefined => true
  | Own q => P.opened q
  | Inherited => false
  end.

(** [(parentPartChange && parentPartChange.opened) || false] *)
Definition parentOpened (parent : Property P.t) : bool :=
  match parent with
  | Own q => P.opened q
  | Inherited | Undefined => false
  end.

(** [parentId ? parentId + '/' + part : part] with
    [parentId = arr.slice(0, i).join('/')]: the id of the group for the part at
    position [i] of [arr]. *)
Definition idOfPart (arr : list string) (i : nat) (part : string) : string :=
  let parentId := join (firstn i arr) in
  if truthy parentId then (parentId ++ "/" ++ part)%string else part.

Definition typeOfDepth (i : nat) : FileType :=
  if i =? 0 then SketchFile else if i =? 1 then PageFile else LayerFile.

(** Lines 164-166: [if (i <= 1) { parentPartChange = undefined }]. *)
Definition resetParent (c : Closure) (i : nat) : Closure :=
  if i <=? 1
  then {| acc := acc c; fakePartsAcc := fakePartsAcc c;
          parentPartChange := Undefined; index := index c |}
  else c.

(** [f.status.kind === AppFileStatusKind.Conflicted] *)
Definition isConflicted (f : F.t) : bool :=
  AppFileStatusKind_eqb (kind (F.status f)) Conflicted.

(** Lines 184-211: the object [partChange] built for the part at position [i],
    [c] being the closure after line 166. *)
Definition partChangeOf (oldList : option FileTable) (f : F.t) (c : Closure)
    (part : string) (i : nat) (arr : list string) : P.t :=
  let parts := firstn i arr in
  let parentId := join parts in
  let id := idOfPart arr i part in
  let opened := openedOf oldList id i in
  let parent := findParent c i parentId in
  P.mk opened (opened || noParentOrOpened parent)
       (index c) (typeOfDepth i) id parts part
       (if isConflicted f then Some (F.status f) else None).

(** The callback of [f.parts.forEach], lines 163-216. *)
Definition partStep (oldList : option FileTable) (previousParts : list string)
    (f : F.t) (c : Closure) (part : string) (i : nat) (arr : list string)
  : Closure :=
  let c1 := resetParent c i in
  let id := idOfPart arr i part in
  if samePart part previousParts i then
    if isConflicted f
    then {| acc := attachStatus (acc c1) id (F.status f);
            fakePartsAcc := fakePartsAcc c1;
            parentPartChange := parentPartChange c1; index := index c1 |}
    else c1
  else
    let partChange := partChangeOf oldList f c1 part i arr in
    {| acc := Dict.set id (Fake partChange) (acc c1);
       fakePartsAcc := Dict.set id partChange (fakePartsAcc c1);
       parentPartChange := Own partChange;
       index := index c1 + 1 |}.

(** [arr.forEach((x, i, arr) => ...)], the callback acting on the closure. *)
Fixpoint forEachFrom {A St : Type} (cb : St -> A -> nat -> list A -> St)
    (arr : list A) (i : nat) (rest : list A) (s : St) : St :=
  match rest with
  | [] => s
  | x :: rest' => forEachFrom cb arr (S i) rest' (cb s x i arr)
  end.

Definition forEach {A St : Type} (cb : St -> A -> nat -> list A -> St)
    (arr : list A) (s : St) : St :=
  forEachFrom cb arr 0 arr s.

(** Lines 217-225: the group a part file hangs under. *)
Definition fileParent (c : Closure) (parts : list string) : Property P.t :=
  let parentId := join parts in
  match parentPartChange c with
  | Undefined => Dict.read parentId (fakePartsAcc c)
  | Own q =>
      if (1 <? length parts) && negb (String.eqb (P.id q) parentId)
      then Dict.read parentId (fakePartsAcc c)
      else if length parts <=? 1 then Undefined else Own q
  | Inherited =>
      if 1 <? length parts then Dict.read parentId (fakePartsAcc c)
      else if length parts <=? 1 then Undefined else Inherited
  end.

(** Lines 233-236: [f.index = index; prev[f.id] = f; index += 1]. *)
Definition emit (c : Closure) (parent : Property P.t) (f : F.t)
  : Closure * F.t :=
  let f' := setIndex f (index c) in
  ({| acc := Dict.set (F.id f') (File f') (acc c);
      fakePartsAcc := fakePartsAcc c;
      parentPartChange := parent;
      index := index c + 1 |}, f').

(** [files[i - 1] || {}], of which only [parts] is read. *)
Definition previousPartsAt (files : list F.t) (i : nat) : list string :=
  match i with
  | 0 => []
  | S j =>
      match nth_error files j with
      | Some g => match F.parts g with Some ps => ps | None => [] end
      | None => []
      end
  end.

(** [f.parts.length === 1 && `${f.parts[0]}/` === f.path] *)
Definition isNewSketchFile (parts : list string) (path : string) : bool :=
  match parts with
  | [p0] => String.eqb (p0 ++ "/")%string path
  | _ => false
  end.

(** The callback of [files.reduce], lines 148-237: the closure after the
    change [f] at position [i], and [f] as it has been written to. *)
Definition fileStep (files : list F.t) (oldList : option FileTable)
    (c : Closure) (f : F.t) (i : nat) : Closure * F.t :=
  match F.parts f, F.sketchFile f with
  | Some parts, true =>
      if isNewSketchFile parts (F.path f)
      then emit c (parentPartChange c) (setShown f true)
      else
        let c' := forEach (partStep oldList (previousPartsAt files i) f) parts c in
        let parent := fileParent c' parts in
        emit c' parent
          (setShown f (parentOpened parent || (length parts =? 0)))
  | _, _ => emit c (parentPartChange c) (setShown f true)
  end.

(** [files.reduce(callback, acc)] from position [i] on; the second component
    is the array of change records after the writes. *)
Fixpoint reduceFrom (files : list F.t) (oldList : option FileTable)
    (i : nat) (rest : list F.t) (c : Closure) : Closure * list F.t :=
  match rest with
  | [] => (c, [])
  | f :: rest' =>
      let (c1, f1) := fileStep files oldList c f i in
      let (c2, out) := reduceFrom files oldList (S i) rest' c1 in
      (c2, f1 :: out)
  end.

Definition getFileListRun (files : list F.t) (oldList : option FileTable)
  : Closure * list F.t :=
  reduceFrom files oldList 0 files initial.

(** [getFileList(files, oldList)]: the returned table. *)
Definition getFileList (files : list F.t) (oldList : option FileTable)
  : FileTable :=
  acc (fst (getFileListRun files oldList)).

(** The input array after [getFileList(files, oldList)] has run. *)
Definition filesAfter (files : list F.t) (oldList : option FileTable)
  : list F.t :=
  snd (getFileListRun files oldList).

(** ** [getOpenedFilesList] *)

(** [Array.prototype.sort] with the comparator
    [(a, b) => (a.index > b.index ? 1 : -1)], as a stable insertion sort. *)
Fixpoint insertByIndex (a : TFileOrSketchPartChange)
    (l : list TFileOrSketchPartChange) : list TFileOrSketchPartChange :=
  match l with
  | [] => [a]
  | b :: l' =>
      if node_index b <? node_index a then b :: insertByIndex a l' else a :: b :: l'
  end.

Definition sortByIndex (l : list TFileOrSketchPartChange)
  : list TFileOrSketchPartChange :=
  fold_right insertByIndex [] l.

Definition getOpenedFilesList (files : FileTable) : list TFileOrSketchPartChange :=
  sortByIndex (filter node_shown (Dict.values files)).

(** ** The [ChangesList] component *)

(** The props that the tree code reads. *)
Record IChangesListProps := {
  workingDirectoryFiles : list F.t;
  selectedFileIDs : list string;
  selectedSketchFileID : option string;
  selectedSketchPartID : option string
}.

Record IChangesState := {
  files : FileTable;
  visibleFileList : list TFileOrSketchPartChange
}.

Record ChangesList := {
  props : IChangesListProps;
  state : IChangesState
}.

(** The props once a pass over their change records has written to them. *)
Definition withFiles (p : IChangesListProps) (fs : list F.t) : IChangesListProps :=
  {| workingDirectoryFiles := fs;
     selectedFileIDs := selectedFileIDs p;
     selectedSketchFileID := selectedSketchFileID p;
     selectedSketchPartID := selectedSketchPartID p |}.

(** [{ files: fileList, visibleFileList: getOpenedFilesList(fileList) }] *)
Definition stateOf (fileList : FileTable) : IChangesState :=
  {| files := fileList; visibleFileList := getOpenedFilesList fileList |}.

(** Modelled from the spec: [arrayEquals] of [lib/equality], which is not part
    of the sources at hand.  The specification speaks of the selection
    identifiers being unchanged; for the array of selected file ids that is
    equal length and element-wise [===]. *)
Fixpoint arrayEquals (x y : list string) : bool :=
  match x, y with
  | [], [] => true
  | a :: x', b :: y' => String.eqb a b && arrayEquals x' y'
  | _, _ => false
  end.

(** [a !== b] on [string | null] *)
Definition differs (a b : option string) : bool :=
  match a, b with
  | None, None => false
  | Some x, Some y => negb (String.eqb x y)
  | _, _ => true
  end.

(** The constructor, lines 255-264. *)
Definition construct (p : IChangesListProps) : ChangesList :=
  let fileList := getFileList (workingDirectoryFiles p) None in
  {| props := withFiles p (filesAfter (workingDirectoryFiles p) None);
     state := stateOf fileList |}.

(** The condition of the guard at lines 267-271. *)
Definition selectionChanged (this nextProps : IChangesListProps) : bool :=
  negb (arrayEquals (selectedFileIDs nextProps) (selectedFileIDs this))
  || differs (selectedSketchFileID nextProps) (selectedSketchFileID this)
  || differs (selectedSketchPartID nextProps) (selectedSketchPartID this).

(** [componentWillReceiveProps(nextProps)], lines 266-284.  The result is the
    state the call leaves and [nextProps] as the call leaves them (the pass
    writes to their change records). *)
Definition componentWillReceiveProps (this : ChangesList)
    (nextProps : IChangesListProps) : IChangesState * IChangesListProps :=
  if selectionChanged (props this) nextProps
  then (state this, nextProps)
  else
    let fileList :=
      getFileList (workingDirectoryFiles nextProps) (Some (files (state this))) in
    (stateOf fileList,
     withFiles nextProps
       (filesAfter (workingDirectoryFiles nextProps) (Some (files (state this))))).

(** What a call can end in: a value, or the [TypeError] of a property read on
    [undefined]. *)
Inductive Completion (A : Type) :=
| Returned (a : A)
| TypeError.
Arguments Returned {A} a.
Arguments TypeError {A}.

(** [onOpenChanged(id, opened)], lines 349-360.  Reading [fakePart] of
    [undefined] throws; an inherited property has no [fakePart]. *)
Definition onOpenChanged (this : ChangesList) (id : string) (opened : bool)
  : Completion ChangesList :=
  match Dict.read id (files (state this)) with
  | Undefined => TypeError
  | Inherited => Returned this
  | Own (File _) => Returned this
  | Own (Fake q) =>
      let files1 := Dict.set id (Fake (setOpened q opened)) (files (state this)) in
      let fs := workingDirectoryFiles (props this) in
      Returned {| props := withFiles (props this) (filesAfter fs (Some files1));
                  state := stateOf (getFileList fs (Some files1)) |}
  end.

(** * Statements of the specification and sample inputs *)

(** ** The selection guard *)

(** The selection identifiers of the next props are those of the current
    ones. *)
Definition selectionUnchanged (this nextProps : IChangesListProps) : Prop :=
  selectedFileIDs nextProps = selectedFileIDs this
  /\ selectedSketchFileID nextProps = selectedSketchFileID this
  /\ selectedSketchPartID nextProps = selectedSketchPartID this.

(** The two things the call can leave behind. *)
Definition skipped (this : ChangesList) (nextProps : IChangesListProps)
  : IChangesState * IChangesListProps :=
  (state this, nextProps).

Definition rebuilt (this : ChangesList) (nextProps : IChangesListProps)
  : IChangesState * IChangesListProps :=
  let old := Some (files (state this)) in
  let fs := workingDirectoryFiles nextProps in
  (stateOf (getFileList fs old), withFiles nextProps (filesAfter fs old)).

(** C2 as the specification words it: no rebuild when the selection
    identifiers are unchanged, a rebuild when one of them differs. *)
Definition guard_as_specified : Prop :=
  forall this nextProps,
    (selectionUnchanged this.(props) nextProps ->
       componentWillReceiveProps this nextProps = skipped this nextProps)
    /\ (~ selectionUnchanged this.(props) nextProps ->
       componentWillReceiveProps this nextProps = rebuilt this nextProps).

Definition plainFile (id : string) : F.t :=
  F.mk id id {| kind := Modified; payload := 0 |} None false false 0.

Definition noSelection (fs : list F.t) : IChangesListProps :=
  {| workingDirectoryFiles := fs; selectedFileIDs := [];
     selectedSketchFileID := None; selectedSketchPartID := None |}.

(** ** [onOpenChanged] on an id that is no group *)

(** C4 as the specification words it: an id that is absent from the table, or
    that names a file node, makes the call a no-op that returns normally. *)
Definition toggle_noop_as_specified : Prop :=
  forall this id opened,
    (Dict.get id (files (state this)) = None
     \/ exists f, Dict.get id (files (state this)) = Some (File f)) ->
    onOpenChanged this id opened = Returned this.

(** ** Scenario B: one change under ["doc.sketch"; "page1"; "layer1"] *)

Definition scenarioB_parts : list string :=
  ["doc.sketch"; "page1"; "layer1"]%string.

(** A layer change of that part path. *)
Definition layerChange : F.t :=
  F.mk "Modified+doc/pages/page1/layer1.json" "doc/pages/page1/layer1.json"
       {| kind := Modified; payload := 0 |} (Some scenarioB_parts) true false 0.

(** C3 as the specification words it. *)
Definition scenarioB_as_specified (f : F.t) : Prop :=
  let table := getFileList [f] None in
  (exists g, Dict.get "doc.sketch" table = Some (Fake g)
             /\ length (P.parts g) = 0 /\ P.opened g = true /\ P.shown g = true)
  /\ (exists g, Dict.get "doc.sketch/page1" table = Some (Fake g)
             /\ length (P.parts g) = 1 /\ P.opened g = false /\ P.shown g = false)
  /\ (exists f', Dict.get (F.id f) table = Some (File f') /\ F.shown f' = false)
  /\ map node_id (getOpenedFilesList table) = ["doc.sketch"%string].

(** The status a group is created with by the change [f]. *)
Definition statusFrom (f : F.t) : option AppFileStatus :=
  if isConflicted f then Some (F.status f) else None.

Definition scenarioB_root (f : F.t) : P.t :=
  P.mk true true 0 SketchFile "doc.sketch" [] "doc.sketch" (statusFrom f).

Definition scenarioB_page (f : F.t) : P.t :=
  P.mk false true 1 PageFile "doc.sketch/page1" ["doc.sketch"%string] "page1"
       (statusFrom f).

Definition scenarioB_layer (f : F.t) : P.t :=
  P.mk false false 2 LayerFile "doc.sketch/page1/layer1"
       ["doc.sketch"; "page1"]%string "layer1" (statusFrom f).

(** ** The pass, position by position *)

(** The closure with which the callback of [reduce] is entered at position
    [j]. *)
Definition closureAt (files : list F.t) (oldList : option FileTable) (j : nat)
  : Closure :=
  fst (reduceFrom files oldList 0 (firstn j files) initial).

(** Two change records that differ at most in the fields the pass writes. *)
Definition sameChange (f f' : F.t) : Prop :=
  F.id f' = F.id f /\ F.path f' = F.path f /\ F.status f' = F.status f
  /\ F.parts f' = F.parts f /\ F.sketchFile f' = F.sketchFile f.

(** ** The pass and its inputs *)

(** The record [f'] is [f] after a pass has written to it. *)
Definition written (f f' : F.t) : Prop :=
  exists b n, f' = setIndex (setShown f b) n.

(** C7 as the specification words it: the change records are after the call
    what they were before it. *)
Definition inputs_untouched_as_specified : Prop :=
  forall files oldList, filesAfter files oldList = files.

(** A change record that carries a part path but no sketch file. *)
Definition strayPartChange : F.t :=
  F.mk "Modified+notes/page1.txt" "notes/page1.txt"
       {| kind := Modified; payload := 0 |}
       (Some ["notes"; "page1"]%string) false false 7.

(** ** Conflict status of a group *)

Definition sketchChange (id : string) (parts : list string) (s : AppFileStatus)
  : F.t :=
  F.mk id id s (Some parts) true false 0.

(** Three changes of one document: an ordinary one, then two conflicted
    ones. *)
Definition twoConflicts : list F.t :=
  [sketchChange "a" ["doc"; "a"] {| kind := Modified; payload := 0 |};
   sketchChange "b" ["doc"; "b"] {| kind := Conflicted; payload := 1 |};
   sketchChange "c" ["doc"; "c"] {| kind := Conflicted; payload := 2 |}]%string.

(** The document group of [twoConflicts] once the first conflicted change has
    reached it. *)
Definition docAfterFirstConflict : P.t :=
  P.mk true true 0 SketchFile "doc" [] "doc"
       (Some {| kind := Conflicted; payload := 1 |}).

(** ** Invariants of the closure *)

(** Every node sits under its own id, and the remembered parent is the group
    that [fakePartsAcc] holds under the parent's id. *)
Record IdsOk (c : Closure) : Prop := {
  ids_acc : forall k n, Dict.get k (acc c) = Some n -> node_id n = k;
  ids_fake : forall k p, Dict.get k (fakePartsAcc c) = Some p -> P.id p = k;
  ids_parent : forall p, parentPartChange c = Own p ->
                         Dict.get (P.id p) (fakePartsAcc c) = Some p
}.

(** Every group carries the [opened] that the old list yields for its id and
    depth. *)
Record OpenedOk (oldList : option FileTable) (c : Closure) : Prop := {
  opened_acc : forall k p, Dict.get k (acc c) = Some (Fake p) ->
      P.opened p = openedOf oldList k (length (P.parts p));
  opened_fake : forall k p, Dict.get k (fakePartsAcc c) = Some p ->
      P.opened p = openedOf oldList k (length (P.parts p))
}.

(** ** The indices of a table *)

(** The number of nodes a pass constructs: the value of the counter [index]
    when [reduce] returns. *)
Definition constructedCount (files : list F.t) (oldList : option FileTable) : nat :=
  index (fst (getFileListRun files oldList)).

Definition indices (table : FileTable) : list nat :=
  map node_index (Dict.values table).

(** C6 as the specification words it: the indices of the nodes of a returned
    table are the numbers below the number of its nodes, each once. *)
Definition index_contiguity_as_specified : Prop :=
  forall files oldList,
    let table := getFileList files oldList in
    NoDup (indices table)
    /\ forall x, In x (indices table) <-> x < length (Dict.values table).

(** The closure never holds an index twice, nor one the counter has not
    passed. *)
Record IndexOk (c : Closure) : Prop := {
  index_below : forall n, In n (Dict.values (acc c)) -> node_index n < index c;
  index_nodup : NoDup (map node_index (Dict.values (acc c)))
}.

(** ** Comparing two passes over the same changes *)

(** [a] implies [b]. *)
Definition bimp (a b : bool) : Prop := a = true -> b = true.

(** The group [p'] is [p] with [opened] and [shown] possibly lowered. *)
Definition lessShownP (p' p : P.t) : Prop :=
  bimp (P.opened p') (P.opened p) /\ bimp (P.shown p') (P.shown p)
  /\ P.index p' = P.index p /\ P.type p' = P.type p /\ P.id p' = P.id p
  /\ P.parts p' = P.parts p /\ P.name p' = P.name p
  /\ P.status p' = P.status p.

(** The record [f'] is [f] with [shown] possibly lowered. *)
Definition lessShownF (f' f : F.t) : Prop :=
  bimp (F.shown f') (F.shown f) /\ F.index f' = F.index f /\ sameChange f f'.

Definition lessShown (n' n : TFileOrSketchPartChange) : Prop :=
  match n', n with
  | File f', File f => lessShownF f' f
  | Fake p', Fake p => lessShownP p' p
  | _, _ => False
  end.

(** Two objects with the same keys in the same order and related values. *)
Definition dictRel {V : Type} (R : V -> V -> Prop) (d' d : Dict.t V) : Prop :=
  Forall2 (fun e' e => fst e' = fst e /\ R (snd e') (snd e)) d' d.

Definition optRel {V : Type} (R : V -> V -> Prop) (o' o : option V) : Prop :=
  match o', o with
  | Some a, Some b => R a b
  | None, None => True
  | _, _ => False
  end.

Definition propRel {V : Type} (R : V -> V -> Prop) (o' o : Property V) : Prop :=
  match o', o with
  | Own a, Own b => R a b
  | Inherited, Inherited => True
  | Undefined, Undefined => True
  | _, _ => False
  end.

Record lessShownC (c' c : Closure) : Prop := {
  less_acc : dictRel lessShown (acc c') (acc c);
  less_fake : dictRel lessShownP (fakePartsAcc c') (fakePartsAcc c);
  less_parent : propRel lessShownP (parentPartChange c') (parentPartChange c);
  less_index : index c' = index c
}.

(** The old list [old'] opens no group that [old] does not open. *)
Definition opensLess (old' old : option FileTable) : Prop :=
  forall id i, bimp (openedOf old' id i) (openedOf old id i).

(** ** Collapsing a group and opening it again *)

(** The state of the component is the one a pass over its current change list
    reproduces: the table is what [getFileList] yields from the change records
    with the table itself as old list, and the visible list is the projection
    of that table. *)
Definition inSync (this : ChangesList) : Prop :=
  state this =
    stateOf (getFileList (workingDirectoryFiles (props this))
                         (Some (files (state this)))).

(** C8 as the specification words it, for the component in sync with its
    change list: closing any group of the table shortens the visible list
    strictly, and opening it again brings back the visible list there was. *)
Definition collapse_as_specified : Prop :=
  forall this g q,
    inSync this ->
    Dict.get g (files (state this)) = Some (Fake q) ->
    exists collapsed,
      onOpenChanged this g false = Returned collapsed
      /\ length (visibleFileList (state collapsed))
         < length (visibleFileList (state this))
      /\ exists reopened,
           onOpenChanged collapsed g true = Returned reopened
           /\ visibleFileList (state reopened) = visibleFileList (state this).

(** The component built over the single layer change of scenario B. *)
Definition scenarioB_component : ChangesList :=
  construct (noSelection [layerChange]).

(** Scenario B after every group has been opened, from the innermost on. *)
Definition scenarioB_allOpened : FileTable :=
  [("doc.sketch"%string, Fake (scenarioB_root layerChange));
   ("doc.sketch/page1"%string,
    Fake (setOpened (scenarioB_page layerChange) true));
   ("doc.sketch/page1/layer1"%string,
    Fake (setOpened (scenarioB_layer layerChange) true))].

Definition scenarioB_expanded : ChangesList :=
  {| props := props scenarioB_component;
     state := stateOf (getFileList (workingDirectoryFiles (props scenarioB_component))
                                   (Some scenarioB_allOpened)) |}.

(** ** Which nodes are shown *)

(** The id under which the parent group of a node would sit. *)
Definition parentIdOf (n : TFileOrSketchPartChange) : string :=
  match n with
  | Fake p => join (P.parts p)
  | File f => match F.parts f with Some parts => join parts | None => "" end
  end.

Definition isRootGroup (n : TFileOrSketchPartChange) : Prop :=
  exists p, n = Fake p /\ P.parts p = [].

(** C1 as the specification words it: a node of a returned table is shown if
    and only if it is a depth-0 group, or its parent group is in the table and
    is both opened and shown. *)
Definition visibility_as_specified : Prop :=
  forall files oldList k n,
    Dict.get k (getFileList files oldList) = Some n ->
    (node_shown n = true <->
     isRootGroup n
     \/ exists q, Dict.get (parentIdOf n) (getFileList files oldList) = Some (Fake q)
                  /\ P.opened q = true /\ P.shown q = true).

(** A change that is emitted at once: it has no parts, or no sketch file, or it
    is a sketch file just added. *)
Definition plainChange (f : F.t) : Prop :=
  match F.parts f with
  | None => True
  | Some parts =>
      F.sketchFile f = false \/ isNewSketchFile parts (F.path f) = true
  end.

(** A change that goes through the loop over its parts. *)
Definition partChange (f : F.t) (parts : list string) : Prop :=
  F.parts f = Some parts /\ F.sketchFile f = true
  /\ isNewSketchFile parts (F.path f) = false.

Fixpoint hasSlash (s : string) : bool :=
  match s with
  | EmptyString => false
  | String a s' => Ascii.eqb a "/"%char || hasSlash s'
  end.

(** A path segment: not empty, and without the separator of group ids. *)
Definition segmentOk (s : string) : Prop :=
  s <> ""%string /\ hasSlash s = false.

Definition partsOk (f : F.t) : Prop :=
  match F.parts f with
  | Some parts => Forall segmentOk parts
  | None => True
  end.

(** The [opened] flag of any group synthesized under the id [k], when the
    segments are well formed: the depth is 0 exactly when the id has no
    separator. *)
Definition expandedOf (oldList : option FileTable) (k : string) : bool :=
  openedOf oldList k (if hasSlash k then 1 else 0).

(** Group ids are not empty, and tell the depth. *)
Record DepthOk (c : Closure) : Prop := {
  depth_fake : forall k q, Dict.get k (fakePartsAcc c) = Some q ->
      k <> ""%string /\ (length (P.parts q) =? 0) = negb (hasSlash k);
  depth_acc : forall k q, Dict.get k (acc c) = Some (Fake q) ->
      (length (P.parts q) =? 0) = negb (hasSlash k)
}.

(** The invariants that the shown flags rest on, together. *)
Definition TreeOk (oldList : option FileTable) (c : Closure) : Prop :=
  IdsOk c /\ OpenedOk oldList c /\ DepthOk c.

(** Scenario B with the page group opened and then the document group
    closed. *)
Definition scenarioB_rootClosed : FileTable :=
  [("doc.sketch"%string, Fake (setOpened (scenarioB_root layerChange) false));
   ("doc.sketch/page1"%string,
    Fake (setOpened (scenarioB_page layerChange) true))].

(** ** A pass over the table it has produced *)

(** No change record has the id of a group that the pass synthesizes. *)
Definition noGroupUnderChangeId (files : list F.t) (oldList : option FileTable)
  : Prop :=
  forall f, In f files ->
    Dict.get (F.id f) (fakePartsAcc (fst (getFileListRun files oldList))) = None.

(** Every synthesized group id is a key of the table. *)
Definition KeysOk (c : Closure) : Prop :=
  forall id, Dict.get id (fakePartsAcc c) <> None -> Dict.get id (acc c) <> None.

(** The old lists [old'] and [old] yield the same [opened] for the group ids
    of [groups], at the depth that goes with the id. *)
Definition agreeOn (groups : Dict.t P.t) (old' old : option FileTable) : Prop :=
  forall id k,
    Dict.get id groups <> None ->
    (k =? 0) = negb (hasSlash id) ->
    openedOf old' id k = openedOf old id k.

(** * Further properties: definitions *)

(** ** Order of the visible list *)

Definition indexLe (a b : TFileOrSketchPartChange) : Prop :=
  node_index a <= node_index b.

Definition indexLt (a b : TFileOrSketchPartChange) : Prop :=
  node_index a < node_index b.

(** A table of scenario B's nodes enumerated in another order. *)
Definition scenarioB_reordered : FileTable :=
  rev (getFileList [layerChange] None).

(** ** A change list without sketch parts *)

(** The records of a flat change list as a pass leaves them: all shown,
    numbered from [i] on. *)
Fixpoint numberFrom (i : nat) (files : list F.t) : list F.t :=
  match files with
  | [] => []
  | f :: rest => setIndex (setShown f true) i :: numberFrom (S i) rest
  end.

(** Two plain changes. *)
Definition twoPlainFiles : list F.t :=
  [plainFile "readme.md"; plainFile "src/main.ts"].

(** ** The shape of a group *)

(** The group [p] stands for a prefix of the part path of a change of
    [files]. *)
Definition prefixOfChange (files : list F.t) (p : P.t) : Prop :=
  exists f arr,
    In f files /\ F.parts f = Some arr /\ F.sketchFile f = true
    /\ firstn (S (length (P.parts p))) arr = P.parts p ++ [P.name p].

Definition GroupShape (files : list F.t) (c : Closure) : Prop :=
  forall k p, Dict.get k (acc c) = Some (Fake p) ->
    P.id p = join (P.parts p ++ [P.name p])
    /\ P.type p = typeOfDepth (length (P.parts p))
    /\ prefixOfChange files p.

(** ** Old lists that open less *)

(** Scenario B's fully opened table with the layer group closed. *)
Definition scenarioB_layerClosed : FileTable :=
  Dict.set "doc.sketch/page1/layer1"
    (Fake (setOpened (setOpened (scenarioB_layer layerChange) true) false))
    scenarioB_allOpened.

(** ** Toggling a group *)

(** Two tables with the same keys and, under each key, nodes of the same
    kind. *)
Definition sameKinds (table' table : FileTable) : Prop :=
  Dict.keys table' = Dict.keys table
  /\ forall k, optRel (fun n' n => isFake n' = isFake n)
                      (Dict.get k table') (Dict.get k table).

(** * The rest of the component *)

(** ** Rows: [onRowKeyDown] and [onFileSelectionChanged] *)

Definition FileType_eqb (a b : FileType) : bool :=
  match a, b with
  | NormalFile, NormalFile | SketchFile, SketchFile
  | PageFile, PageFile | LayerFile, LayerFile => true
  | _, _ => false
  end.

(** [file.type] of a row.  For a change record the field is declared in
    [models/status], outside the sources at hand; it is passed in as
    [fileType]. *)
Definition nodeType (fileType : F.t -> FileType) (n : TFileOrSketchPartChange)
  : FileType :=
  match n with
  | File f => fileType f
  | Fake p => P.type p
  end.

(** [e.key === 'ArrowRight' || e.key === 'ArrowLeft'] *)
Definition isArrow (key : string) : bool :=
  String.eqb key "ArrowRight" || String.eqb key "ArrowLeft".

(** [onRowKeyDown(row, e)], lines 437-444, [key] being [e.key].  A row beyond
    the visible list yields [undefined], whose [type] cannot be read. *)
Definition onRowKeyDown (fileType : F.t -> FileType) (this : ChangesList)
    (row : nat) (key : string) : Completion ChangesList :=
  if isArrow key then
    match nth_error (visibleFileList (state this)) row with
    | None => TypeError
    | Some file =>
        if negb (FileType_eqb (nodeType fileType file) NormalFile)
        then onOpenChanged this (node_id file) (String.eqb key "ArrowRight")
        else Returned this
    end
  else Returned this.

(** The callback of the props that a selection ends in. *)
Inductive SelectionCall (K : Type) :=
| OnSketchFileSelectionChanged (sketchFile : option K)
| OnFileSelectionChanged (file : TFileOrSketchPartChange)
| OnSketchPartSelectionChanged (file : TFileOrSketchPartChange).
Arguments OnSketchFileSelectionChanged {K} sketchFile.
Arguments OnFileSelectionChanged {K} file.
Arguments OnSketchPartSelectionChanged {K} file.

(** [onFileSelectionChanged(rows)], lines 416-435.  [K] is [IKactusFile], of
    which only the id is read ([kactusId]); [sketchFiles] is
    [props.sketchFiles].  The result of [find] is passed on as it is, found
    or not. *)
Definition onFileSelectionChanged {K : Type} (kactusId : K -> string)
    (fileType : F.t -> FileType) (sketchFiles : list K) (this : ChangesList)
    (rows : list nat) : Completion (SelectionCall K) :=
  match rows with
  | [] => TypeError
  | row :: _ =>
      match nth_error (visibleFileList (state this)) row with
      | None => TypeError
      | Some file =>
          match nodeType fileType file with
          | SketchFile =>
              Returned (OnSketchFileSelectionChanged
                          (find (fun f => String.eqb (kactusId f) (node_id file))
                                sketchFiles))
          | NormalFile => Returned (OnFileSelectionChanged file)
          | LayerFile | PageFile => Returned (OnSketchPartSelectionChanged file)
          end
      end
  end.

(** The state of the component comes from a pass: its table is a table that
    [getFileList] returns and its visible list is the projection of it. *)
Definition builtByPass (this : ChangesList) : Prop :=
  exists fs oldList, state this = stateOf (getFileList fs oldList).

(** The type of every group follows its depth. *)
Definition TypeOk (c : Closure) : Prop :=
  forall k p, Dict.get k (acc c) = Some (Fake p) ->
              P.type p = typeOfDepth (length (P.parts p)).

(** ** [onDiscardChanges] *)

(** The callback of the props that a discard ends in, if any. *)
Inductive DiscardCall :=
| NoDiscard
| OnDiscardChanges (file : F.t)
| OnDiscardAllChanges (files : list F.t) (isDiscardingAllChanges : bool).

(** [workingDirectory.files.find(f => f.path === path)] *)
Definition findByPath (wd : list F.t) (path : string) : option F.t :=
  find (fun f => String.eqb (F.path f) path) wd.

(** The loop of lines 374-380: the found records, in the order of the
    requested paths. *)
Definition modifiedFilesOf (wd : list F.t) (files : list string) : list F.t :=
  flat_map (fun file =>
              match findByPath wd file with
              | Some modifiedFile => [modifiedFile]
              | None => []
              end) files.

(** [onDiscardChanges(files)], lines 362-391: exactly one path ([files[0]])
    or any other number of them. *)
Definition onDiscardChanges (this : ChangesList) (files : list string)
  : DiscardCall :=
  let wd := workingDirectoryFiles (props this) in
  match files with
  | [file0] =>
      match findByPath wd file0 with
      | Some modifiedFile => OnDiscardChanges modifiedFile
      | None => NoDiscard
      end
  | _ =>
      let modifiedFiles := modifiedFilesOf wd files in
      if 0 <? length modifiedFiles
      then OnDiscardAllChanges modifiedFiles
             (length modifiedFiles =? length wd)
      else NoDiscard
  end.

(** The path [path] is the path of a record of [wd]. *)
Definition hasPath (wd : list F.t) (path : string) : bool :=
  existsb (fun f => String.eqb (F.path f) path) wd.

(** Three changed files. *)
Definition threeFiles : list F.t :=
  [plainFile "a.txt"; plainFile "b.txt"; plainFile "c.txt"].

(** ** The placeholder of the commit message *)

(** [getPlaceholderMessage(files, singleFileCommit)], lines 560-584.
    [basename] is the function of that name of the [path] module. *)
Definition getPlaceholderMessage (basename : string -> string)
    (files : list F.t) (singleFileCommit : bool) : Completion string :=
  if negb singleFileCommit then Returned "Summary (required)"%string
  else
    match files with
    | [] => TypeError
    | firstFile :: _ =>
        let fileName := basename (F.path firstFile) in
        Returned
          match kind (F.status firstFile) with
          | New | Untracked => ("Create " ++ fileName)%string
          | Deleted => ("Delete " ++ fileName)%string
          | _ => ("Update " ++ fileName)%string
          end
    end.

(** The placeholder as [render] computes it, lines 604-607 and 649-652.
    [selected f] is [f.selection.getSelectionType() !== DiffSelectionType.None];
    the selection object belongs to [models/diff], outside the sources at
    hand. *)
Definition renderPlaceholder (selected : F.t -> bool)
    (basename : string -> string) (this : ChangesList) : Completion string :=
  let filesSelected := filter selected (workingDirectoryFiles (props this)) in
  let singleFileCommit := length filesSelected =? 1 in
  getPlaceholderMessage basename filesSelected singleFileCommit.

(** * The [Diff] component *)

(** The members of [DiffType] that the component switches on. *)
Inductive DiffType :=
| Text | Image | Binary | Sketch | VisualText | LargeText | Unrenderable.

(** [IKactusFileType] of [models/diff]: the component tells [Style] from
    every other member and reads nothing else of it. *)
Inductive IKactusFileType :=
| Style
| OtherKactusFileType (member : nat).

(** A hunk of a diff; the component reads only how many there are and hands
    them on. *)
Inductive DiffHunk := hunk (header : string).

(** [IDiff]: the fields the component reads.  [type] and [isDirectory] are
    those of an [ISketchDiff]. *)
Module IDiff.
Record t := mk {
  kind : DiffType;
  type : IKactusFileType;
  isDirectory : bool;
  text : string;
  hunks : list DiffHunk
}.
Definition withKind (d : t) (k : DiffType) : t :=
  mk k (type d) (isDirectory d) (text d) (hunks d).
End IDiff.

(** What [renderDiff] returns: the element, with the props of the child
  components that depend on the props and the state of [Diff]. *)
Inductive Element :=
| TextDiffView (file : F.t) (readOnly : bool) (text : string)
  (hunks : list DiffHunk)
| Panel (className message : string)
| BinaryFileView (path : string)
| ImageDiffView (file : option F.t) (readOnly : bool)
| ConflictedSketchDiffView (file : option F.t) (readOnly : bool)
| LargeDiffPrompt
| UnrenderablePanel
| SketchDiffWrapper (openSketchFileButton : bool) (content : Element).

(** What a click in the conflict view ends in. *)
Inductive ConflictCall :=
| LogError
| ResolveConflict (path : string) (side : string).

Module Diff.

(** [IDiffProps]: [file] is a [ChangedFile] or [null] (of a changed file the
    component reads [path] and [status]); [openSketchFile] tells whether
    the optional callback is given. *)
Record IDiffProps := {
  readOnly : bool;
  file : option F.t;
  diff : IDiff.t;
  openSketchFile : bool
}.

Record IDiffState := { forceShowLargeDiff : bool }.

Record t := { props : IDiffProps; state : IDiffState }.

(** Lines 735-741. *)
Definition construct (p : IDiffProps) : t :=
  {| props := p; state := {| forceShowLargeDiff := false |} |}.

(** Lines 956-958. *)
Definition showLargeDiff (this : t) : t :=
  {| props := props this; state := {| forceShowLargeDiff := true |} |}.

(** Lines 747-757. *)
Definition onPickOurs (this : t) : ConflictCall :=
  match file (props this) with
  | None => LogError
  | Some f => ResolveConflict (F.path f) "ours"
  end.

(** Lines 759-769. *)
Definition onPickTheirs (this : t) : ConflictCall :=
  match file (props this) with
  | None => LogError
  | Some f => ResolveConflict (F.path f) "theirs"
  end.

(** Lines 771-788. *)
Definition renderSketchConflictedDiff (this : t) (d : IDiff.t) : Element :=
  ConflictedSketchDiffView (file (props this)) (readOnly (props this)).

(** Lines 790-805. *)
Definition renderImage (this : t) (d : IDiff.t) : Element :=
  ImageDiffView (file (props this)) (readOnly (props this)).

(** Lines 807-818. *)
Definition renderBinaryFile (this : t) : option Element :=
  match file (props this) with
  | None => None
  | Some f => Some (BinaryFileView (F.path f))
  end.

(** Lines 820-833. *)
Definition renderLargeTextDiff (this : t) : Element := LargeDiffPrompt.

(** Lines 835-842. *)
Definition renderUnrenderableDiff (this : t) : Element := UnrenderablePanel.

(** Lines 856-888. *)
Definition renderText (this : t) (d : IDiff.t) : option Element :=
  match file (props this) with
  | None => None
  | Some f =>
      if length (IDiff.hunks d) =? 0 then
        if AppFileStatusKind_eqb (kind (F.status f)) New
           || AppFileStatusKind_eqb (kind (F.status f)) Untracked
        then Some (Panel "panel empty" "The file is empty")
        else if AppFileStatusKind_eqb (kind (F.status f)) Renamed
        then Some (Panel "panel renamed"
                         "The file was renamed but not changed")
        else Some (Panel "panel empty" "No content changes found")
      else
        Some (TextDiffView f (readOnly (props this)) (IDiff.text d)
                           (IDiff.hunks d))
  end.

(** Lines 844-854. *)
Definition renderLargeText (this : t) (d : IDiff.t) : option Element :=
  renderText this (IDiff.withKind d Text).

(** Lines 890-898. *)
Definition renderNewDirectory (this : t) : Element :=
  Panel "panel empty"
        "This is a new directory that contains too many files to show them all. This is probably a new Sketch file. Commit it, the diff will show nicely afterwards.".

Definition isStyle (ty : IKactusFileType) : bool :=
  match ty with Style => true | OtherKactusFileType _ => false end.

(** Lines 900-954.  The [default] branch is out of reach: [DiffType] has no
    other member. *)
Definition renderDiff (this : t) (d : IDiff.t) : option Element :=
  match IDiff.kind d with
  | Text => renderText this d
  | Binary => renderBinaryFile this
  | Image | VisualText => Some (renderImage this d)
  | Sketch =>
      if isStyle (IDiff.type d) then renderText this d
      else
        let content :=
          match file (props this) with
          | Some f =>
              if AppFileStatusKind_eqb (kind (F.status f)) Conflicted
              then renderSketchConflictedDiff this d
              else if (AppFileStatusKind_eqb (kind (F.status f)) New
                       || AppFileStatusKind_eqb (kind (F.status f)) Untracked)
                      && IDiff.isDirectory d
              then renderNewDirectory this
              else renderImage this d
          | None => renderImage this d
          end in
        Some (SketchDiffWrapper
                (match file (props this) with Some _ => true | None => false end
                 && readOnly (props this) && openSketchFile (props this))
                content)
  | LargeText =>
      if forceShowLargeDiff (state this)
      then renderLargeText this d
      else Some (renderLargeTextDiff this)
  | Unrenderable => Some (renderUnrenderableDiff this)
  end.

End Diff.

(** The element is, or wraps, the conflict view. *)
Fixpoint showsConflictView (e : Element) : bool :=
  match e with
  | ConflictedSketchDiffView _ _ => true
  | SketchDiffWrapper _ content => showsConflictView content
  | _ => false
  end.

(** The element is, or wraps, the line-by-line view of a text diff. *)
Fixpoint showsTextDiff (e : Element) : bool :=
  match e with
  | TextDiffView _ _ _ _ => true
  | SketchDiffWrapper _ content => showsTextDiff content
  | _ => false
  end.

(** A conflicted Sketch document and its diff. *)
Definition conflictedDocument : F.t :=
  sketchChange "doc.sketch" ["doc.sketch"%string]
               {| kind := Conflicted; payload := 0 |}.

Definition sketchDiff : IDiff.t :=
  IDiff.mk Sketch (OtherKactusFileType 0) false "" [].

Definition largeDiff : IDiff.t :=
  IDiff.mk LargeText Style false "@@ -1 +1 @@" [hunk "@@ -1 +1 @@"].

Definition diffOf (f : option F.t) (d : IDiff.t) : Diff.t :=
  Diff.construct
    {| Diff.readOnly := false; Diff.file := f; Diff.diff := d;
       Diff.openSketchFile := false |}.

(** * The context menus *)

(** What choosing an entry runs. *)
Inductive MenuAction :=
| ActDiscardChanges (paths : list string)
| ActDiscardAllChanges
| ActIgnore (pattern : string)
| ActIgnoreSeveral (patterns : list string)
| ActCopyFilePath (path : string)
| ActRevealInFileManager (path : string)
| ActOpenInExternalEditor (path : string)
| ActOpenItem (path : string).

(** [IMenuItem]: a separator, or an entry with its label, its action and
    its [enabled] field where the code gives one. *)
Inductive IMenuItem :=
| Separator
| Item (label : string) (action : MenuAction) (enabled : option bool).

(** [`${n}`] for a length. *)
Definition numberToString (n : nat) : string :=
  NilEmpty.string_of_uint (Nat.to_uint n).

Definition GitIgnoreFileName : string := ".gitignore".

(** Lines 393-400. *)
Definition getDiscardChangesMenuItemLabel
    (askForConfirmationOnDiscardChanges : bool) (files : list string) : string :=
  let label :=
    if length files =? 1 then "Discard Changes"%string
    else ("Discard " ++ numberToString (length files) ++ " Selected Changes")%string in
  if askForConfirmationOnDiscardChanges then (label ++ "…")%string else label.

(** Lines 402-414: the entries given to [showContextualMenu]. *)
Definition onContextMenu (this : ChangesList) : list IMenuItem :=
  [Item "Discard All Changes…" ActDiscardAllChanges
        (Some (0 <? length (workingDirectoryFiles (props this))))].

(** [extensions.add(extension)] on a [Set], which keeps insertion order. *)
Definition setAdd (extension : string) (extensions : list string) : list string :=
  if existsb (String.eqb extension) extensions then extensions
  else extensions ++ [extension].

(** The three collections that [addItemToArray] fills. *)
Record Gathered := {
  selectedFiles : list F.t;
  paths : list string;
  extensions : list string
}.

Definition notGitIgnore (basename : string -> string) (path : string) : bool :=
  negb (String.eqb (basename path) GitIgnoreFileName).

Section ItemContextMenu.

(** [wd.findFileWithID] of [models/status], [Path.extname] and
    [Path.basename], the four labels of [ui/lib/context-menu] and the two
    props read besides the selection. *)
Variable findFileWithID : string -> option F.t.
Variable extname : string -> string.
Variable basename : string -> string.
Variable DefaultEditorLabel : string.
Variable CopyFilePathLabel : string.
Variable RevealInFileManagerLabel : string.
Variable OpenWithDefaultProgramLabel : string.
Variable externalEditorLabel : option string.
Variable askForConfirmationOnDiscardChanges : bool.

(** Lines 463-474. *)
Definition addItemToArray (g : Gathered) (fileID : string) : Gathered :=
  match findFileWithID fileID with
  | Some newFile =>
      let extension := extname (F.path newFile) in
      {| selectedFiles := selectedFiles g ++ [newFile];
         paths := paths g ++ [F.path newFile];
         extensions :=
           if negb (String.length extension =? 0)
           then setAdd extension (extensions g)
           else extensions g |}
  | None => g
  end.

(** Lines 476-484. *)
Definition gather (this : ChangesList) (id : string) : Gathered :=
  let empty := {| selectedFiles := []; paths := []; extensions := [] |} in
  if existsb (String.eqb id) (selectedFileIDs (props this))
  then fold_left addItemToArray (selectedFileIDs (props this)) empty
  else addItemToArray empty id.

(** Lines 446-558: the entries given to [showContextualMenu]. *)
Definition onItemContextMenu (this : ChangesList) (id path : string)
    (status : AppFileStatus) : list IMenuItem :=
  let openInExternalEditor :=
    match externalEditorLabel with
    | Some l => if truthy l then ("Open in " ++ l)%string else DefaultEditorLabel
    | None => DefaultEditorLabel
    end in
  let g := gather this id in
  let notDeleted := negb (AppFileStatusKind_eqb (kind status) Deleted) in
  [Item (getDiscardChangesMenuItemLabel askForConfirmationOnDiscardChanges (paths g))
        (ActDiscardChanges (paths g)) None;
   Item "Discard All Changes…" ActDiscardAllChanges None;
   Separator]
  ++ (if length (paths g) =? 1 then
        [Item "Ignore File (Add to .gitignore)" (ActIgnore path)
              (Some (notGitIgnore basename path))]
      else if 1 <? length (paths g) then
        [Item ("Ignore " ++ numberToString (length (paths g))
                 ++ " Selected Files (Add to .gitignore)")
              (ActIgnoreSeveral (filter (notGitIgnore basename) (paths g)))
              (Some (existsb (notGitIgnore basename) (paths g)))]
      else [])
  ++ map (fun extension =>
            Item ("Ignore All " ++ extension ++ " Files (Add to .gitignore)")
                 (ActIgnore ("*" ++ extension)) None)
         (firstn 5 (extensions g))
  ++ [Separator;
      Item CopyFilePathLabel (ActCopyFilePath path) None;
      Item RevealInFileManagerLabel (ActRevealInFileManager path)
           (Some notDeleted);
      Item openInExternalEditor (ActOpenInExternalEditor path)
           (Some notDeleted);
      Item OpenWithDefaultProgramLabel (ActOpenItem path) (Some notDeleted)].

End ItemContextMenu.

(** What an entry runs on the component, for the two actions that end in
    [onDiscardChanges]. *)
Definition runDiscard (this : ChangesList) (a : MenuAction) : DiscardCall :=
  match a with
  | ActDiscardChanges paths => onDiscardChanges this paths
  | _ => NoDiscard
  end.

(** The patterns of the entries that ignore one pattern and carry no
    [enabled] field: the entries of lines 519-526. *)
Definition ignoreAllPatterns (items : list IMenuItem) : list string :=
  flat_map (fun item =>
              match item with
              | Item _ (ActIgnore pattern) None => [pattern]
              | _ => []
              end) items.

(** The ids of which [gather] looks up the files. *)
Definition menuScope (this : ChangesList) (id : string) : list string :=
  if existsb (String.eqb id) (selectedFileIDs (props this))
  then selectedFileIDs (props this) else [id].

(** [findFileWithID] on a list of records. *)
Definition findByID (wd : list F.t) (id : string) : option F.t :=
  find (fun f => String.eqb (F.id f) id) wd.

Definition sourceFiles : list F.t :=
  [plainFile "a.ts"; plainFile "b.ts"; plainFile ".gitignore"; plainFile "c.md"].

(** A stand-in for [Path.extname]: what follows the last dot, with the
    dot. *)
Fixpoint afterLastDot (s : string) : string :=
  match s with
  | EmptyString => EmptyString
  | String c rest =>
      match afterLastDot rest with
      | EmptyString => if Ascii.eqb c "."%char then s else EmptyString
      | found => found
      end
  end.

Definition menuOf (selection : list string) (id : string) : list IMenuItem :=
  onItemContextMenu (findByID sourceFiles) afterLastDot (fun p => p)
    "Open in external editor" "Copy file path" "Reveal" "Open" None true
    (construct {| workingDirectoryFiles := sourceFiles;
                  selectedFileIDs := selection;
                  selectedSketchFileID := None;
                  selectedSketchPartID := None |})
    id id {| kind := Modified; payload := 0 |}.

(** The files that [addItemToArray] finds for the ids [ids], in order. *)
Definition foundFiles (findFileWithID : string -> option F.t)
    (ids : list string) : list F.t :=
  flat_map (fun fileID =>
              match findFileWithID fileID with
              | Some newFile => [newFile]
              | None => []
              end) ids.

(** * Well-grouped change lists *)

(** [f.parts || []] *)
Definition partsOf (f : F.t) : list string :=
  match F.parts f with Some parts => parts | None => [] end.

(** The record goes through the loop over its parts (line 163): it has parts
    and a sketch file, and is no sketch file just added. *)
Definition loops (f : F.t) : bool :=
  match F.parts f with
  | Some parts => F.sketchFile f && negb (isNewSketchFile parts (F.path f))
  | None => false
  end.

Fixpoint eqSegments (a b : list string) : bool :=
  match a, b with
  | [], [] => true
  | x :: a', y :: b' => String.eqb x y && eqSegments a' b'
  | _, _ => false
  end.

(** The record [g] goes through the loop with a part path that starts with
    the segments [prefix]. *)
Definition hasPrefix (prefix : list string) (g : F.t) : bool :=
  loops g && eqSegments (firstn (length prefix) (partsOf g)) prefix.

(** The skip test of line 170 at depth [i] of the record at position [j],
    whose parts are [arr]. *)
Definition skipsAt (files : list F.t) (j : nat) (arr : list string) (i : nat)
  : bool :=
  match nth_error arr i with
  | Some part => samePart part (previousPartsAt files j) i
  | None => false
  end.

(** The skip test fires for the record [f] at position [j] exactly where a
    group is there already: at depth [i] the segment is that of the record
    before if and only if an earlier record has gone through the loop with
    the same first [i + 1] segments. *)
Definition wellGroupedAt (files : list F.t) (j : nat) (f : F.t) : bool :=
  negb (loops f)
  || forallb (fun i =>
                Bool.eqb (skipsAt files j (partsOf f) i)
                         (existsb (hasPrefix (firstn (S i) (partsOf f)))
                                  (firstn j files)))
             (seq 0 (length (partsOf f))).

(** A well-grouped change list: the records of one group are next to each
    other, and a record shares a segment with the record before it only along
    a shared prefix. *)
Definition wellGrouped (files : list F.t) : bool :=
  forallb (fun j =>
             match nth_error files j with
             | Some f => wellGroupedAt files j f
             | None => true
             end)
          (seq 0 (length files)).

(** The ids of the groups that the record [g] can give rise to: the joins of
    the non-empty prefixes of its parts. *)
Definition groupIdsOf (g : F.t) : list string :=
  if loops g
  then map (fun n => join (firstn (S n) (partsOf g)))
           (seq 0 (length (partsOf g)))
  else [].

(** No change record has the id of a group of the list. *)
Definition idsApart (files : list F.t) : bool :=
  forallb (fun f =>
             forallb (fun g => negb (existsb (String.eqb (F.id f))
                                             (groupIdsOf g)))
                     files)
          files.

(** Assigning [d[k] = v] adds or replaces a key of [d], which it does for
    every key but [__proto__]. *)
Definition assignable (k : string) : bool := negb (String.eqb k "__proto__").

(** Every key that a pass over [files] assigns is assignable. *)
Definition keysAssignable (files : list F.t) : bool :=
  forallb (fun f => forallb assignable (F.id f :: groupIdsOf f)) files.

(** ** Invariants of a pass over a well-grouped list *)

(** Every non-empty prefix that a record before position [k] has gone through
    the loop with has its group. *)
Definition Present (files : list F.t) (k : nat) (c : Closure) : Prop :=
  forall prefix, prefix <> [] ->
    existsb (hasPrefix prefix) (firstn k files) = true ->
    Dict.get (join prefix) (fakePartsAcc c) <> None.

(** The shown flag of a group whose parent was there when it was
    synthesized. *)
Definition GroupShown (oldList : option FileTable) (c : Closure) : Prop :=
  forall k p, Dict.get k (acc c) = Some (Fake p) ->
    P.parts p = []
    \/ (Dict.get (join (P.parts p)) (fakePartsAcc c) <> None
        /\ P.shown p = P.opened p || expandedOf oldList (join (P.parts p))).

(** The shown flag of the file node of a part change. *)
Definition FileShown (oldList : option FileTable) (c : Closure) : Prop :=
  forall k g parts,
    Dict.get k (acc c) = Some (File g) -> partChange g parts ->
    match parts with
    | [] => F.shown g = true
    | [_] => F.shown g = true ->
             Dict.get (join parts) (fakePartsAcc c) <> None
             /\ expandedOf oldList (join parts) = true
    | _ => Dict.get (join parts) (fakePartsAcc c) <> None
           /\ F.shown g = expandedOf oldList (join parts)
    end.

(** What every pass shows: the file node of a plain change, and a group that
    has depth 0 or is opened. *)
Definition AlwaysShown (c : Closure) : Prop :=
  forall k n, Dict.get k (acc c) = Some n ->
    match n with
    | File g => plainChange g -> F.shown g = true
    | Fake p => P.parts p = [] \/ P.opened p = true -> P.shown p = true
    end.

(** The keys of [fakePartsAcc] are the joins of the prefixes that the records
    before position [k] have gone through the loop with. *)
Definition GroupKeys (files : list F.t) (k : nat) (c : Closure) : Prop :=
  forall key, Dict.get key (fakePartsAcc c) <> None ->
    exists prefix, prefix <> [] /\ key = join prefix
                   /\ existsb (hasPrefix prefix) (firstn k files) = true.

(** The keys of the table are the ids of the records before position [k] and
    the keys of [fakePartsAcc]. *)
Definition TableKeys (files : list F.t) (k : nat) (c : Closure) : Prop :=
  forall key, Dict.get key (acc c) <> None ->
    (exists f, In f (firstn k files) /\ F.id f = key)
    \/ Dict.get key (fakePartsAcc c) <> None.

(** The invariant of the loop over the parts [arr] of the record at position
    [k], before the turn for depth [i]: the groups of the first [i] prefixes
    of [arr] are there too. *)
Definition GroupedAt (files : list F.t) (oldList : option FileTable)
    (k : nat) (arr : list string) (i : nat) (c : Closure) : Prop :=
  TreeOk oldList c /\ Present files k c
  /\ (forall n, n < i ->
        Dict.get (join (firstn (S n) arr)) (fakePartsAcc c) <> None)
  /\ GroupShown oldList c /\ FileShown oldList c.

(** The invariant of the pass over a well-grouped list, at position [k]. *)
Definition Grouped (files : list F.t) (oldList : option FileTable)
    (k : nat) (c : Closure) : Prop :=
  TreeOk oldList c /\ Present files k c
  /\ GroupShown oldList c /\ FileShown oldList c.

(** The keys of [fakePartsAcc] inside the loop over the parts [arr] of the
    record at position [k], before the turn for depth [i]. *)
Definition GroupKeysAt (files : list F.t) (k : nat) (arr : list string)
    (i : nat) (c : Closure) : Prop :=
  forall key, Dict.get key (fakePartsAcc c) <> None ->
    exists prefix,
      prefix <> [] /\ key = join prefix
      /\ (existsb (hasPrefix prefix) (firstn k files) = true
          \/ exists n, n < i /\ prefix = firstn (S n) arr).

(** ** Sample change lists *)

(** Four layer changes in two documents, those of a group next to each
    other. *)
Definition twoDocuments : list F.t :=
  [sketchChange "m1" ["a.sketch"; "page1"; "l1"] {| kind := Modified; payload := 0 |};
   sketchChange "m2" ["a.sketch"; "page1"; "l2"] {| kind := Modified; payload := 0 |};
   sketchChange "m3" ["a.sketch"; "page2"; "l3"] {| kind := Modified; payload := 0 |};
   sketchChange "m4" ["b.sketch"; "page9"; "l4"] {| kind := Modified; payload := 0 |}]%string.

(** Two layer changes in two documents whose pages have the same name. *)
Definition samePageName : list F.t :=
  [sketchChange "A" ["a.sketch"; "Page 1"; "x"] {| kind := Modified; payload := 0 |};
   sketchChange "B" ["b.sketch"; "Page 1"; "y"] {| kind := Modified; payload := 0 |}]%string.

(** The table of a pass over the second of them alone, after its page group
    has been opened. *)
Definition secondPageOpened : FileTable :=
  Dict.set "b.sketch/Page 1"
    (Fake (P.mk true true 1 PageFile "b.sketch/Page 1" ["b.sketch"%string]
                "Page 1" None))
    (getFileList (skipn 1 samePageName) None).

(** C5 as the specification words it, the persistence clause: a group that
    the previous table holds expanded is expanded in the new table, for every
    change list that still has a record under that group. *)
Definition opened_persists_as_specified : Prop :=
  forall files old k q,
    Dict.get k old = Some (Fake q) -> P.opened q = true ->
    (exists f arr n, In f files /\ partChange f arr /\ n < length arr
                     /\ k = join (firstn (S n) arr)) ->
    exists p, Dict.get k (getFileList files (Some old)) = Some (Fake p)
              /\ P.opened p = true.

(** A previous table that holds the first page group of [twoDocuments]
    opened. *)
Definition firstPageOpened : FileTable :=
  [("a.sketch/page1"%string,
    Fake (P.mk true true 1 PageFile "a.sketch/page1" ["a.sketch"%string]
               "page1" None))].

(** Three changes, the third back in the document of the first. *)
Definition reconverging : list F.t :=
  [sketchChange "r1" ["a.sketch"; "p1"] {| kind := Modified; payload := 0 |};
   sketchChange "r2" ["b.sketch"; "p2"] {| kind := Modified; payload := 0 |};
   sketchChange "r3" ["a.sketch"; "p3"] {| kind := Modified; payload := 0 |}]%string.

(** A document with a file inside its folder that is no part of it: the
    plain change comes between two parts of the document. *)
Definition strayInsideDocument : list F.t :=
  [sketchChange "a/document.json" ["a.sketch"; "document"]
                {| kind := Modified; payload := 0 |};
   plainFile "a/notes.txt";
   sketchChange "a/pages/p1.json" ["a.sketch"; "pages"]
                {| kind := Modified; payload := 0 |}]%string.

(** No node of the table has been replaced so far: the table has as many
    nodes as the counter has counted. *)
Definition NoneReplaced (c : Closure) : Prop :=
  length (Dict.values (acc c)) = index c.

(** * Properties *)

(** ** Lemmas on string-keyed objects *)

Section DictFacts.
Context {V : Type}.
Implicit Types (d : Dict.t V) (k : string) (v : V).

Lemma get_set_same d k v : Dict.get k (Dict.set k v d) = Some v.
Proof.
  induction d as [|[k' v'] d IH]; simpl.
  - now rewrite String.eqb_refl.
  - destruct (String.eqb k k') eqn:E; simpl.
    + now rewrite String.eqb_refl.
    + now rewrite E.
Qed.

Lemma get_set_other d k k' v :
  k <> k' -> Dict.get k' (Dict.set k v d) = Dict.get k' d.
Proof.
  intros N. induction d as [|[k0 v0] d IH]; simpl.
  - destruct (String.eqb k' k) eqn:E; [apply String.eqb_eq in E; congruence | reflexivity].
  - destruct (String.eqb k k0) eqn:E; simpl.
    + apply String.eqb_eq in E; subst k0.
      destruct (String.eqb k' k) eqn:E'; [apply String.eqb_eq in E'; congruence | reflexivity].
    + now rewrite IH.
Qed.

Lemma get_set d k k' v :
  Dict.get k' (Dict.set k v d) = if String.eqb k k' then Some v else Dict.get k' d.
Proof.
  destruct (String.eqb k k') eqn:E.
  - apply String.eqb_eq in E; subst; apply get_set_same.
  - apply String.eqb_neq in E; now apply get_set_other.
Qed.

Lemma get_In d k v : Dict.get k d = Some v -> In v (Dict.values d).
Proof.
  induction d as [|[k' v'] d IH]; simpl; [discriminate|].
  destruct (String.eqb k k'); [intros [= ->]; now left | auto].
Qed.

Lemma In_values_set d k v x :
  In x (Dict.values (Dict.set k v d)) -> x = v \/ In x (Dict.values d).
Proof.
  induction d as [|[k' v'] d IH]; simpl.
  - intros [<-|[]]; now left.
  - destruct (String.eqb k k'); simpl.
    + intros [<-|H]; [now left | right; now right].
    + intros [<-|H]; [right; now left|].
      destruct (IH H); [now left | right; now right].
Qed.

Lemma length_set_le d k v :
  length d <= length (Dict.set k v d) <= S (length d).
Proof.
  induction d as [|[k' v'] d IH]; simpl; [lia|].
  destruct (String.eqb k k'); simpl; lia.
Qed.

End DictFacts.

(** ** The selection guard of [componentWillReceiveProps] *)

Lemma arrayEquals_eq x y : arrayEquals x y = true <-> x = y.
Proof.
  revert y; induction x as [|a x IH]; intros [|b y]; simpl; split;
    try congruence; try discriminate.
  - intros H; apply andb_true_iff in H as [H1 H2].
    apply String.eqb_eq in H1; apply IH in H2; congruence.
  - intros [= -> ->]. rewrite String.eqb_refl; simpl; now apply IH.
Qed.

Lemma differs_false a b : differs a b = false <-> a = b.
Proof.
  destruct a as [x|], b as [y|]; simpl; split; try congruence; try discriminate.
  - intros H; apply negb_false_iff, String.eqb_eq in H; congruence.
  - intros [= ->]; now rewrite String.eqb_refl.
Qed.

Lemma selectionChanged_false this nextProps :
  selectionChanged this nextProps = false <-> selectionUnchanged this nextProps.
Proof.
  unfold selectionChanged, selectionUnchanged.
  rewrite !orb_false_iff, negb_false_iff, arrayEquals_eq, !differs_false.
  tauto.
Qed.

(** C2, counterexample: a component built over no changes receives props with
    the same (empty) selection and one changed file; the call rebuilds, the
    tree now has a row. *)
Lemma guard_as_specified_fails : ~ guard_as_specified.
Proof.
  intros H.
  destruct (H (construct (noSelection [])) (noSelection [plainFile "readme.md"]))
    as [Hskip _].
  assert (U : selectionUnchanged (props (construct (noSelection [])))
                (noSelection [plainFile "readme.md"])) by (repeat split).
  specialize (Hskip U). vm_compute in Hskip. discriminate Hskip.
Qed.

(** C2 (amended): the guard of [componentWillReceiveProps] returns without
    touching the state as soon as one selection identifier (selected file
    ids, selected sketch file id, selected sketch part id) differs from the
    current props, and rebuilds -- [getFileList] over the next change list
    with the current table as old list, then [getOpenedFilesList] -- exactly
    when all three are unchanged. *)
Theorem guard_rebuilds_iff_selection_unchanged :
  forall this nextProps,
    (selectionUnchanged this.(props) nextProps ->
       componentWillReceiveProps this nextProps = rebuilt this nextProps)
    /\ (~ selectionUnchanged this.(props) nextProps ->
       componentWillReceiveProps this nextProps = skipped this nextProps).
Proof.
  intros this nextProps. unfold componentWillReceiveProps.
  destruct (selectionChanged (props this) nextProps) eqn:E; split; intros H.
  - apply selectionChanged_false in H. congruence.
  - reflexivity.
  - reflexivity.
  - apply selectionChanged_false in E. contradiction.
Qed.

Lemma guard_rebuilds_iff_selection_unchanged_witness :
  let this := construct (noSelection []) in
  let nextProps := noSelection [plainFile "readme.md"] in
  selectionUnchanged (props this) nextProps
  /\ componentWillReceiveProps this nextProps = rebuilt this nextProps.
Proof.
  cbv zeta. split; [repeat split|].
  apply (proj1 (guard_rebuilds_iff_selection_unchanged
                  (construct (noSelection []))
                  (noSelection [plainFile "readme.md"]))).
  repeat split.
Defined.

(** ** Scenario B *)

(** C3, counterexample: for the layer change [layerChange] the page group is
    shown (its parent, the document group, is opened) and the visible list has
    two rows. *)
Lemma scenarioB_as_specified_fails : ~ scenarioB_as_specified layerChange.
Proof.
  intros (_ & (g & Hg & _ & _ & Hshown) & _).
  vm_compute in Hg. injection Hg as <-. discriminate Hshown.
Qed.

(** C3 (amended): for the input of exactly one change record with part path
    ["doc.sketch"; "page1"; "layer1"], a sketch file set, an id that is none of
    the three group ids, and no previous table, [getFileList] returns four
    nodes in this order: the group "doc.sketch" (depth 0, opened, shown), the
    group "doc.sketch/page1" (depth 1, not opened, shown), the group
    "doc.sketch/page1/layer1" (depth 2, not opened, not shown) and the file
    node of the change (not shown, index 3); [getOpenedFilesList] of that table
    is the two rows [doc.sketch; doc.sketch/page1]. *)
Theorem scenarioB_table_and_rows :
  forall f,
    F.parts f = Some scenarioB_parts ->
    F.sketchFile f = true ->
    ~ In (F.id f) ["doc.sketch"; "doc.sketch/page1"; "doc.sketch/page1/layer1"]%string ->
    getFileList [f] None =
      [("doc.sketch"%string, Fake (scenarioB_root f));
       ("doc.sketch/page1"%string, Fake (scenarioB_page f));
       ("doc.sketch/page1/layer1"%string, Fake (scenarioB_layer f));
       (F.id f, File (setIndex (setShown f false) 3))]
    /\ getOpenedFilesList (getFileList [f] None) =
         [Fake (scenarioB_root f); Fake (scenarioB_page f)].
Proof.
  intros f Hparts Hsketch Hid.
  assert (T : getFileList [f] None =
      [("doc.sketch"%string, Fake (scenarioB_root f));
       ("doc.sketch/page1"%string, Fake (scenarioB_page f));
       ("doc.sketch/page1/layer1"%string, Fake (scenarioB_layer f));
       (F.id f, File (setIndex (setShown f false) 3))]).
  { unfold getFileList, getFileListRun; simpl.
    unfold fileStep. rewrite Hparts, Hsketch. simpl.
    unfold forEach; simpl.
    unfold idOfPart, scenarioB_parts; simpl.
    unfold setIndex at 1; simpl.
    destruct (String.eqb (F.id f) "doc.sketch") eqn:E1;
      [apply String.eqb_eq in E1; exfalso; apply Hid; rewrite E1; simpl; tauto|].
    destruct (String.eqb (F.id f) "doc.sketch/page1") eqn:E2;
      [apply String.eqb_eq in E2; exfalso; apply Hid; rewrite E2; simpl; tauto|].
    destruct (String.eqb (F.id f) "doc.sketch/page1/layer1") eqn:E3;
      [apply String.eqb_eq in E3; exfalso; apply Hid; rewrite E3; simpl; tauto|].
    reflexivity. }
  split; [exact T|]. rewrite T. reflexivity.
Qed.

Lemma scenarioB_table_and_rows_witness :
  getFileList [layerChange] None =
      [("doc.sketch"%string, Fake (scenarioB_root layerChange));
       ("doc.sketch/page1"%string, Fake (scenarioB_page layerChange));
       ("doc.sketch/page1/layer1"%string, Fake (scenarioB_layer layerChange));
       (F.id layerChange, File (setIndex (setShown layerChange false) 3))]
  /\ getOpenedFilesList (getFileList [layerChange] None) =
       [Fake (scenarioB_root layerChange); Fake (scenarioB_page layerChange)].
Proof.
  apply (scenarioB_table_and_rows layerChange).
  - reflexivity.
  - reflexivity.
  - simpl. intros [H|[H|[H|[]]]]; discriminate H.
Defined.

(** ** Induction over the two loops of [getFileList] *)

Lemma forEachFrom_inv {A St : Type} (cb : St -> A -> nat -> list A -> St)
    (arr : list A) (Inv : St -> Prop) :
  (forall s x i, nth_error arr i = Some x -> Inv s -> Inv (cb s x i arr)) ->
  forall rest i s,
    (forall j x, nth_error rest j = Some x -> nth_error arr (i + j) = Some x) ->
    Inv s -> Inv (forEachFrom cb arr i rest s).
Proof.
  intros Hcb rest; induction rest as [|x rest IH]; intros i s Hsuf Hs; simpl.
  - exact Hs.
  - apply IH.
    + intros j y Hj. replace (S i + j) with (i + S j) by lia. now apply Hsuf.
    + apply Hcb; [|exact Hs]. specialize (Hsuf 0 x eq_refl).
      now rewrite Nat.add_0_r in Hsuf.
Qed.

Lemma forEach_inv {A St : Type} (cb : St -> A -> nat -> list A -> St)
    (arr : list A) (Inv : St -> Prop) :
  (forall s x i, nth_error arr i = Some x -> Inv s -> Inv (cb s x i arr)) ->
  forall s, Inv s -> Inv (forEach cb arr s).
Proof.
  intros Hcb s Hs. unfold forEach. apply forEachFrom_inv; auto.
Qed.

(** The closure after line 166. *)
Lemma acc_reset c i : acc (resetParent c i) = acc c.
Proof. unfold resetParent. now destruct (i <=? 1). Qed.

Lemma fakePartsAcc_reset c i : fakePartsAcc (resetParent c i) = fakePartsAcc c.
Proof. unfold resetParent. now destruct (i <=? 1). Qed.

Lemma index_reset c i : index (resetParent c i) = index c.
Proof. unfold resetParent. now destruct (i <=? 1). Qed.

(** The closure after the callback of [forEach], by its two branches. *)
Lemma partStep_same oldList pp f c part i arr :
  samePart part pp i = true ->
  let c' := partStep oldList pp f c part i arr in
  acc c' = (if isConflicted f
            then attachStatus (acc c) (idOfPart arr i part) (F.status f)
            else acc c)
  /\ fakePartsAcc c' = fakePartsAcc c
  /\ parentPartChange c' = parentPartChange (resetParent c i)
  /\ index c' = index c.
Proof.
  intros H. unfold partStep. rewrite H.
  destruct (isConflicted f); simpl;
    rewrite ?acc_reset, ?fakePartsAcc_reset, ?index_reset; auto.
Qed.

Lemma partStep_new oldList pp f c part i arr :
  samePart part pp i = false ->
  let c' := partStep oldList pp f c part i arr in
  let partChange := partChangeOf oldList f (resetParent c i) part i arr in
  acc c' = Dict.set (idOfPart arr i part) (Fake partChange) (acc c)
  /\ fakePartsAcc c' = Dict.set (idOfPart arr i part) partChange (fakePartsAcc c)
  /\ parentPartChange c' = Own partChange
  /\ index c' = index c + 1.
Proof.
  intros H. unfold partStep. rewrite H. simpl.
  rewrite ?acc_reset, ?fakePartsAcc_reset, ?index_reset; auto.
Qed.

Lemma attachStatus_get prev id s k :
  Dict.get k (attachStatus prev id s) =
    match Dict.get id prev with
    | Some (Fake q) =>
        match P.status q with
        | None => if String.eqb id k then Some (Fake (setStatus q s))
                  else Dict.get k prev
        | Some _ => Dict.get k prev
        end
    | _ => Dict.get k prev
    end.
Proof.
  unfold attachStatus. destruct (Dict.get id prev) as [[f|q]|]; auto.
  destruct (P.status q); auto. apply get_set.
Qed.

(** The two shapes of one turn of [reduce]: the record is emitted at once, or
    after the loop over its parts. *)
Lemma fileStep_cases files oldList c f i :
  fileStep files oldList c f i = emit c (parentPartChange c) (setShown f true)
  \/ exists parts,
       F.parts f = Some parts /\ F.sketchFile f = true
       /\ isNewSketchFile parts (F.path f) = false
       /\ let c' := forEach (partStep oldList (previousPartsAt files i) f) parts c in
          let parent := fileParent c' parts in
          fileStep files oldList c f i =
            emit c' parent
              (setShown f (parentOpened parent || (length parts =? 0))).
Proof.
  unfold fileStep.
  destruct (F.parts f) as [parts|]; [|now left].
  destruct (F.sketchFile f); [|now left].
  destruct (isNewSketchFile parts (F.path f)) eqn:E; [now left|].
  right. exists parts. repeat split; auto.
Qed.

Lemma reduceFrom_inv files oldList (Inv : Closure -> Prop) :
  (forall c f i, Inv c -> Inv (fst (fileStep files oldList c f i))) ->
  forall rest i c, Inv c -> Inv (fst (reduceFrom files oldList i rest c)).
Proof.
  intros Hstep rest; induction rest as [|f rest IH]; intros i c Hc; simpl.
  - exact Hc.
  - specialize (Hstep c f i Hc).
    destruct (fileStep files oldList c f i) as [c1 f1]; simpl in Hstep.
    specialize (IH (S i) c1 Hstep).
    destruct (reduceFrom files oldList (S i) rest c1) as [c2 out]. exact IH.
Qed.

Lemma reduceFrom_app files oldList l1 l2 i c :
  reduceFrom files oldList i (l1 ++ l2) c =
    (fst (reduceFrom files oldList (i + length l1) l2
            (fst (reduceFrom files oldList i l1 c))),
     snd (reduceFrom files oldList i l1 c)
     ++ snd (reduceFrom files oldList (i + length l1) l2
               (fst (reduceFrom files oldList i l1 c)))).
Proof.
  revert i c; induction l1 as [|f l1 IH]; intros i c; simpl.
  - rewrite Nat.add_0_r. now destruct (reduceFrom files oldList i l2 c).
  - destruct (fileStep files oldList c f i) as [c1 f1].
    rewrite IH. replace (S i + length l1) with (i + S (length l1)) by lia.
    destruct (reduceFrom files oldList (S i) l1 c1) as [c2 o2]; simpl.
    reflexivity.
Qed.

Lemma firstn_S_nth {A : Type} (l : list A) j x :
  nth_error l j = Some x -> firstn (S j) l = firstn j l ++ [x].
Proof.
  revert j; induction l as [|a l IH]; intros [|j]; simpl; try discriminate.
  - now intros [= ->].
  - intros H. specialize (IH j H). simpl in *. now rewrite IH.
Qed.

Lemma split_at_nth {A : Type} (l : list A) j x :
  nth_error l j = Some x -> l = firstn j l ++ x :: skipn (S j) l.
Proof.
  revert j; induction l as [|a l IH]; intros [|j]; simpl; try discriminate.
  - now intros [= ->].
  - intros H. f_equal. now apply IH.
Qed.

Lemma length_firstn_nth {A : Type} (l : list A) j x :
  nth_error l j = Some x -> length (firstn j l) = j.
Proof.
  intros H. apply firstn_length_le.
  assert (j < length l) by (apply nth_error_Some; congruence). lia.
Qed.

(** The closure one position further is one turn of the callback away. *)
Lemma closureAt_S files oldList j f :
  nth_error files j = Some f ->
  closureAt files oldList (S j) =
    fst (fileStep files oldList (closureAt files oldList j) f j).
Proof.
  intros H. unfold closureAt. rewrite (firstn_S_nth _ _ _ H), reduceFrom_app.
  simpl. rewrite (length_firstn_nth _ _ _ H).
  destruct (fileStep files oldList _ f j); reflexivity.
Qed.

(** The record at position [j] after the pass is the one that turn wrote. *)
Lemma filesAfter_nth files oldList j f :
  nth_error files j = Some f ->
  nth_error (filesAfter files oldList) j =
    Some (snd (fileStep files oldList (closureAt files oldList j) f j)).
Proof.
  intros H. unfold filesAfter, getFileListRun.
  rewrite (split_at_nth _ _ _ H) at 2.
  remember (skipn (S j) files) as rest eqn:Hrest. clear Hrest.
  rewrite reduceFrom_app.
  rewrite (length_firstn_nth _ _ _ H). fold (closureAt files oldList j).
  assert (L : length (snd (reduceFrom files oldList 0 (firstn j files) initial)) = j).
  { rewrite <- (length_firstn_nth _ _ _ H) at 2.
    generalize (firstn j files) 0 initial.
    intros l; induction l as [|g l IH]; intros i c; simpl; [reflexivity|].
    destruct (fileStep files oldList c g i) as [c1 g1].
    specialize (IH (S i) c1).
    destruct (reduceFrom files oldList (S i) l c1); simpl in *. now rewrite IH. }
  cbn [snd]. rewrite nth_error_app2 by lia. rewrite L, Nat.sub_diag.
  cbn [reduceFrom Nat.add].
  destruct (fileStep files oldList (closureAt files oldList j) f j) as [c1 f1].
  destruct (reduceFrom files oldList (S j) rest c1). reflexivity.
Qed.

(** What one turn writes into the record it is given. *)
Lemma fileStep_snd files oldList c f i :
  exists b c', snd (fileStep files oldList c f i) = setIndex (setShown f b) (index c')
    /\ fileStep files oldList c f i =
         emit c' (parentPartChange (fst (fileStep files oldList c f i)))
              (setShown f b).
Proof.
  destruct (fileStep_cases files oldList c f i) as [E|(parts & _ & _ & _ & E)];
    cbv zeta in *; rewrite E; simpl; eauto.
Qed.

(** ** What the pass writes *)

(** The loop over the parts puts no file node into the table. *)
Lemma partStep_acc_File oldList pp f c part i arr k g :
  Dict.get k (acc (partStep oldList pp f c part i arr)) = Some (File g) ->
  Dict.get k (acc c) = Some (File g).
Proof.
  destruct (samePart part pp i) eqn:E.
  - destruct (partStep_same oldList pp f c part i arr E) as (-> & _).
    destruct (isConflicted f); auto.
    rewrite attachStatus_get.
    destruct (Dict.get _ (acc c)) as [[h|q]|] eqn:E'; auto.
    destruct (P.status q); auto.
    destruct (String.eqb _ k); [discriminate | auto].
  - destruct (partStep_new oldList pp f c part i arr E) as (-> & _).
    rewrite get_set. destruct (String.eqb _ k); [discriminate | auto].
Qed.

Lemma forEach_acc_File oldList pp f c parts k g :
  Dict.get k (acc (forEach (partStep oldList pp f) parts c)) = Some (File g) ->
  Dict.get k (acc c) = Some (File g).
Proof.
  revert k g.
  apply (forEach_inv (partStep oldList pp f) parts
           (fun s => forall k g, Dict.get k (acc s) = Some (File g) ->
                                 Dict.get k (acc c) = Some (File g))); auto.
  intros s x i _ IH k g H. apply IH. eapply partStep_acc_File; eauto.
Qed.

(** A file node of the table after one turn is the record just written, or
    was in the table before. *)
Lemma fileStep_acc_File files oldList c f i k g :
  Dict.get k (acc (fst (fileStep files oldList c f i))) = Some (File g) ->
  g = snd (fileStep files oldList c f i) \/ Dict.get k (acc c) = Some (File g).
Proof.
  destruct (fileStep_cases files oldList c f i) as [E|(parts & _ & _ & _ & E)];
    cbv zeta in E; rewrite E; simpl; rewrite get_set.
  - destruct (String.eqb (F.id f) k); [intros [= <-]; now left | now right].
  - destruct (String.eqb (F.id f) k); [intros [= <-]; now left |].
    intros H; right. eapply forEach_acc_File; eauto.
Qed.

Lemma reduceFrom_acc_File files oldList rest : forall i c k g,
  Dict.get k (acc (fst (reduceFrom files oldList i rest c))) = Some (File g) ->
  In g (snd (reduceFrom files oldList i rest c))
  \/ Dict.get k (acc c) = Some (File g).
Proof.
  induction rest as [|f rest IH]; intros i c k g; simpl; [now right|].
  pose proof (@fileStep_acc_File files oldList c f i k g) as Hs.
  destruct (fileStep files oldList c f i) as [c1 f1]; simpl in Hs.
  specialize (IH (S i) c1 k g).
  destruct (reduceFrom files oldList (S i) rest c1) as [c2 out]; simpl in *.
  intros H. destruct (IH H) as [Hin|Hc1]; [left; now right|].
  destruct (Hs Hc1) as [->|Hc]; [left; now left | now right].
Qed.

Lemma reduceFrom_snd files oldList rest : forall i c,
  Forall2 (fun f f' => exists b n, f' = setIndex (setShown f b) n)
          rest (snd (reduceFrom files oldList i rest c)).
Proof.
  induction rest as [|f rest IH]; intros i c; simpl; [constructor|].
  destruct (fileStep_snd files oldList c f i) as (b & c' & E & _).
  destruct (fileStep files oldList c f i) as [c1 f1]; simpl in E.
  specialize (IH (S i) c1).
  destruct (reduceFrom files oldList (S i) rest c1) as [c2 out]; simpl in *.
  constructor; eauto.
Qed.

Lemma filesAfter_written files oldList :
  Forall2 written files (filesAfter files oldList).
Proof. apply reduceFrom_snd. Qed.

(** The file nodes of the returned table are records of the array after the
    pass. *)
Lemma getFileList_File_In files oldList k g :
  Dict.get k (getFileList files oldList) = Some (File g) ->
  In g (filesAfter files oldList).
Proof.
  intros H.
  destruct (@reduceFrom_acc_File files oldList files 0 initial k g H) as [Hin|Hc].
  - exact Hin.
  - discriminate Hc.
Qed.

(** ** Conflict status of a group *)

(** C9: when the part at position [i] is the part the preceding change has at
    that position, no group is synthesized; the table changes at most under
    the id of that part, and only if the change is conflicted and the node
    found there is a group without a status, which then takes the status of
    the change.  A group that already has a status -- from the change that
    created it or from an earlier conflicted change -- is left as it is: the
    first status is kept. *)
Theorem conflict_status_attached_once :
  forall oldList previousParts f c part i arr,
    samePart part previousParts i = true ->
    let id := idOfPart arr i part in
    let c' := partStep oldList previousParts f c part i arr in
    fakePartsAcc c' = fakePartsAcc c
    /\ index c' = index c
    /\ (forall k, k <> id -> Dict.get k (acc c') = Dict.get k (acc c))
    /\ Dict.get id (acc c') =
         match Dict.get id (acc c) with
         | Some (Fake q) =>
             match P.status q with
             | None => Some (Fake (if isConflicted f
                                   then setStatus q (F.status f) else q))
             | Some _ => Some (Fake q)
             end
         | other => other
         end
    /\ (forall q s, Dict.get id (acc c) = Some (Fake q) ->
                    P.status q = Some s ->
                    Dict.get id (acc c') = Some (Fake q)).
Proof.
  intros oldList pp f c part i arr Hsame id c'.
  destruct (partStep_same oldList pp f c part i arr Hsame) as (A & Fp & _ & I).
  fold c' id in A, Fp, I.
  assert (Gid : Dict.get id (acc c') =
         match Dict.get id (acc c) with
         | Some (Fake q) =>
             match P.status q with
             | None => Some (Fake (if isConflicted f
                                   then setStatus q (F.status f) else q))
             | Some _ => Some (Fake q)
             end
         | other => other
         end).
  { rewrite A. destruct (isConflicted f).
    - rewrite attachStatus_get, String.eqb_refl.
      destruct (Dict.get id (acc c)) as [[g|q]|]; auto; destruct (P.status q); auto.
    - destruct (Dict.get id (acc c)) as [[g|q]|]; auto; destruct (P.status q); auto. }
  repeat split; auto.
  - intros k Hk. rewrite A. destruct (isConflicted f); auto.
    rewrite attachStatus_get.
    destruct (Dict.get id (acc c)) as [[g|q]|]; auto.
    destruct (P.status q); auto.
    destruct (String.eqb id k) eqn:E; auto.
    apply String.eqb_eq in E; congruence.
  - intros q s Hq Hs. rewrite Gid, Hq, Hs. reflexivity.
Qed.

Lemma conflict_status_attached_once_witness :
  let c := closureAt twoConflicts None 2 in
  let f := sketchChange "c" ["doc"; "c"]%string {| kind := Conflicted; payload := 2 |} in
  let c' := partStep None ["doc"; "b"]%string f c "doc"%string 0 ["doc"; "c"]%string in
  samePart "doc"%string ["doc"; "b"]%string 0 = true
  /\ Dict.get "doc"%string (acc c) = Some (Fake docAfterFirstConflict)
  /\ Dict.get "doc"%string (acc c') = Some (Fake docAfterFirstConflict).
Proof.
  split; [reflexivity|]. split; [reflexivity|].
  pose proof (conflict_status_attached_once None ["doc"; "b"]%string
                (sketchChange "c" ["doc"; "c"]%string
                   {| kind := Conflicted; payload := 2 |})
                (closureAt twoConflicts None 2) "doc"%string 0
                ["doc"; "c"]%string eq_refl) as H.
  cbv zeta in H. destruct H as (_ & _ & _ & _ & H).
  exact (H docAfterFirstConflict {| kind := Conflicted; payload := 1 |}
           eq_refl eq_refl).
Defined.

(** The pass over [twoConflicts]: the document group, created by the ordinary
    change, carries the status of the first conflicted change. *)
Example first_conflict_wins :
  option_map (fun n => match n with Fake q => P.status q | File _ => None end)
    (Dict.get "doc"%string (getFileList twoConflicts None))
  = Some (Some {| kind := Conflicted; payload := 1 |}).
Proof. reflexivity. Qed.

(** ** Invariants of the closure *)

(** An invariant of the closure holds throughout a pass when the callback of
    [forEach] and the two ways a record is emitted keep it. *)
Lemma fileStep_invariant (Inv : Closure -> Prop) files oldList :
  (forall pp f c part i arr,
      nth_error arr i = Some part ->
      Inv c -> Inv (partStep oldList pp f c part i arr)) ->
  (forall c f, Inv c ->
      Inv (fst (emit c (parentPartChange c) (setShown f true)))) ->
  (forall c f parts,
      F.parts f = Some parts -> F.sketchFile f = true -> Inv c ->
      let parent := fileParent c parts in
      Inv (fst (emit c parent
                  (setShown f (parentOpened parent || (length parts =? 0)))))) ->
  forall c f i, Inv c -> Inv (fst (fileStep files oldList c f i)).
Proof.
  intros Hpart Hplain Hsketch c f i Hc.
  destruct (fileStep_cases files oldList c f i) as [E|(parts & Hp & Hs & _ & E)];
    cbv zeta in E; rewrite E.
  - now apply Hplain.
  - apply (Hsketch _ f parts Hp Hs). apply forEach_inv; auto.
Qed.

Lemma getFileList_invariant (Inv : Closure -> Prop) files oldList :
  (forall pp f c part i arr,
      nth_error arr i = Some part ->
      Inv c -> Inv (partStep oldList pp f c part i arr)) ->
  (forall c f, Inv c ->
      Inv (fst (emit c (parentPartChange c) (setShown f true)))) ->
  (forall c f parts,
      F.parts f = Some parts -> F.sketchFile f = true -> Inv c ->
      let parent := fileParent c parts in
      Inv (fst (emit c parent
                  (setShown f (parentOpened parent || (length parts =? 0)))))) ->
  Inv initial ->
  (forall j, Inv (closureAt files oldList j))
  /\ Inv (fst (getFileListRun files oldList)).
Proof.
  intros Hpart Hplain Hsketch H0.
  assert (Hstep : forall c f i, Inv c -> Inv (fst (fileStep files oldList c f i)))
    by (apply fileStep_invariant; auto).
  split; [intros j; unfold closureAt | unfold getFileListRun];
    apply (reduceFrom_inv files oldList Inv Hstep); exact H0.
Qed.

Lemma read_cases {V : Type} (d : Dict.t V) k :
  (exists v, Dict.get k d = Some v /\ Dict.read k d = Own v)
  \/ (Dict.get k d = None /\ Dict.inherited k = true
      /\ Dict.read k d = Inherited)
  \/ (Dict.get k d = None /\ Dict.inherited k = false
      /\ Dict.read k d = Undefined).
Proof.
  unfold Dict.read. destruct (Dict.get k d) as [v|]; [eauto|].
  destruct (Dict.inherited k); auto.
Qed.

Lemma read_Own {V : Type} (d : Dict.t V) k v :
  Dict.read k d = Own v <-> Dict.get k d = Some v.
Proof.
  unfold Dict.read. destruct (Dict.get k d) as [v'|].
  - split; congruence.
  - destruct (Dict.inherited k); split; discriminate.
Qed.

Lemma fileParent_cases c parts :
  fileParent c parts = Undefined
  \/ fileParent c parts = Inherited
  \/ (exists q, fileParent c parts = Own q
                /\ Dict.get (join parts) (fakePartsAcc c) = Some q)
  \/ (exists q, fileParent c parts = Own q /\ parentPartChange c = Own q
                /\ P.id q = join parts /\ 1 < length parts).
Proof.
  assert (R : forall x, x = Dict.read (join parts) (fakePartsAcc c) ->
    x = Undefined \/ x = Inherited
    \/ (exists q, x = Own q
                  /\ Dict.get (join parts) (fakePartsAcc c) = Some q)
    \/ (exists q, x = Own q /\ parentPartChange c = Own q
                  /\ P.id q = join parts /\ 1 < length parts)).
  { intros x ->.
    destruct (read_cases (fakePartsAcc c) (join parts))
      as [(v & G & E)|[(G & _ & E)|(G & _ & E)]]; rewrite E; auto.
    right; right; left. eauto. }
  unfold fileParent. destruct (parentPartChange c) as [q| |].
  - destruct (1 <? length parts) eqn:L; simpl.
    + destruct (String.eqb (P.id q) (join parts)) eqn:E; simpl.
      * right; right; right. exists q. apply String.eqb_eq in E.
        apply Nat.ltb_lt in L.
        destruct (length parts <=? 1) eqn:L'; [apply Nat.leb_le in L'; lia|].
        auto.
      * now apply R.
    + apply Nat.ltb_ge in L. apply Nat.leb_le in L. rewrite L. now left.
  - destruct (1 <? length parts) eqn:L; [now apply R|].
    apply Nat.ltb_ge in L. apply Nat.leb_le in L. rewrite L. now left.
  - now apply R.
Qed.

Lemma findParent_cases c i parentId :
  findParent c i parentId = Dict.read parentId (fakePartsAcc c)
  \/ (exists q, findParent c i parentId = Own q /\ parentPartChange c = Own q
                /\ (1 < i -> P.id q = parentId))
  \/ (findParent c i parentId = Inherited /\ parentPartChange c = Inherited).
Proof.
  unfold findParent. destruct (parentPartChange c) as [q| |]; [| |now left].
  - destruct (1 <? i) eqn:L; simpl.
    + destruct (String.eqb (P.id q) parentId) eqn:E; simpl; [|now left].
      right; left. exists q. apply String.eqb_eq in E. auto.
    + right; left. exists q. apply Nat.ltb_ge in L. repeat split; auto. lia.
  - destruct (1 <? i); auto.
Qed.

Lemma IdsOk_initial : IdsOk initial.
Proof. split; simpl; intros; discriminate. Qed.

Lemma IdsOk_resetParent c i : IdsOk c -> IdsOk (resetParent c i).
Proof.
  intros [A B C]. unfold resetParent. destruct (i <=? 1); split; simpl; auto.
  discriminate.
Qed.

Lemma IdsOk_partStep oldList pp f c part i arr :
  IdsOk c -> IdsOk (partStep oldList pp f c part i arr).
Proof.
  intros H. pose proof (IdsOk_resetParent c i H) as [_ _ Hr].
  destruct H as [A B C].
  destruct (samePart part pp i) eqn:E.
  - destruct (partStep_same oldList pp f c part i arr E) as (Ea & Ef & Ep & _).
    split.
    + intros k n. rewrite Ea. destruct (isConflicted f); auto.
      rewrite attachStatus_get.
      destruct (Dict.get (idOfPart arr i part) (acc c)) as [[g|q]|] eqn:G; auto.
      destruct (P.status q); auto.
      destruct (String.eqb _ k) eqn:K; auto.
      intros [= <-]. apply String.eqb_eq in K. subst k. apply (A _ _ G).
    + rewrite Ef. exact B.
    + intros p. rewrite Ep, Ef. rewrite fakePartsAcc_reset in Hr. apply Hr.
  - destruct (partStep_new oldList pp f c part i arr E) as (Ea & Ef & Ep & _).
    split.
    + intros k n. rewrite Ea, get_set.
      destruct (String.eqb _ k) eqn:K; auto.
      intros [= <-]. now apply String.eqb_eq in K.
    + intros k p. rewrite Ef, get_set.
      destruct (String.eqb _ k) eqn:K; auto.
      intros [= <-]. now apply String.eqb_eq in K.
    + intros p. rewrite Ep, Ef. intros [= <-]. apply get_set_same.
Qed.

Lemma IdsOk_emit c parent f :
  IdsOk c ->
  (parent = parentPartChange c \/ exists parts, parent = fileParent c parts) ->
  IdsOk (fst (emit c parent f)).
Proof.
  intros [A B C] Hp. split; simpl; auto.
  - intros k n. rewrite get_set. destruct (String.eqb _ k) eqn:K; auto.
    intros [= <-]. now apply String.eqb_eq in K.
  - intros p Hpar. destruct Hp as [->|[parts ->]]; auto.
    destruct (fileParent_cases c parts)
      as [E|[E|[(q & E & G)|(q & E & G & _)]]];
      rewrite E in Hpar; try discriminate; injection Hpar as <-; auto.
    now rewrite (B _ _ G).
Qed.

Lemma IdsOk_pass files oldList :
  (forall j, IdsOk (closureAt files oldList j))
  /\ IdsOk (fst (getFileListRun files oldList)).
Proof.
  apply getFileList_invariant.
  - intros; now apply IdsOk_partStep.
  - intros c f H. apply IdsOk_emit; auto.
  - intros c f parts _ _ H. cbv zeta. apply IdsOk_emit; auto.
    right. now exists parts.
  - apply IdsOk_initial.
Qed.

Lemma nth_error_lt {A : Type} (l : list A) i x :
  nth_error l i = Some x -> i < length l.
Proof. intros H. apply nth_error_Some. congruence. Qed.

Lemma partChangeOf_depth oldList f c part i arr :
  nth_error arr i = Some part ->
  length (P.parts (partChangeOf oldList f c part i arr)) = i.
Proof.
  intros H. simpl. apply firstn_length_le.
  apply nth_error_lt in H. lia.
Qed.

Lemma OpenedOk_partStep oldList pp f c part i arr :
  nth_error arr i = Some part ->
  OpenedOk oldList c -> OpenedOk oldList (partStep oldList pp f c part i arr).
Proof.
  intros Hi [A B].
  destruct (samePart part pp i) eqn:E.
  - destruct (partStep_same oldList pp f c part i arr E) as (Ea & Ef & _ & _).
    split.
    + intros k p. rewrite Ea. destruct (isConflicted f); auto.
      rewrite attachStatus_get.
      destruct (Dict.get (idOfPart arr i part) (acc c)) as [[g|q]|] eqn:G; auto.
      destruct (P.status q); auto.
      destruct (String.eqb _ k) eqn:K; auto.
      intros [= <-]. apply String.eqb_eq in K. subst k. apply (A _ _ G).
    + rewrite Ef. exact B.
  - destruct (partStep_new oldList pp f c part i arr E) as (Ea & Ef & _ & _).
    split.
    + intros k p. rewrite Ea, get_set.
      destruct (String.eqb _ k) eqn:K; auto.
      intros [= <-]. apply String.eqb_eq in K. subst k.
      now rewrite partChangeOf_depth.
    + intros k p. rewrite Ef, get_set.
      destruct (String.eqb _ k) eqn:K; auto.
      intros [= <-]. apply String.eqb_eq in K. subst k.
      now rewrite partChangeOf_depth.
Qed.

Lemma OpenedOk_emit oldList c parent f :
  OpenedOk oldList c -> OpenedOk oldList (fst (emit c parent f)).
Proof.
  intros [A B]. split; simpl; auto.
  intros k p. rewrite get_set. destruct (String.eqb _ k); [discriminate|auto].
Qed.

Lemma OpenedOk_pass files oldList :
  (forall j, OpenedOk oldList (closureAt files oldList j))
  /\ OpenedOk oldList (fst (getFileListRun files oldList)).
Proof.
  apply getFileList_invariant.
  - intros; now apply OpenedOk_partStep.
  - intros; now apply OpenedOk_emit.
  - intros; now apply OpenedOk_emit.
  - split; simpl; intros; discriminate.
Qed.

(** ** The indices of a table *)

Section DictIndices.
Context {V : Type} (g : V -> nat).

Lemma map_values_set_same (d : Dict.t V) k v v0 :
  Dict.get k d = Some v0 -> g v0 = g v ->
  map g (Dict.values (Dict.set k v d)) = map g (Dict.values d).
Proof.
  induction d as [|[k' v'] d IH]; simpl; [discriminate|].
  destruct (String.eqb k k'); simpl.
  - intros [= ->] ->. reflexivity.
  - intros H1 H2. now rewrite IH.
Qed.

Lemma NoDup_values_set_fresh (d : Dict.t V) k v :
  NoDup (map g (Dict.values d)) ->
  (forall x, In x (Dict.values d) -> g x <> g v) ->
  NoDup (map g (Dict.values (Dict.set k v d))).
Proof.
  induction d as [|[k' v'] d IH]; simpl; intros ND Hf.
  - constructor; [intros []|constructor].
  - inversion ND as [|a l Hnotin ND']; subst.
    destruct (String.eqb k k'); simpl.
    + constructor; auto.
      intros Hin. apply in_map_iff in Hin as (x & Hx & Hin).
      apply (Hf x); auto.
    + constructor.
      * intros Hin. apply in_map_iff in Hin as (x & Hx & Hin).
        apply In_values_set in Hin as [->|Hin].
        -- apply (Hf v'); auto.
        -- apply Hnotin. apply in_map_iff. eauto.
      * apply IH; auto.
Qed.

End DictIndices.

Lemma IndexOk_partStep oldList pp f c part i arr :
  IndexOk c -> IndexOk (partStep oldList pp f c part i arr).
Proof.
  intros [A B].
  destruct (samePart part pp i) eqn:E.
  - destruct (partStep_same oldList pp f c part i arr E) as (Ea & _ & _ & Ei).
    split; rewrite Ea, ?Ei; destruct (isConflicted f); auto;
      unfold attachStatus;
      destruct (Dict.get (idOfPart arr i part) (acc c)) as [[h|q]|] eqn:G; auto;
      destruct (P.status q); auto.
    + intros n Hn. apply In_values_set in Hn as [->|Hn]; auto.
      apply (A (Fake q)). eapply get_In; eauto.
    + rewrite (map_values_set_same node_index _ _ _ _ G); auto.
  - destruct (partStep_new oldList pp f c part i arr E) as (Ea & _ & _ & Ei).
    split; rewrite Ea, ?Ei.
    + intros n Hn. apply In_values_set in Hn as [->|Hn].
      * simpl. rewrite index_reset. lia.
      * specialize (A n Hn). lia.
    + apply NoDup_values_set_fresh; auto.
      intros x Hx. specialize (A x Hx). simpl. rewrite index_reset. lia.
Qed.

Lemma IndexOk_emit c parent f :
  IndexOk c -> IndexOk (fst (emit c parent f)).
Proof.
  intros [A B]. split; simpl.
  - intros n Hn. apply In_values_set in Hn as [->|Hn].
    + simpl. lia.
    + specialize (A n Hn). lia.
  - apply NoDup_values_set_fresh; auto.
    intros x Hx. specialize (A x Hx). simpl. lia.
Qed.

Lemma IndexOk_pass files oldList :
  (forall j, IndexOk (closureAt files oldList j))
  /\ IndexOk (fst (getFileListRun files oldList)).
Proof.
  apply getFileList_invariant.
  - intros; now apply IndexOk_partStep.
  - intros; now apply IndexOk_emit.
  - intros; now apply IndexOk_emit.
  - split; simpl; [intros n []|constructor].
Qed.

(** ** Comparing two passes over the same changes *)

Lemma bimp_refl b : bimp b b.
Proof. now intros H. Qed.

Lemma bimp_orb a a' b b' : bimp a a' -> bimp b b' -> bimp (a || b) (a' || b').
Proof.
  unfold bimp. intros Ha Hb H. apply orb_true_iff in H as [H|H];
    apply orb_true_iff; auto.
Qed.

Section DictRel.
Context {V : Type} (R : V -> V -> Prop).

Lemma dictRel_get (d' d : Dict.t V) k :
  dictRel R d' d -> optRel R (Dict.get k d') (Dict.get k d).
Proof.
  induction 1 as [|[k1 v1] [k2 v2] d' d [Hk Hv] _ IH]; simpl in *; auto.
  subst k2. destruct (String.eqb k k1); auto.
Qed.

Lemma dictRel_set (d' d : Dict.t V) k v' v :
  dictRel R d' d -> R v' v -> dictRel R (Dict.set k v' d') (Dict.set k v d).
Proof.
  intros H Hv. induction H as [|[k1 v1] [k2 v2] d' d [Hk Hv12] Hd IH]; simpl in *.
  - repeat constructor; auto.
  - subst k2. destruct (String.eqb k k1); constructor; auto.
Qed.

End DictRel.

Lemma forEachFrom_rel {A St : Type} (cb' cb : St -> A -> nat -> list A -> St)
    (arr : list A) (R : St -> St -> Prop) :
  (forall s' s x i, R s' s -> R (cb' s' x i arr) (cb s x i arr)) ->
  forall rest i s' s,
    R s' s -> R (forEachFrom cb' arr i rest s') (forEachFrom cb arr i rest s).
Proof.
  intros Hcb rest; induction rest as [|x rest IH]; intros i s' s H; simpl; auto.
Qed.

Lemma lessShownP_setStatus q' q s :
  lessShownP q' q -> lessShownP (setStatus q' s) (setStatus q s).
Proof.
  intros (A & B & C & D & E & G & H & I). repeat split; simpl; auto.
Qed.

Lemma attachStatus_less a' a id s :
  dictRel lessShown a' a ->
  dictRel lessShown (attachStatus a' id s) (attachStatus a id s).
Proof.
  intros H. unfold attachStatus.
  pose proof (dictRel_get lessShown a' a id H) as G.
  destruct (Dict.get id a') as [[g'|q']|], (Dict.get id a) as [[g|q]|];
    simpl in G; try contradiction; auto.
  assert (S : P.status q' = P.status q) by apply G. rewrite S.
  destruct (P.status q); auto.
  apply dictRel_set; auto. simpl. now apply lessShownP_setStatus.
Qed.

Lemma resetParent_less c' c i :
  lessShownC c' c -> lessShownC (resetParent c' i) (resetParent c i).
Proof.
  intros [A B C D]. unfold resetParent. destruct (i <=? 1); split; simpl; auto.
Qed.

Lemma dictRel_read {V : Type} (R : V -> V -> Prop) (d' d : Dict.t V) k :
  dictRel R d' d -> propRel R (Dict.read k d') (Dict.read k d).
Proof.
  intros H. pose proof (dictRel_get R d' d k H) as G. unfold Dict.read.
  destruct (Dict.get k d'), (Dict.get k d); simpl in G; try contradiction; auto.
  destruct (Dict.inherited k); exact I.
Qed.

Lemma findParent_less c' c i parentId :
  lessShownC c' c ->
  propRel lessShownP (findParent c' i parentId) (findParent c i parentId).
Proof.
  intros [A B C D]. unfold findParent.
  pose proof (dictRel_read lessShownP _ _ parentId B) as G.
  destruct (parentPartChange c') as [q'| |], (parentPartChange c) as [q| |];
    simpl in C; try contradiction; auto.
  - assert (I : P.id q' = P.id q) by apply C. rewrite I.
    destruct ((1 <? i) && negb (String.eqb (P.id q) parentId)); auto.
  - destruct (1 <? i); auto.
Qed.

Lemma noParentOrOpened_less parent' parent :
  propRel lessShownP parent' parent ->
  bimp (noParentOrOpened parent') (noParentOrOpened parent).
Proof.
  destruct parent' as [q'| |], parent as [q| |]; simpl;
    try contradiction; intros G; [apply G | |]; apply bimp_refl.
Qed.

Lemma parentOpened_less parent' parent :
  propRel lessShownP parent' parent ->
  bimp (parentOpened parent') (parentOpened parent).
Proof.
  destruct parent' as [q'| |], parent as [q| |]; simpl;
    try contradiction; intros G; [apply G | |]; apply bimp_refl.
Qed.

Lemma partChangeOf_less old' old f c' c part i arr :
  opensLess old' old -> lessShownC c' c ->
  lessShownP (partChangeOf old' f c' part i arr) (partChangeOf old f c part i arr).
Proof.
  intros Ho Hc. pose proof (findParent_less c' c i (join (firstn i arr)) Hc) as G.
  unfold partChangeOf. repeat split; simpl; auto; try apply Hc; try apply Ho.
  apply bimp_orb; [apply Ho|]. now apply noParentOrOpened_less.
Qed.

Lemma partStep_less old' old pp f c' c part i arr :
  opensLess old' old -> lessShownC c' c ->
  lessShownC (partStep old' pp f c' part i arr) (partStep old pp f c part i arr).
Proof.
  intros Ho Hc. pose proof (resetParent_less c' c i Hc) as Hr.
  destruct (samePart part pp i) eqn:E.
  - destruct (partStep_same old' pp f c' part i arr E) as (A' & B' & C' & D').
    destruct (partStep_same old pp f c part i arr E) as (A & B & C & D).
    split.
    + rewrite A', A. destruct (isConflicted f); [apply attachStatus_less|];
        apply Hc.
    + rewrite B', B. apply Hc.
    + rewrite C', C. apply Hr.
    + rewrite D', D. apply Hc.
  - destruct (partStep_new old' pp f c' part i arr E) as (A' & B' & C' & D').
    destruct (partStep_new old pp f c part i arr E) as (A & B & C & D).
    pose proof (partChangeOf_less old' old f _ _ part i arr Ho Hr) as Hp.
    split.
    + rewrite A', A. apply dictRel_set; [apply Hc | exact Hp].
    + rewrite B', B. apply dictRel_set; [apply Hc | exact Hp].
    + rewrite C', C. exact Hp.
    + rewrite D', D. f_equal. apply Hc.
Qed.

Lemma fileParent_less c' c parts :
  lessShownC c' c ->
  propRel lessShownP (fileParent c' parts) (fileParent c parts).
Proof.
  intros [A B C D]. unfold fileParent.
  pose proof (dictRel_read lessShownP _ _ (join parts) B) as G.
  destruct (parentPartChange c') as [q'| |], (parentPartChange c) as [q| |];
    simpl in C; try contradiction; auto.
  - assert (I : P.id q' = P.id q) by apply C. rewrite I.
    destruct ((1 <? length parts) && negb (String.eqb (P.id q) (join parts)));
      auto.
    destruct (length parts <=? 1); simpl; auto.
  - destruct (1 <? length parts); auto.
    destruct (length parts <=? 1); simpl; auto.
Qed.

Lemma emit_less c' c parent' parent f b' b :
  lessShownC c' c -> propRel lessShownP parent' parent -> bimp b' b ->
  lessShownC (fst (emit c' parent' (setShown f b')))
             (fst (emit c parent (setShown f b)))
  /\ lessShownF (snd (emit c' parent' (setShown f b')))
                (snd (emit c parent (setShown f b))).
Proof.
  intros [A B C D] Hp Hb.
  assert (HF : lessShownF (setIndex (setShown f b') (index c'))
                          (setIndex (setShown f b) (index c))).
  { rewrite D. repeat split; simpl; auto. }
  split; [split|]; simpl; auto; try lia.
  apply dictRel_set; auto.
Qed.

Lemma fileStep_less files old' old c' c f i :
  opensLess old' old -> lessShownC c' c ->
  lessShownC (fst (fileStep files old' c' f i)) (fst (fileStep files old c f i))
  /\ lessShownF (snd (fileStep files old' c' f i)) (snd (fileStep files old c f i)).
Proof.
  intros Ho Hc. unfold fileStep.
  destruct (F.parts f) as [parts|];
    [|apply emit_less; [auto | apply Hc | apply bimp_refl]].
  destruct (F.sketchFile f);
    [|apply emit_less; [auto | apply Hc | apply bimp_refl]].
  destruct (isNewSketchFile parts (F.path f));
    [apply emit_less; [auto | apply Hc | apply bimp_refl]|].
  assert (Hl : lessShownC
            (forEach (partStep old' (previousPartsAt files i) f) parts c')
            (forEach (partStep old (previousPartsAt files i) f) parts c)).
  { unfold forEach. apply forEachFrom_rel; auto.
    intros; now apply partStep_less. }
  pose proof (fileParent_less _ _ parts Hl) as Hp.
  apply emit_less; auto.
  apply bimp_orb; [|apply bimp_refl]. now apply parentOpened_less.
Qed.

Lemma reduceFrom_less files old' old rest :
  opensLess old' old ->
  forall i c' c, lessShownC c' c ->
    lessShownC (fst (reduceFrom files old' i rest c'))
               (fst (reduceFrom files old i rest c)).
Proof.
  intros Ho. induction rest as [|f rest IH]; intros i c' c Hc; simpl; auto.
  destruct (fileStep_less files old' old c' c f i Ho Hc) as [H1 _].
  destruct (fileStep files old' c' f i) as [c1' f1'].
  destruct (fileStep files old c f i) as [c1 f1]. simpl in H1.
  specialize (IH (S i) c1' c1 H1).
  destruct (reduceFrom files old' (S i) rest c1') as [c2' o'].
  destruct (reduceFrom files old (S i) rest c1) as [c2 o]. exact IH.
Qed.

(** A pass whose old list opens less yields the same nodes under the same
    keys, with [opened] and [shown] at most lowered. *)
Lemma getFileList_less files old' old :
  opensLess old' old ->
  dictRel lessShown (getFileList files old') (getFileList files old).
Proof.
  intros Ho. apply reduceFrom_less; auto.
  split; simpl; auto; constructor.
Qed.

(** ** Passes that agree *)

(** Two old lists that yield the same [opened] flags yield the same pass. *)
Lemma partStep_oldList old' old pp f c part i arr :
  (forall id i, openedOf old' id i = openedOf old id i) ->
  partStep old' pp f c part i arr = partStep old pp f c part i arr.
Proof.
  intros H. unfold partStep, partChangeOf. now rewrite !H.
Qed.

Lemma fileStep_oldList files old' old c f i :
  (forall id i, openedOf old' id i = openedOf old id i) ->
  fileStep files old' c f i = fileStep files old c f i.
Proof.
  intros H. unfold fileStep.
  assert (E : forall parts,
             forEach (partStep old' (previousPartsAt files i) f) parts c
             = forEach (partStep old (previousPartsAt files i) f) parts c).
  { intros parts. unfold forEach.
    apply (forEachFrom_rel _ _ parts eq); auto.
    intros s' s x j ->. now apply partStep_oldList. }
  destruct (F.parts f) as [parts|]; auto. now rewrite E.
Qed.

Lemma getFileListRun_oldList files old' old :
  (forall id i, openedOf old' id i = openedOf old id i) ->
  getFileListRun files old' = getFileListRun files old.
Proof.
  intros H. unfold getFileListRun. generalize 0 initial.
  generalize files at 2 4.
  intros rest; induction rest as [|f rest IH]; intros i c; simpl; auto.
  rewrite (fileStep_oldList files old' old c f i H).
  destruct (fileStep files old c f i) as [c1 f1]. now rewrite IH.
Qed.

(** The pass reads neither [shown] nor [index] of the records it is given. *)
Lemma fileStep_written files oldList c f f' i :
  written f f' -> fileStep files oldList c f' i = fileStep files oldList c f i.
Proof.
  intros (b & n & ->). unfold fileStep. simpl.
  destruct (F.parts f) as [parts|]; [|reflexivity].
  destruct (F.sketchFile f); [|reflexivity].
  destruct (isNewSketchFile parts (F.path f)); reflexivity.
Qed.

Lemma previousPartsAt_written files files' i :
  Forall2 written files files' ->
  previousPartsAt files' i = previousPartsAt files i.
Proof.
  intros H. destruct i as [|j]; simpl; auto.
  revert j. induction H as [|f f' l l' (b & n & ->) _ IH]; intros [|j]; simpl; auto.
Qed.

Lemma fileStep_files files files' oldList c f i :
  previousPartsAt files' i = previousPartsAt files i ->
  fileStep files' oldList c f i = fileStep files oldList c f i.
Proof. intros H. unfold fileStep. now rewrite H. Qed.

Lemma getFileListRun_written files files' oldList :
  Forall2 written files files' ->
  getFileListRun files' oldList = getFileListRun files oldList.
Proof.
  intros H. unfold getFileListRun. generalize 0 initial.
  pose proof H as Hall. revert Hall.
  generalize files at 1 3. generalize files' at 1 3.
  intros rest' rest Hr. induction Hr as [|f f' l l' Hf _ IH]; intros i c; simpl; auto.
  rewrite (fileStep_written files' oldList c f f' i Hf).
  rewrite (fileStep_files files files' oldList c f i
             (previousPartsAt_written files files' i H)).
  destruct (fileStep files oldList c f i) as [c1 f1]. now rewrite IH.
Qed.

(** ** The pass and its inputs *)

(** C7, counterexample: the pass over the single plain change "readme.md",
    whose [shown] is [false] before the call, leaves it with [shown = true]. *)
Lemma inputs_untouched_as_specified_fails : ~ inputs_untouched_as_specified.
Proof.
  intros H. specialize (H [plainFile "readme.md"] None).
  vm_compute in H. discriminate H.
Qed.

(** C7 (amended): [getFileList] writes to the change records of its input:
    after the call every record of the array is the record it was with the
    two fields [shown] and [index] assigned (its id, path, status, parts and
    sketch file are as before), and the file nodes of the returned table are
    these written records.  The previous table is only read, and only for the
    [opened] flags of its group nodes: two previous tables that yield the
    same flags yield the same table and the same written records. *)
Theorem getFileList_writes_shown_and_index :
  forall files oldList,
    Forall2 (fun f f' => exists b n, f' = setIndex (setShown f b) n)
            files (filesAfter files oldList)
    /\ (forall k g, Dict.get k (getFileList files oldList) = Some (File g) ->
                    In g (filesAfter files oldList))
    /\ (forall oldList',
          (forall id i, openedOf oldList' id i = openedOf oldList id i) ->
          getFileList files oldList' = getFileList files oldList
          /\ filesAfter files oldList' = filesAfter files oldList).
Proof.
  intros files oldList. split; [|split].
  - apply filesAfter_written.
  - apply getFileList_File_In.
  - intros oldList' H. unfold getFileList, filesAfter.
    now rewrite (getFileListRun_oldList files oldList' oldList H).
Qed.

Lemma getFileList_writes_shown_and_index_witness :
  Dict.get "readme.md"%string (getFileList [plainFile "readme.md"] None)
    = Some (File (setIndex (setShown (plainFile "readme.md") true) 0))
  /\ In (setIndex (setShown (plainFile "readme.md") true) 0)
        (filesAfter [plainFile "readme.md"] None).
Proof.
  split; [reflexivity|].
  destruct (getFileList_writes_shown_and_index [plainFile "readme.md"] None)
    as (_ & H & _).
  exact (H "readme.md"%string _ eq_refl).
Defined.

(** ** Collapsing a group and opening it again *)

Lemma length_insertByIndex a l : length (insertByIndex a l) = S (length l).
Proof.
  induction l as [|b l IH]; simpl; auto.
  destruct (node_index b <? node_index a); simpl; auto.
Qed.

Lemma length_sortByIndex l : length (sortByIndex l) = length l.
Proof.
  induction l as [|a l IH]; simpl; auto.
  rewrite length_insertByIndex. now rewrite IH.
Qed.

Lemma lessShown_shown n' n :
  lessShown n' n -> node_shown n' = true -> node_shown n = true.
Proof.
  destruct n' as [f'|p'], n as [f|p]; simpl; try contradiction.
  - intros (H & _). exact H.
  - intros (_ & H & _). exact H.
Qed.

Lemma lessShown_count table' table :
  dictRel lessShown table' table ->
  length (getOpenedFilesList table') <= length (getOpenedFilesList table).
Proof.
  unfold getOpenedFilesList. rewrite !length_sortByIndex.
  induction 1 as [|[k' n'] [k n] d' d [_ Hn] _ IH]; simpl in *; auto.
  pose proof (lessShown_shown n' n Hn) as Hs.
  destruct (node_shown n'); [rewrite Hs by reflexivity; simpl; lia|].
  destruct (node_shown n); simpl; lia.
Qed.

Lemma opensLess_close table g q :
  opensLess (Some (Dict.set g (Fake (setOpened q false)) table)) (Some table).
Proof.
  intros id i. unfold openedOf. rewrite get_set.
  destruct (String.eqb g id); [discriminate | apply bimp_refl].
Qed.

(** C8, counterexample: in the component built over the layer change of
    scenario B the page group is present and collapsed; closing it leaves the
    two visible rows. *)
Lemma collapse_as_specified_fails : ~ collapse_as_specified.
Proof.
  intros H.
  destruct (H scenarioB_component "doc.sketch/page1"%string
              (scenarioB_page layerChange) eq_refl eq_refl)
    as (collapsed & E & L & _).
  vm_compute in E. injection E as <-. vm_compute in L. lia.
Qed.

(** Nor does closing an opened group shorten the list when the groups below
    it are opened: with every group of scenario B opened, closing the document
    group leaves all four rows. *)
Example collapse_of_opened_group_keeps_rows :
  inSync scenarioB_expanded
  /\ option_map (fun n => match n with Fake q => P.opened q | File _ => false end)
       (Dict.get "doc.sketch"%string (files (state scenarioB_expanded))) = Some true
  /\ length (visibleFileList (state scenarioB_expanded)) = 4
  /\ match onOpenChanged scenarioB_expanded "doc.sketch"%string false with
     | Returned collapsed => length (visibleFileList (state collapsed)) = 4
     | TypeError => False
     end.
Proof. repeat split. Qed.

(** C8 (amended): for a component in sync with its change list and a group [g]
    of its table, closing [g] returns normally and never lengthens the visible
    list; if [g] was opened, opening it again returns normally and restores
    the state there was: the same table and the same visible list, row for
    row. *)
Theorem collapse_never_lengthens_and_reopen_restores :
  forall this g q,
    inSync this ->
    Dict.get g (files (state this)) = Some (Fake q) ->
    exists collapsed,
      onOpenChanged this g false = Returned collapsed
      /\ length (visibleFileList (state collapsed))
         <= length (visibleFileList (state this))
      /\ (P.opened q = true ->
          exists reopened,
            onOpenChanged collapsed g true = Returned reopened
            /\ state reopened = state this).
Proof.
  intros this g q Hsync Hg.
  set (fs := workingDirectoryFiles (props this)) in *.
  set (T0 := files (state this)) in *.
  set (T0' := Dict.set g (Fake (setOpened q false)) T0).
  set (T1 := getFileList fs (Some T0')).
  assert (HT : getFileList fs (Some T0) = T0).
  { unfold inSync in Hsync. fold fs T0 in Hsync. unfold T0 at 2.
    rewrite Hsync. reflexivity. }
  assert (Hless : dictRel lessShown T1 T0).
  { rewrite <- HT. apply getFileList_less, opensLess_close. }
  exists {| props := withFiles (props this) (filesAfter fs (Some T0'));
            state := stateOf T1 |}.
  split; [unfold onOpenChanged, Dict.read; fold T0; rewrite Hg; reflexivity|].
  split.
  { unfold inSync in Hsync. fold fs T0 in Hsync. rewrite Hsync, HT. simpl.
    now apply lessShown_count. }
  intros Hopen.
  pose proof (dictRel_get lessShown T1 T0 g Hless) as Gg. rewrite Hg in Gg.
  destruct (Dict.get g T1) as [[h|q1]|] eqn:Hg1; simpl in Gg; try contradiction.
  set (T1' := Dict.set g (Fake (setOpened q1 true)) T1).
  set (fs1 := filesAfter fs (Some T0')).
  exists {| props := withFiles (withFiles (props this) fs1)
                       (filesAfter fs1 (Some T1'));
            state := stateOf (getFileList fs1 (Some T1')) |}.
  split; [unfold onOpenChanged, Dict.read; simpl; rewrite Hg1; reflexivity|].
  simpl. unfold inSync in Hsync. fold fs T0 in Hsync. rewrite Hsync, HT.
  f_equal. unfold getFileList.
  rewrite (getFileListRun_written fs fs1 (Some T1') (filesAfter_written fs _)).
  rewrite (getFileListRun_oldList fs (Some T1') (Some T0)); [exact HT|].
  intros id i. unfold openedOf, T1'. rewrite get_set.
  destruct (String.eqb g id) eqn:E.
  - apply String.eqb_eq in E. subst id. rewrite Hg. simpl. now rewrite Hopen.
  - pose proof (dictRel_get lessShown T1 T0 id Hless) as G.
    destruct (Dict.get id T1) as [[h1|p1]|] eqn:G1,
             (Dict.get id T0) as [[h0|p0]|] eqn:G0;
      simpl in G; try contradiction; auto.
    destruct (OpenedOk_pass fs (Some T0')) as [_ [Hop _]].
    specialize (Hop id p1 G1). rewrite Hop. unfold openedOf, T0'.
    rewrite get_set, E, G0. reflexivity.
Qed.

Lemma collapse_never_lengthens_and_reopen_restores_witness :
  inSync scenarioB_expanded
  /\ exists collapsed,
      onOpenChanged scenarioB_expanded "doc.sketch/page1/layer1"%string false
        = Returned collapsed
      /\ length (visibleFileList (state collapsed))
         <= length (visibleFileList (state scenarioB_expanded))
      /\ (true = true ->
          exists reopened,
            onOpenChanged collapsed "doc.sketch/page1/layer1"%string true
              = Returned reopened
            /\ state reopened = state scenarioB_expanded).
Proof.
  split; [reflexivity|].
  exact (collapse_never_lengthens_and_reopen_restores scenarioB_expanded
           "doc.sketch/page1/layer1"%string
           (P.mk true true 2 LayerFile "doc.sketch/page1/layer1"
                 ["doc.sketch"; "page1"]%string "layer1" None)
           eq_refl eq_refl).
Defined.

(** ** Group ids, depth and the invariants of the tree *)

(** *** Group ids and depth *)

Lemma hasSlash_append a b : hasSlash (a ++ b) = hasSlash a || hasSlash b.
Proof.
  induction a as [|x a IH]; simpl; auto. now rewrite IH, orb_assoc.
Qed.

Lemma append_nonempty a b : a <> ""%string -> (a ++ b)%string <> ""%string.
Proof. destruct a; simpl; [congruence | discriminate]. Qed.

Lemma join_cons_nonempty s l : s <> ""%string -> join (s :: l) <> ""%string.
Proof.
  intros H. unfold join. simpl. destruct l; auto. now apply append_nonempty.
Qed.

Lemma truthy_nonempty s : s <> ""%string -> truthy s = true.
Proof.
  intros H. unfold truthy. destruct (String.eqb s "") eqn:E; auto.
  apply String.eqb_eq in E. contradiction.
Qed.

Lemma idOfPart_root arr part : idOfPart arr 0 part = part.
Proof. reflexivity. Qed.

Lemma idOfPart_nested s rest i part :
  s <> ""%string ->
  idOfPart (s :: rest) (S i) part
  = (join (firstn (S i) (s :: rest)) ++ "/" ++ part)%string.
Proof.
  intros H. unfold idOfPart. cbv zeta.
  rewrite truthy_nonempty; auto.
  rewrite firstn_cons. now apply join_cons_nonempty.
Qed.

Lemma idOfPart_depth arr i part :
  Forall segmentOk arr -> nth_error arr i = Some part ->
  idOfPart arr i part <> ""%string
  /\ (i =? 0) = negb (hasSlash (idOfPart arr i part)).
Proof.
  intros Hok Hi.
  assert (Hp : segmentOk part).
  { rewrite Forall_forall in Hok. apply Hok. eapply nth_error_In; eauto. }
  destruct i as [|i].
  - rewrite idOfPart_root. destruct Hp as [H1 H2]. rewrite H2. auto.
  - destruct arr as [|s rest]; [discriminate|].
    assert (Hs : segmentOk s) by (inversion Hok; auto).
    rewrite idOfPart_nested by apply Hs. split.
    + apply append_nonempty. rewrite firstn_cons.
      apply join_cons_nonempty, Hs.
    + rewrite !hasSlash_append. simpl. now rewrite orb_true_r.
Qed.

Lemma openedOf_depth oldList k d d' :
  (d =? 0) = (d' =? 0) -> openedOf oldList k d = openedOf oldList k d'.
Proof.
  intros H. unfold openedOf. destruct oldList as [old|]; auto.
  destruct (Dict.get k old) as [[g|q]|]; auto.
Qed.

(** Under well-formed segments every group synthesized under an id has the
    same [opened] flag. *)
Lemma opened_expandedOf oldList c k q :
  OpenedOk oldList c -> DepthOk c ->
  Dict.get k (fakePartsAcc c) = Some q ->
  P.opened q = expandedOf oldList k.
Proof.
  intros [_ Ho] Hd H. rewrite (Ho k q H). unfold expandedOf.
  apply openedOf_depth. destruct (depth_fake c Hd k q H) as [_ ->].
  now destruct (hasSlash k).
Qed.

Lemma opened_expandedOf_acc oldList c k q :
  OpenedOk oldList c -> DepthOk c ->
  Dict.get k (acc c) = Some (Fake q) ->
  P.opened q = expandedOf oldList k.
Proof.
  intros [Ho _] Hd H. rewrite (Ho k q H). unfold expandedOf.
  apply openedOf_depth. rewrite (depth_acc c Hd k q H).
  now destruct (hasSlash k).
Qed.

Lemma get_set_keeps {V : Type} (d : Dict.t V) k k' v :
  Dict.get k' d <> None -> Dict.get k' (Dict.set k v d) <> None.
Proof.
  rewrite get_set. destruct (String.eqb k k'); [discriminate | auto].
Qed.

Lemma DepthOk_partStep oldList pp f c part i arr :
  Forall segmentOk arr -> nth_error arr i = Some part ->
  DepthOk c -> DepthOk (partStep oldList pp f c part i arr).
Proof.
  intros Hok Hi [Hf Ha].
  destruct (samePart part pp i) eqn:E.
  - destruct (partStep_same oldList pp f c part i arr E) as (Ea & Ef & _ & _).
    split.
    + rewrite Ef. exact Hf.
    + intros k q. rewrite Ea. destruct (isConflicted f); [|apply Ha].
      rewrite attachStatus_get.
      destruct (Dict.get (idOfPart arr i part) (acc c)) as [[g|q0]|] eqn:G;
        try apply Ha.
      destruct (P.status q0); try apply Ha.
      destruct (String.eqb _ k) eqn:K; [|apply Ha].
      intros [= <-]. apply String.eqb_eq in K. subst k. apply (Ha _ q0 G).
  - destruct (partStep_new oldList pp f c part i arr E) as (Ea & Ef & _ & _).
    split.
    + intros k q. rewrite Ef, get_set.
      destruct (String.eqb _ k) eqn:K; [|apply Hf].
      intros [= <-]. apply String.eqb_eq in K. subst k.
      rewrite partChangeOf_depth by exact Hi.
      now apply idOfPart_depth.
    + intros k q. rewrite Ea, get_set.
      destruct (String.eqb _ k) eqn:K; [|apply Ha].
      intros [= <-]. apply String.eqb_eq in K. subst k.
      rewrite partChangeOf_depth by exact Hi.
      now apply idOfPart_depth.
Qed.

Lemma DepthOk_emit c parent f : DepthOk c -> DepthOk (fst (emit c parent f)).
Proof.
  intros [Hf Ha]. split; simpl; auto.
  intros k q. rewrite get_set. destruct (String.eqb _ k); [discriminate|apply Ha].
Qed.

(** *** Plain changes and part changes *)

Lemma plain_not_part f parts : plainChange f -> partChange f parts -> False.
Proof.
  unfold plainChange, partChange. intros H (Hp & Hs & Hn). rewrite Hp in H.
  destruct H; congruence.
Qed.

Lemma partChange_written f b n parts :
  partChange (setIndex (setShown f b) n) parts -> partChange f parts.
Proof. exact (fun H => H). Qed.

Lemma plainChange_written f b n :
  plainChange (setIndex (setShown f b) n) -> plainChange f.
Proof. exact (fun H => H). Qed.

Lemma TreeOk_partStep oldList pp f c part i arr :
  Forall segmentOk arr -> nth_error arr i = Some part ->
  TreeOk oldList c -> TreeOk oldList (partStep oldList pp f c part i arr).
Proof.
  intros Hok Hi (H1 & H2 & H3). refine (conj _ (conj _ _)).
  - now apply IdsOk_partStep.
  - now apply OpenedOk_partStep.
  - now apply DepthOk_partStep.
Qed.

Lemma TreeOk_forEach oldList pp f c parts :
  Forall segmentOk parts ->
  TreeOk oldList c -> TreeOk oldList (forEach (partStep oldList pp f) parts c).
Proof.
  intros Hok. apply forEach_inv. intros s x i Hi. now apply TreeOk_partStep.
Qed.

Lemma TreeOk_fileStep files oldList c f i :
  partsOk f -> TreeOk oldList c ->
  TreeOk oldList (fst (fileStep files oldList c f i)).
Proof.
  intros Hok Hc. unfold fileStep, partsOk in *.
  assert (Plain : plainChange f ->
            TreeOk oldList (fst (emit c (parentPartChange c) (setShown f true)))).
  { intros Hpl. destruct Hc as (H1 & H2 & H3).
    refine (conj _ (conj _ _)).
    - apply IdsOk_emit; auto.
    - now apply OpenedOk_emit.
    - now apply DepthOk_emit. }
  destruct (F.parts f) as [parts|] eqn:Hp;
    [|apply Plain; unfold plainChange; now rewrite Hp].
  destruct (F.sketchFile f) eqn:Hs;
    [|apply Plain; unfold plainChange; rewrite Hp; now left].
  destruct (isNewSketchFile parts (F.path f)) eqn:Hn;
    [apply Plain; unfold plainChange; rewrite Hp; now right|].
  pose proof (TreeOk_forEach oldList (previousPartsAt files i) f c parts Hok Hc)
    as (H1 & H2 & H3).
  refine (conj _ (conj _ _)).
  - apply IdsOk_emit; auto. right. now exists parts.
  - now apply OpenedOk_emit.
  - now apply DepthOk_emit.
Qed.

Lemma TreeOk_pass files oldList :
  Forall partsOk files -> TreeOk oldList (fst (getFileListRun files oldList)).
Proof.
  intros Hok. unfold getFileListRun.
  assert (H0 : TreeOk oldList initial).
  { refine (conj _ (conj _ _)); split; simpl; intros; discriminate. }
  revert H0. generalize 0 initial. revert Hok. generalize files at 1 3.
  intros rest Hok. induction Hok as [|f rest Hf _ IH]; intros i c Hc; simpl; auto.
  pose proof (TreeOk_fileStep files oldList c f i Hf Hc) as H1.
  destruct (fileStep files oldList c f i) as [c1 f1]. simpl in H1.
  specialize (IH (S i) c1 H1).
  destruct (reduceFrom files oldList (S i) rest c1). exact IH.
Qed.

(** ** The visible list and the enumeration order of the table *)

(** [Object.values] enumerates keys that look like array indices before the
    others, whatever the insertion order.  The visible list is blind to that:
    the indices of a returned table are pairwise distinct, and the sort then
    yields the same list from every enumeration of the same nodes. *)

Ltac ltb_cases :=
  repeat match goal with
         | |- context [?a <? ?b] => destruct (Nat.ltb_spec a b); simpl
         end.

Lemma insertByIndex_comm a b l :
  node_index a <> node_index b ->
  insertByIndex a (insertByIndex b l) = insertByIndex b (insertByIndex a l).
Proof.
  intros N. induction l as [|x l IH]; simpl; ltb_cases;
    try lia; try rewrite IH; reflexivity.
Qed.

Lemma sortByIndex_Permutation l l' :
  Permutation l l' -> NoDup (map node_index l) ->
  sortByIndex l = sortByIndex l'.
Proof.
  induction 1 as [|x l l' _ IH|x y l|l l' l'' H1 IH1 H2 IH2]; intros ND; simpl.
  - reflexivity.
  - inversion ND; subst. now rewrite IH.
  - apply insertByIndex_comm. simpl in ND. inversion ND as [|? ? Hn _]; subst.
    intros E. apply Hn. left. now symmetry.
  - rewrite IH1 by exact ND. apply IH2.
    eapply Permutation_NoDup; [|exact ND]. now apply Permutation_map.
Qed.

Lemma NoDup_map_filter {A B : Type} (g : A -> B) (p : A -> bool) l :
  NoDup (map g l) -> NoDup (map g (filter p l)).
Proof.
  induction l as [|a l IH]; simpl; intros ND; [constructor|].
  inversion ND as [|? ? Hn ND']; subst.
  destruct (p a); simpl; auto. constructor; auto.
  intros Hin. apply Hn. apply in_map_iff in Hin as (x & Hx & Hin).
  apply filter_In in Hin as [Hin _]. apply in_map_iff. eauto.
Qed.

Lemma getOpenedFilesList_enumeration table table' :
  NoDup (indices table) ->
  Permutation (Dict.values table) (Dict.values table') ->
  getOpenedFilesList table = getOpenedFilesList table'.
Proof.
  intros ND HP. unfold getOpenedFilesList. apply sortByIndex_Permutation.
  - clear ND. induction HP; simpl; auto.
    + destruct (node_shown x); auto.
    + destruct (node_shown x), (node_shown y); auto. apply perm_swap.
    + eapply perm_trans; eauto.
  - now apply NoDup_map_filter.
Qed.

(** The indices of scenario B: four nodes constructed, four indices. *)
Example scenarioB_indices :
  indices (getFileList [layerChange] None) = [0; 1; 2; 3]
  /\ constructedCount [layerChange] None = 4.
Proof. split; reflexivity. Qed.

(** ** A pass over the table it has produced *)

Lemma KeysOk_pass files oldList : KeysOk (fst (getFileListRun files oldList)).
Proof.
  apply getFileList_invariant; unfold KeysOk.
  - intros pp f c part i arr _ H id.
    destruct (samePart part pp i) eqn:E.
    + destruct (partStep_same oldList pp f c part i arr E) as (-> & -> & _).
      intros Hf. specialize (H id Hf). destruct (isConflicted f); auto.
      rewrite attachStatus_get.
      destruct (Dict.get (idOfPart arr i part) (acc c)) as [[g|q]|]; auto.
      destruct (P.status q); auto.
      destruct (String.eqb _ id); [discriminate | auto].
    + destruct (partStep_new oldList pp f c part i arr E) as (-> & -> & _).
      rewrite !get_set. destruct (String.eqb _ id); [discriminate | auto].
  - intros c f H id Hf. simpl in *. apply get_set_keeps; auto.
  - cbv zeta. intros c f parts _ _ H id Hf. simpl in *.
    apply get_set_keeps; auto.
  - simpl. auto.
Qed.

(** The keys of [fakePartsAcc] are never removed. *)
Lemma partStep_fake_keeps oldList pp f c part i arr id :
  Dict.get id (fakePartsAcc c) <> None ->
  Dict.get id (fakePartsAcc (partStep oldList pp f c part i arr)) <> None.
Proof.
  destruct (samePart part pp i) eqn:E.
  - destruct (partStep_same oldList pp f c part i arr E) as (_ & -> & _). auto.
  - destruct (partStep_new oldList pp f c part i arr E) as (_ & -> & _).
    apply get_set_keeps.
Qed.

Lemma forEachFrom_fake_keeps oldList pp f arr id rest : forall i s,
  Dict.get id (fakePartsAcc s) <> None ->
  Dict.get id (fakePartsAcc (forEachFrom (partStep oldList pp f) arr i rest s))
    <> None.
Proof.
  induction rest as [|x rest IH]; intros i s H; simpl; auto.
  apply IH. now apply partStep_fake_keeps.
Qed.

Lemma fileStep_fake files oldList c f i :
  fakePartsAcc (fst (fileStep files oldList c f i)) = fakePartsAcc c
  \/ exists parts,
       F.parts f = Some parts
       /\ fakePartsAcc (fst (fileStep files oldList c f i))
          = fakePartsAcc (forEach (partStep oldList (previousPartsAt files i) f)
                                  parts c).
Proof.
  destruct (fileStep_cases files oldList c f i) as [E|(parts & Hp & _ & _ & E)];
    cbv zeta in E; rewrite E; simpl; eauto.
Qed.

Lemma fileStep_fake_keeps files oldList c f i id :
  Dict.get id (fakePartsAcc c) <> None ->
  Dict.get id (fakePartsAcc (fst (fileStep files oldList c f i))) <> None.
Proof.
  intros H. destruct (fileStep_fake files oldList c f i) as [->|(parts & _ & ->)];
    auto.
  now apply forEachFrom_fake_keeps.
Qed.

Lemma reduceFrom_fake_keeps files oldList id rest : forall i c,
  Dict.get id (fakePartsAcc c) <> None ->
  Dict.get id (fakePartsAcc (fst (reduceFrom files oldList i rest c))) <> None.
Proof.
  intros i c H.
  apply (reduceFrom_inv files oldList
           (fun c => Dict.get id (fakePartsAcc c) <> None)); auto.
  intros c' f j. apply fileStep_fake_keeps.
Qed.

(** Two passes agree as soon as their old lists agree on the groups that are
    synthesized. *)
Lemma partStep_agree old' old pp f c part i arr :
  (samePart part pp i = false ->
   openedOf old' (idOfPart arr i part) i = openedOf old (idOfPart arr i part) i) ->
  partStep old' pp f c part i arr = partStep old pp f c part i arr.
Proof.
  intros H. unfold partStep. destruct (samePart part pp i); auto.
  unfold partChangeOf. now rewrite H.
Qed.

Lemma forEachFrom_agree old' old pp f arr :
  Forall segmentOk arr ->
  forall rest i s,
    (forall j x, nth_error rest j = Some x -> nth_error arr (i + j) = Some x) ->
    agreeOn (fakePartsAcc (forEachFrom (partStep old pp f) arr i rest s)) old' old ->
    forEachFrom (partStep old' pp f) arr i rest s
    = forEachFrom (partStep old pp f) arr i rest s.
Proof.
  intros Hok rest. induction rest as [|x rest IH]; intros i s Hsuf Hag; simpl; auto.
  assert (Hx : nth_error arr i = Some x).
  { specialize (Hsuf 0 x eq_refl). now rewrite Nat.add_0_r in Hsuf. }
  assert (E : partStep old' pp f s x i arr = partStep old pp f s x i arr).
  { apply partStep_agree. intros Hnew. apply Hag.
    - simpl. apply forEachFrom_fake_keeps.
      destruct (partStep_new old pp f s x i arr Hnew) as (_ & -> & _).
      rewrite get_set_same. discriminate.
    - now apply idOfPart_depth. }
  rewrite E. apply IH; auto.
  intros j y Hj. replace (S i + j) with (i + S j) by lia. now apply Hsuf.
Qed.

Lemma fileStep_agree files old' old c f i :
  partsOk f ->
  agreeOn (fakePartsAcc (fst (fileStep files old c f i))) old' old ->
  fileStep files old' c f i = fileStep files old c f i.
Proof.
  intros Hok Hag.
  destruct (fileStep_fake files old c f i) as [_|(parts & Hp & E)].
  - unfold fileStep in *. destruct (F.parts f) as [parts|] eqn:Hp; auto.
    destruct (F.sketchFile f); auto.
    destruct (isNewSketchFile parts (F.path f)); auto.
    unfold partsOk in Hok. rewrite Hp in Hok.
    simpl in Hag. unfold forEach in *.
    rewrite (forEachFrom_agree old' old _ f parts Hok parts 0 c); auto.
  - rewrite E in Hag. unfold fileStep. rewrite Hp.
    destruct (F.sketchFile f); auto.
    destruct (isNewSketchFile parts (F.path f)); auto.
    unfold partsOk in Hok. rewrite Hp in Hok. unfold forEach in *.
    rewrite (forEachFrom_agree old' old _ f parts Hok parts 0 c); auto.
Qed.

Lemma reduceFrom_agree files old' old rest :
  Forall partsOk rest ->
  forall i c,
    agreeOn (fakePartsAcc (fst (reduceFrom files old i rest c))) old' old ->
    reduceFrom files old' i rest c = reduceFrom files old i rest c.
Proof.
  induction 1 as [|f rest Hf _ IH]; intros i c Hag; simpl in *; auto.
  assert (E : fileStep files old' c f i = fileStep files old c f i).
  { apply fileStep_agree; auto. intros id k Hid. apply Hag.
    destruct (fileStep files old c f i) as [c1 f1]. simpl in Hid.
    pose proof (reduceFrom_fake_keeps files old id rest (S i) c1 Hid) as Hk.
    destruct (reduceFrom files old (S i) rest c1). exact Hk. }
  rewrite E. destruct (fileStep files old c f i) as [c1 f1].
  rewrite IH; auto.
  destruct (reduceFrom files old (S i) rest c1). exact Hag.
Qed.

Lemma Forall2_In_r {A B : Type} (R : A -> B -> Prop) l l' y :
  Forall2 R l l' -> In y l' -> exists x, In x l /\ R x y.
Proof.
  induction 1 as [|a b l l' Hab _ IH]; simpl; [intros []|].
  intros [<-|Hin]; [eauto|]. destruct (IH Hin) as (x & Hx & Hr). eauto.
Qed.

(** For changes with well-formed segments, none of which has the id of a
    group, a pass that is given the table of a pass over the same changes
    reproduces it. *)
Lemma getFileList_reproduces files oldList :
  Forall partsOk files ->
  noGroupUnderChangeId files oldList ->
  getFileListRun files (Some (getFileList files oldList))
  = getFileListRun files oldList.
Proof.
  intros Hok Hnc. unfold getFileListRun at 1 2.
  apply reduceFrom_agree; auto.
  fold (getFileListRun files oldList).
  intros id k Hid Hk.
  destruct (TreeOk_pass files oldList Hok) as (Hids & Hop & Hd).
  pose proof (KeysOk_pass files oldList id Hid) as Hacc.
  fold (getFileList files oldList) in Hacc.
  unfold openedOf at 1.
  destruct (Dict.get id (getFileList files oldList)) as [[g|q]|] eqn:G;
    [|clear Hacc|congruence].
  - exfalso.
    pose proof (ids_acc _ Hids id (File g) G) as Hg. simpl in Hg.
    destruct (Forall2_In_r _ _ _ g (filesAfter_written files oldList)
                (getFileList_File_In files oldList id g G))
      as (f & Hf & b & n & ->).
    simpl in Hg. apply Hid. rewrite <- Hg. now apply Hnc.
  - rewrite (opened_expandedOf_acc oldList _ id q Hop Hd G). unfold expandedOf.
    apply openedOf_depth. rewrite Hk. now destruct (hasSlash id).
Qed.

(** The component as the constructor leaves it is in sync with its change
    list. *)
Lemma construct_inSync p :
  Forall partsOk (workingDirectoryFiles p) ->
  noGroupUnderChangeId (workingDirectoryFiles p) None ->
  inSync (construct p).
Proof.
  intros Hok Hnc. unfold inSync, construct. simpl. f_equal.
  unfold getFileList at 2.
  rewrite (getFileListRun_written (workingDirectoryFiles p) _ _
             (filesAfter_written _ None)).
  now rewrite getFileList_reproduces.
Qed.

(** A toggle leaves the component in sync. *)
Lemma onOpenChanged_inSync this id opened this' :
  Forall partsOk (workingDirectoryFiles (props this)) ->
  (forall oldList, noGroupUnderChangeId (workingDirectoryFiles (props this)) oldList) ->
  inSync this ->
  onOpenChanged this id opened = Returned this' ->
  inSync this'.
Proof.
  intros Hok Hnc Hsync. unfold onOpenChanged, Dict.read.
  destruct (Dict.get id (files (state this))) as [[g|q]|].
  - now intros [= <-].
  - intros [= <-]. unfold inSync. simpl. f_equal.
    unfold getFileList at 2.
    rewrite (getFileListRun_written (workingDirectoryFiles (props this)) _ _
               (filesAfter_written _ _)).
    now rewrite getFileList_reproduces.
  - destruct (Dict.inherited id); [now intros [= <-] | discriminate].
Qed.

(** * Further properties *)

(** ** Order of the visible list *)

Lemma insertByIndex_Permutation a l : Permutation (insertByIndex a l) (a :: l).
Proof.
  induction l as [|b l IH]; simpl; auto.
  destruct (node_index b <? node_index a); auto.
  eapply perm_trans; [apply perm_skip, IH | apply perm_swap].
Qed.

Lemma sortByIndex_Permutation_self l : Permutation (sortByIndex l) l.
Proof.
  induction l as [|a l IH]; simpl; auto.
  eapply perm_trans; [apply insertByIndex_Permutation | now apply perm_skip].
Qed.

Lemma insertByIndex_sorted a l :
  StronglySorted indexLe l -> StronglySorted indexLe (insertByIndex a l).
Proof.
  induction 1 as [|b l Hs IH Hb]; simpl.
  - repeat constructor.
  - destruct (Nat.ltb_spec (node_index b) (node_index a)).
    + constructor; auto.
      eapply Permutation_Forall;
        [apply Permutation_sym, insertByIndex_Permutation|].
      constructor; auto. unfold indexLe. lia.
    + constructor; [constructor; auto|].
      constructor; [exact H|].
      eapply Forall_impl; [|exact Hb]. unfold indexLe. intros; lia.
Qed.

Lemma sortByIndex_sorted l : StronglySorted indexLe (sortByIndex l).
Proof.
  induction l as [|a l IH]; simpl; [constructor|].
  now apply insertByIndex_sorted.
Qed.

Lemma sorted_strict l :
  StronglySorted indexLe l -> NoDup (map node_index l) ->
  StronglySorted indexLt l.
Proof.
  induction 1 as [|a l Hs IH Ha]; simpl; intros ND; [constructor|].
  inversion ND as [|? ? Hn ND']; subst. constructor; auto.
  rewrite Forall_forall in *. intros b Hb. specialize (Ha b Hb).
  unfold indexLe, indexLt in *.
  assert (node_index a <> node_index b).
  { intros E. apply Hn. rewrite E. now apply in_map. }
  lia.
Qed.

(** X1: the visible list holds exactly the shown nodes of the table, each as
    often as the table has it, in ascending order of index; for a table that
    [getFileList] has returned the order is strict. *)
Theorem visible_list_is_the_shown_nodes_in_index_order :
  (forall table,
      Permutation (getOpenedFilesList table)
                  (filter node_shown (Dict.values table))
      /\ StronglySorted indexLe (getOpenedFilesList table))
  /\ (forall files oldList,
        StronglySorted indexLt (getOpenedFilesList (getFileList files oldList))).
Proof.
  split.
  - intros table. split.
    + apply sortByIndex_Permutation_self.
    + apply sortByIndex_sorted.
  - intros files oldList. apply sorted_strict; [apply sortByIndex_sorted|].
    destruct (IndexOk_pass files oldList) as [_ [_ ND]].
    eapply Permutation_NoDup.
    + apply Permutation_map, Permutation_sym, sortByIndex_Permutation_self.
    + now apply NoDup_map_filter.
Qed.

(** X2: the visible list of a table that [getFileList] has returned does not
    depend on the order in which the table enumerates its nodes: every table
    with the same nodes in some order has the same visible list. *)
Theorem visible_list_ignores_enumeration_order :
  forall files oldList table',
    Permutation (Dict.values (getFileList files oldList)) (Dict.values table') ->
    getOpenedFilesList table' = getOpenedFilesList (getFileList files oldList).
Proof.
  intros files oldList table' H. symmetry.
  apply getOpenedFilesList_enumeration; auto.
  destruct (IndexOk_pass files oldList) as [_ [_ ND]]. exact ND.
Qed.

Lemma visible_list_ignores_enumeration_order_witness :
  Permutation (Dict.values (getFileList [layerChange] None))
              (Dict.values scenarioB_reordered)
  /\ getOpenedFilesList scenarioB_reordered
     = getOpenedFilesList (getFileList [layerChange] None).
Proof.
  assert (H : Permutation (Dict.values (getFileList [layerChange] None))
                          (Dict.values scenarioB_reordered)).
  { unfold scenarioB_reordered, Dict.values. rewrite map_rev.
    apply Permutation_rev. }
  split; [exact H|].
  exact (visible_list_ignores_enumeration_order [layerChange] None
           scenarioB_reordered H).
Defined.

(** ** The keys of a returned table *)

Lemma In_keys_set {V : Type} (d : Dict.t V) k v x :
  In x (Dict.keys (Dict.set k v d)) -> x = k \/ In x (Dict.keys d).
Proof.
  induction d as [|[k' v'] d IH]; simpl.
  - intros [<-|[]]; now left.
  - destruct (String.eqb k k') eqn:E; simpl.
    + apply String.eqb_eq in E. subst k'. intros [<-|H]; auto.
    + intros [<-|H]; auto. destruct (IH H); auto.
Qed.

Lemma NoDup_keys_set {V : Type} (d : Dict.t V) k v :
  NoDup (Dict.keys d) -> NoDup (Dict.keys (Dict.set k v d)).
Proof.
  induction d as [|[k' v'] d IH]; simpl; intros ND.
  - constructor; [intros []|constructor].
  - inversion ND as [|? ? Hn ND']; subst.
    destruct (String.eqb k k') eqn:E; simpl.
    + apply String.eqb_eq in E. subst k'. constructor; auto.
    + constructor; auto. intros H. apply In_keys_set in H as [->|H]; auto.
      rewrite String.eqb_refl in E. discriminate.
Qed.

Lemma In_get {V : Type} (d : Dict.t V) k v :
  NoDup (Dict.keys d) -> In (k, v) d -> Dict.get k d = Some v.
Proof.
  induction d as [|[k' v'] d IH]; simpl; intros ND; [intros []|].
  inversion ND as [|? ? Hn ND']; subst. intros [[= -> ->]|H].
  - now rewrite String.eqb_refl.
  - destruct (String.eqb k k') eqn:E; [|auto].
    apply String.eqb_eq in E. subst k'. exfalso. apply Hn.
    change k with (fst (k, v)). now apply in_map.
Qed.

Lemma get_In_pair {V : Type} (d : Dict.t V) k v :
  Dict.get k d = Some v -> In (k, v) d.
Proof.
  induction d as [|[k' v'] d IH]; simpl; [discriminate|].
  destruct (String.eqb k k') eqn:E; [|auto].
  apply String.eqb_eq in E. subst k'. intros [= ->]. now left.
Qed.

Lemma NoDup_keys_attachStatus prev id s :
  NoDup (Dict.keys prev) -> NoDup (Dict.keys (attachStatus prev id s)).
Proof.
  intros H. unfold attachStatus.
  destruct (Dict.get id prev) as [[g|q]|]; auto.
  destruct (P.status q); auto. now apply NoDup_keys_set.
Qed.

Lemma NoDup_keys_pass files oldList :
  NoDup (Dict.keys (getFileList files oldList)).
Proof.
  unfold getFileList.
  apply (getFileList_invariant (fun c => NoDup (Dict.keys (acc c)))).
  - intros pp f c part i arr _ H.
    destruct (samePart part pp i) eqn:E.
    + destruct (partStep_same oldList pp f c part i arr E) as (-> & _).
      destruct (isConflicted f); auto. now apply NoDup_keys_attachStatus.
    + destruct (partStep_new oldList pp f c part i arr E) as (-> & _).
      now apply NoDup_keys_set.
  - intros c f H. simpl. now apply NoDup_keys_set.
  - cbv zeta. intros c f parts _ _ H. simpl. now apply NoDup_keys_set.
  - constructor.
Qed.

(** The keys of [acc] are never removed. *)
Lemma partStep_acc_keeps oldList pp f c part i arr k :
  Dict.get k (acc c) <> None ->
  Dict.get k (acc (partStep oldList pp f c part i arr)) <> None.
Proof.
  intros H. destruct (samePart part pp i) eqn:E.
  - destruct (partStep_same oldList pp f c part i arr E) as (-> & _).
    destruct (isConflicted f); auto. rewrite attachStatus_get.
    destruct (Dict.get (idOfPart arr i part) (acc c)) as [[g|q]|]; auto.
    destruct (P.status q); auto.
    destruct (String.eqb _ k); [discriminate | auto].
  - destruct (partStep_new oldList pp f c part i arr E) as (-> & _).
    now apply get_set_keeps.
Qed.

Lemma fileStep_acc_keeps files oldList c f i k :
  Dict.get k (acc c) <> None ->
  Dict.get k (acc (fst (fileStep files oldList c f i))) <> None.
Proof.
  intros H.
  destruct (fileStep_cases files oldList c f i) as [E|(parts & _ & _ & _ & E)];
    cbv zeta in E; rewrite E; simpl; apply get_set_keeps; auto.
  apply (forEach_inv _ parts (fun s => Dict.get k (acc s) <> None)); auto.
  intros s x j _. apply partStep_acc_keeps.
Qed.

Lemma fileStep_acc_own files oldList c f i :
  Dict.get (F.id f) (acc (fst (fileStep files oldList c f i))) <> None.
Proof.
  destruct (fileStep_cases files oldList c f i) as [E|(parts & _ & _ & _ & E)];
    cbv zeta in E; rewrite E; simpl; rewrite get_set_same; discriminate.
Qed.

Lemma reduceFrom_acc_ids files oldList rest : forall i c f,
  In f rest ->
  Dict.get (F.id f) (acc (fst (reduceFrom files oldList i rest c))) <> None.
Proof.
  induction rest as [|g rest IH]; intros i c f; simpl; [intros []|].
  intros [->|Hin].
  - pose proof (fileStep_acc_own files oldList c f i) as H.
    destruct (fileStep files oldList c f i) as [c1 f1]. simpl in H.
    pose proof (reduceFrom_inv files oldList
                  (fun c => Dict.get (F.id f) (acc c) <> None)
                  (fun c' g j => fileStep_acc_keeps files oldList c' g j (F.id f))
                  rest (S i) c1 H) as H'.
    destruct (reduceFrom files oldList (S i) rest c1). exact H'.
  - destruct (fileStep files oldList c g i) as [c1 f1].
    specialize (IH (S i) c1 f Hin).
    destruct (reduceFrom files oldList (S i) rest c1). exact IH.
Qed.

(** X3: in a table that [getFileList] returns no key occurs twice, every node
    is stored under its own id and is what a lookup of that id finds, and the
    id of every change record of the input is a key of the table. *)
Theorem returned_table_is_keyed_by_id :
  forall files oldList,
    let table := getFileList files oldList in
    NoDup (Dict.keys table)
    /\ (forall k n, In (k, n) table ->
                    node_id n = k /\ Dict.get (node_id n) table = Some n)
    /\ (forall f, In f files -> Dict.get (F.id f) table <> None).
Proof.
  intros files oldList table.
  pose proof (NoDup_keys_pass files oldList) as ND. fold table in ND.
  destruct (IdsOk_pass files oldList) as [_ [Hid _ _]].
  fold (getFileList files oldList) in Hid. fold table in Hid.
  split; [exact ND|]. split.
  - intros k n Hin. pose proof (In_get table k n ND Hin) as G.
    rewrite (Hid k n G). auto.
  - intros f Hin. apply reduceFrom_acc_ids. exact Hin.
Qed.

Lemma returned_table_is_keyed_by_id_witness :
  let table := getFileList [layerChange] None in
  In ("doc.sketch"%string, Fake (scenarioB_root layerChange)) table
  /\ Dict.get "doc.sketch"%string table = Some (Fake (scenarioB_root layerChange))
  /\ Dict.get (F.id layerChange) table <> None.
Proof.
  cbv zeta.
  destruct (returned_table_is_keyed_by_id [layerChange] None) as (_ & H1 & H2).
  split; [now left|]. split.
  - exact (proj2 (H1 "doc.sketch"%string (Fake (scenarioB_root layerChange))
                     (or_introl eq_refl))).
  - apply H2. now left.
Defined.

(** ** A pass over its own table, and over rewritten records *)

(** X4: for a change list with well-formed segments in which no change has
    the id of a synthesized group, [getFileList] given the table it has
    produced returns that table again and writes the same records: the
    table is a fixed point of the pass. *)
Theorem resynthesis_is_a_fixed_point :
  forall files oldList,
    Forall partsOk files ->
    noGroupUnderChangeId files oldList ->
    getFileList files (Some (getFileList files oldList))
      = getFileList files oldList
    /\ filesAfter files (Some (getFileList files oldList))
       = filesAfter files oldList.
Proof.
  intros files oldList Hok Hnc. unfold getFileList at 1 3, filesAfter.
  now rewrite getFileList_reproduces.
Qed.

Lemma resynthesis_is_a_fixed_point_witness :
  getFileList [layerChange] (Some (getFileList [layerChange] None))
    = getFileList [layerChange] None
  /\ filesAfter [layerChange] (Some (getFileList [layerChange] None))
     = filesAfter [layerChange] None.
Proof.
  apply (resynthesis_is_a_fixed_point [layerChange] None).
  - repeat constructor; discriminate.
  - intros f [<-|[]]. reflexivity.
Defined.

Lemma sameChange_written f f' : sameChange f f' -> written f f'.
Proof.
  intros (H1 & H2 & H3 & H4 & H5). exists (F.shown f'), (F.index f').
  destruct f, f'; simpl in *. subst. reflexivity.
Qed.

(** X5: the pass reads neither [shown] nor [index] of the records it is
    given: two change lists whose records agree in id, path, status, parts and
    sketch file yield the same table and the same written records. *)
Theorem pass_ignores_shown_and_index :
  forall files files' oldList,
    Forall2 sameChange files files' ->
    getFileList files' oldList = getFileList files oldList
    /\ filesAfter files' oldList = filesAfter files oldList.
Proof.
  intros files files' oldList H. unfold getFileList, filesAfter.
  rewrite (getFileListRun_written files files' oldList); auto.
  eapply Forall2_impl; [|exact H]. apply sameChange_written.
Qed.

Lemma pass_ignores_shown_and_index_witness :
  let stale := setIndex (setShown layerChange true) 9 in
  getFileList [stale] None = getFileList [layerChange] None
  /\ filesAfter [stale] None = filesAfter [layerChange] None.
Proof.
  apply (pass_ignores_shown_and_index [layerChange]
           [setIndex (setShown layerChange true) 9] None).
  repeat constructor.
Defined.

(** ** Old lists that open less *)

Lemma dictRel_keys {V : Type} (R : V -> V -> Prop) (d' d : Dict.t V) :
  dictRel R d' d -> Dict.keys d' = Dict.keys d.
Proof.
  induction 1 as [|[k' v'] [k v] d' d [Hk _] _ IH]; simpl in *; congruence.
Qed.

(** X6: when the old list [old'] opens no group that [old] does not open, the
    pass over the same changes yields a table with the same keys in the same
    order, every node shown with [old'] is shown with [old], and the visible
    list is not longer. *)
Theorem opening_less_shows_less :
  forall files old' old,
    opensLess old' old ->
    let table' := getFileList files old' in
    let table := getFileList files old in
    Dict.keys table' = Dict.keys table
    /\ (forall k n', Dict.get k table' = Some n' -> node_shown n' = true ->
          exists n, Dict.get k table = Some n /\ node_shown n = true)
    /\ length (getOpenedFilesList table') <= length (getOpenedFilesList table).
Proof.
  intros files old' old H table' table.
  pose proof (getFileList_less files old' old H) as R. fold table' table in R.
  split; [eapply dictRel_keys; eauto|]. split.
  - intros k n' G Hs. pose proof (dictRel_get lessShown table' table k R) as O.
    rewrite G in O. destruct (Dict.get k table) as [n|]; [|contradiction].
    exists n. split; auto. eapply lessShown_shown; eauto.
  - now apply lessShown_count.
Qed.

Lemma opening_less_shows_less_witness :
  let table' := getFileList [layerChange] (Some scenarioB_layerClosed) in
  let table := getFileList [layerChange] (Some scenarioB_allOpened) in
  Dict.keys table' = Dict.keys table
  /\ (forall k n', Dict.get k table' = Some n' -> node_shown n' = true ->
        exists n, Dict.get k table = Some n /\ node_shown n = true)
  /\ length (getOpenedFilesList table') <= length (getOpenedFilesList table).
Proof.
  apply (opening_less_shows_less [layerChange]
           (Some scenarioB_layerClosed) (Some scenarioB_allOpened)).
  apply opensLess_close.
Defined.

(** ** A change list without sketch parts *)

Lemma set_fresh {V : Type} (d : Dict.t V) k v :
  Dict.get k d = None -> Dict.set k v d = d ++ [(k, v)].
Proof.
  induction d as [|[k' v'] d IH]; simpl; auto.
  destruct (String.eqb k k'); [discriminate|]. intros H. now rewrite IH.
Qed.

Lemma get_app_fresh {V : Type} (d : Dict.t V) k k' v :
  Dict.get k d = None -> k <> k' -> Dict.get k (d ++ [(k', v)]) = None.
Proof.
  intros H N. induction d as [|[k0 x] d IH]; simpl in *.
  - destruct (String.eqb k k') eqn:E; auto.
    apply String.eqb_eq in E. contradiction.
  - destruct (String.eqb k k0); [discriminate | auto].
Qed.

Lemma fileStep_plain files oldList c f i :
  plainChange f ->
  fileStep files oldList c f i = emit c (parentPartChange c) (setShown f true).
Proof.
  unfold plainChange, fileStep. destruct (F.parts f) as [parts|]; auto.
  intros [->| ->]; auto. now destruct (F.sketchFile f).
Qed.

Lemma reduceFrom_plain files oldList rest : forall i c,
  Forall plainChange rest ->
  NoDup (map F.id rest) ->
  (forall f, In f rest -> Dict.get (F.id f) (acc c) = None) ->
  reduceFrom files oldList i rest c
  = ({| acc := acc c ++ map (fun f => (F.id f, File f)) (numberFrom (index c) rest);
        fakePartsAcc := fakePartsAcc c;
        parentPartChange := parentPartChange c;
        index := index c + length rest |},
     numberFrom (index c) rest).
Proof.
  induction rest as [|f rest IH]; intros i c Hp ND Hfresh; simpl.
  - rewrite app_nil_r, Nat.add_0_r. now destruct c.
  - inversion Hp as [|? ? Hf Hp']; subst.
    inversion ND as [|? ? Hn ND']; subst.
    rewrite (fileStep_plain files oldList c f i Hf). simpl.
    rewrite IH; auto; simpl.
    + rewrite set_fresh by (apply Hfresh; now left).
      rewrite <- app_assoc. simpl.
      replace (index c + 1) with (S (index c)) by lia.
      replace (index c + S (length rest)) with (S (index c) + length rest) by lia.
      reflexivity.
    + intros g Hg. rewrite set_fresh by (apply Hfresh; now left).
      apply get_app_fresh; [apply Hfresh; now right|].
      intros E. apply Hn. rewrite <- E. now apply in_map.
Qed.

Lemma sortByIndex_sorted_id l : StronglySorted indexLt l -> sortByIndex l = l.
Proof.
  induction 1 as [|a l Hs IH Ha]; simpl; auto. rewrite IH.
  destruct l as [|b l]; simpl; auto.
  inversion Ha as [|? ? Hab _]; subst. unfold indexLt in Hab.
  destruct (Nat.ltb_spec (node_index b) (node_index a)); [lia | reflexivity].
Qed.

Lemma numberFrom_sorted rest : forall i,
  StronglySorted indexLt (map File (numberFrom i rest))
  /\ Forall (fun n => i <= node_index n) (map File (numberFrom i rest)).
Proof.
  induction rest as [|f rest IH]; intros i; simpl.
  - split; constructor.
  - destruct (IH (S i)) as [H1 H2]. split.
    + constructor; [exact H1|]. eapply Forall_impl; [|exact H2].
      unfold indexLt. simpl. intros; lia.
    + constructor; [simpl; lia|]. eapply Forall_impl; [|exact H2].
      simpl. intros; lia.
Qed.

Lemma filter_shown_numberFrom rest : forall i,
  filter node_shown (map File (numberFrom i rest)) = map File (numberFrom i rest).
Proof.
  induction rest as [|f rest IH]; intros i; simpl; auto. now rewrite IH.
Qed.

(** X7: for a change list of plain changes (no parts, no sketch file, or a
    sketch file just added) with pairwise distinct ids, whatever the old
    list: the pass writes [shown = true] and the position as index into every
    record, the table holds exactly these records under their ids in input
    order, no group is synthesized, and the visible list is the whole change
    list in input order. *)
Theorem flat_change_list_is_listed_in_input_order :
  forall files oldList,
    Forall plainChange files ->
    NoDup (map F.id files) ->
    filesAfter files oldList = numberFrom 0 files
    /\ getFileList files oldList
       = map (fun f => (F.id f, File f)) (numberFrom 0 files)
    /\ fakePartsAcc (fst (getFileListRun files oldList)) = Dict.empty
    /\ getOpenedFilesList (getFileList files oldList)
       = map File (numberFrom 0 files).
Proof.
  intros files oldList Hp ND.
  assert (R : getFileListRun files oldList
              = ({| acc := map (fun f => (F.id f, File f)) (numberFrom 0 files);
                    fakePartsAcc := Dict.empty;
                    parentPartChange := Undefined;
                    index := length files |},
                 numberFrom 0 files)).
  { unfold getFileListRun. rewrite reduceFrom_plain; auto. }
  unfold filesAfter, getFileList. rewrite R. simpl.
  repeat split.
  unfold getOpenedFilesList, Dict.values. rewrite map_map. simpl.
  change (map (fun x : F.t => File x)) with (map File).
  rewrite filter_shown_numberFrom.
  apply sortByIndex_sorted_id, numberFrom_sorted.
Qed.

Lemma flat_change_list_is_listed_in_input_order_witness :
  filesAfter twoPlainFiles None = numberFrom 0 twoPlainFiles
  /\ getFileList twoPlainFiles None
     = map (fun f => (F.id f, File f)) (numberFrom 0 twoPlainFiles)
  /\ fakePartsAcc (fst (getFileListRun twoPlainFiles None)) = Dict.empty
  /\ getOpenedFilesList (getFileList twoPlainFiles None)
     = map File (numberFrom 0 twoPlainFiles).
Proof.
  apply (flat_change_list_is_listed_in_input_order twoPlainFiles None).
  - repeat constructor.
  - repeat constructor; simpl; intuition discriminate.
Defined.

(** ** The shape of a group *)

Lemma string_append_assoc (a b c : string) :
  ((a ++ b) ++ c)%string = (a ++ (b ++ c))%string.
Proof. induction a as [|x a IH]; simpl; auto. now rewrite IH. Qed.

Lemma join_snoc l x :
  l <> [] -> join (l ++ [x]) = (join l ++ "/" ++ x)%string.
Proof.
  unfold join. induction l as [|a l IH]; [congruence|]. intros _.
  destruct l as [|b l]; [reflexivity|].
  change (String.concat "/" ((a :: b :: l) ++ [x]))
    with (a ++ "/" ++ String.concat "/" ((b :: l) ++ [x]))%string.
  rewrite IH by discriminate.
  change (String.concat "/" (a :: b :: l))
    with (a ++ "/" ++ String.concat "/" (b :: l))%string.
  now rewrite !string_append_assoc.
Qed.

Lemma idOfPart_join arr i part :
  Forall segmentOk arr -> nth_error arr i = Some part ->
  idOfPart arr i part = join (firstn i arr ++ [part]).
Proof.
  intros Hok Hi. destruct i as [|i]; [reflexivity|].
  destruct arr as [|s rest]; [discriminate|].
  assert (Hs : segmentOk s) by (inversion Hok; auto).
  rewrite idOfPart_nested by apply Hs.
  rewrite join_snoc; [reflexivity | rewrite firstn_cons; discriminate].
Qed.

Lemma reduceFrom_inv_on files oldList (Good : F.t -> Prop)
    (Inv : Closure -> Prop) :
  (forall c f i, Good f -> Inv c -> Inv (fst (fileStep files oldList c f i))) ->
  forall rest, Forall Good rest ->
  forall i c, Inv c -> Inv (fst (reduceFrom files oldList i rest c)).
Proof.
  intros Hstep rest Hg. induction Hg as [|f rest Hf _ IH]; intros i c Hc; simpl; auto.
  specialize (Hstep c f i Hf Hc).
  destruct (fileStep files oldList c f i) as [c1 f1]. simpl in Hstep.
  specialize (IH (S i) c1 Hstep).
  destruct (reduceFrom files oldList (S i) rest c1). exact IH.
Qed.

Lemma GroupShape_partStep files oldList pp f arr c part i :
  In f files -> F.parts f = Some arr -> F.sketchFile f = true ->
  Forall segmentOk arr -> nth_error arr i = Some part ->
  GroupShape files c -> GroupShape files (partStep oldList pp f c part i arr).
Proof.
  intros Hin Hp Hs Hok Hi H.
  destruct (samePart part pp i) eqn:E.
  - destruct (partStep_same oldList pp f c part i arr E) as (Ea & _).
    intros k p. rewrite Ea. destruct (isConflicted f); [|apply H].
    rewrite attachStatus_get.
    destruct (Dict.get (idOfPart arr i part) (acc c)) as [[g|q]|] eqn:G;
      try apply H.
    destruct (P.status q); try apply H.
    destruct (String.eqb _ k); [|apply H].
    intros [= <-]. exact (H _ q G).
  - destruct (partStep_new oldList pp f c part i arr E) as (Ea & _).
    intros k p. rewrite Ea, get_set.
    destruct (String.eqb _ k); [|apply H].
    intros [= <-]. simpl.
    assert (L : length (firstn i arr) = i).
    { apply firstn_length_le. apply nth_error_lt in Hi. lia. }
    rewrite L. split; [now apply idOfPart_join|]. split; [reflexivity|].
    exists f, arr. simpl. rewrite L. repeat split; auto.
    now apply firstn_S_nth.
Qed.

Lemma GroupShape_emit files c parent f :
  GroupShape files c -> GroupShape files (fst (emit c parent f)).
Proof.
  intros H k p. simpl. rewrite get_set.
  destruct (String.eqb _ k); [discriminate | apply H].
Qed.

Lemma GroupShape_pass files oldList :
  Forall partsOk files -> GroupShape files (fst (getFileListRun files oldList)).
Proof.
  intros Hok. unfold getFileListRun.
  apply (reduceFrom_inv_on files oldList (fun f => partsOk f /\ In f files)).
  - intros c f i [Hf Hin] Hc.
    destruct (fileStep_cases files oldList c f i) as [E|(parts & Hp & Hs & _ & E)];
      cbv zeta in E; rewrite E; apply GroupShape_emit; auto.
    unfold partsOk in Hf. rewrite Hp in Hf.
    apply forEach_inv; auto. intros s x j Hj.
    now apply (GroupShape_partStep files oldList _ f parts).
  - rewrite Forall_forall in *. auto.
  - intros k p. discriminate.
Qed.

(** X8: in the table that a pass returns for changes with well-formed
    segments, every group node is the prefix of the part path of some change
    of the input (its parts followed by its name are the first segments of
    that path), its id and key are those segments joined by "/", and its type
    follows its depth: sketch file at depth 0, page at depth 1, layer below. *)
Theorem group_is_a_prefix_of_a_part_path :
  forall files oldList,
    Forall partsOk files ->
    forall k p,
      Dict.get k (getFileList files oldList) = Some (Fake p) ->
      k = join (P.parts p ++ [P.name p])
      /\ P.id p = k
      /\ P.type p = typeOfDepth (length (P.parts p))
      /\ prefixOfChange files p.
Proof.
  intros files oldList Hok k p H.
  destruct (GroupShape_pass files oldList Hok k p H) as (H1 & H2 & H3).
  destruct (IdsOk_pass files oldList) as [_ [Hid _ _]].
  specialize (Hid k (Fake p) H). simpl in Hid.
  repeat split; auto. congruence.
Qed.

Lemma group_is_a_prefix_of_a_part_path_witness :
  let p := scenarioB_page layerChange in
  "doc.sketch/page1"%string = join (P.parts p ++ [P.name p])
  /\ P.id p = "doc.sketch/page1"%string
  /\ P.type p = typeOfDepth (length (P.parts p))
  /\ prefixOfChange [layerChange] p.
Proof.
  apply (group_is_a_prefix_of_a_part_path [layerChange] None).
  - repeat constructor; discriminate.
  - reflexivity.
Defined.

(** ** Toggling a group *)

Lemma set_same {V : Type} (d : Dict.t V) k v :
  Dict.get k d = Some v -> Dict.set k v d = d.
Proof.
  induction d as [|[k' v'] d IH]; simpl; [discriminate|].
  destruct (String.eqb k k') eqn:E.
  - apply String.eqb_eq in E. subst k'. now intros [= ->].
  - intros H. now rewrite IH.
Qed.

Lemma setOpened_same q : setOpened q (P.opened q) = q.
Proof. now destruct q. Qed.

Lemma opensLess_open table g q :
  Dict.get g table = Some (Fake q) ->
  opensLess (Some table) (Some (Dict.set g (Fake (setOpened q true)) table)).
Proof.
  intros H id i. unfold openedOf. rewrite get_set.
  destruct (String.eqb g id) eqn:E; [|apply bimp_refl].
  intros _. reflexivity.
Qed.

Lemma lessShown_sameKinds table' table :
  dictRel lessShown table' table -> sameKinds table' table.
Proof.
  intros R. split; [eapply dictRel_keys; eauto|].
  intros k. pose proof (dictRel_get lessShown table' table k R) as O.
  destruct (Dict.get k table') as [[f'|p']|], (Dict.get k table) as [[f|p]|];
    simpl in *; auto; contradiction.
Qed.

Lemma sameKinds_sym table' table : sameKinds table' table -> sameKinds table table'.
Proof.
  intros [K H]. split; [auto|]. intros k. specialize (H k).
  destruct (Dict.get k table') as [n'|], (Dict.get k table) as [n|];
    simpl in *; auto.
Qed.

(** The table after a toggle has the keys and kinds of the table before. *)
Lemma toggle_sameKinds fs table g q b :
  getFileList fs (Some table) = table ->
  Dict.get g table = Some (Fake q) ->
  sameKinds (getFileList fs (Some (Dict.set g (Fake (setOpened q b)) table)))
            table.
Proof.
  intros HT Hg. destruct b.
  - apply sameKinds_sym, lessShown_sameKinds. rewrite <- HT at 1.
    now apply getFileList_less, opensLess_open.
  - apply lessShown_sameKinds. rewrite <- HT at 2.
    apply getFileList_less, opensLess_close.
Qed.

Lemma inSync_table this :
  inSync this ->
  getFileList (workingDirectoryFiles (props this)) (Some (files (state this)))
  = files (state this).
Proof. intros H. unfold inSync in H. rewrite H at 2. reflexivity. Qed.

(** X9: for a component in sync with its change list, [onOpenChanged(g, b)]
    on a group [g] of the table returns normally; the new table has the same
    keys in the same order, [g] is a group in it with [opened = b], every
    other group keeps its [opened] flag, and the new visible list is the
    projection of the new table. *)
Theorem toggle_sets_the_flag_of_that_group_only :
  forall this g q b,
    inSync this ->
    Dict.get g (files (state this)) = Some (Fake q) ->
    exists this',
      onOpenChanged this g b = Returned this'
      /\ Dict.keys (files (state this')) = Dict.keys (files (state this))
      /\ (exists p, Dict.get g (files (state this')) = Some (Fake p)
                    /\ P.opened p = b)
      /\ (forall k p0, k <> g ->
            Dict.get k (files (state this)) = Some (Fake p0) ->
            exists p, Dict.get k (files (state this')) = Some (Fake p)
                      /\ P.opened p = P.opened p0)
      /\ visibleFileList (state this')
         = getOpenedFilesList (files (state this')).
Proof.
  intros this g q b Hsync Hg.
  set (fs := workingDirectoryFiles (props this)).
  set (T0 := files (state this)) in *.
  set (T0' := Dict.set g (Fake (setOpened q b)) T0).
  pose proof (inSync_table this Hsync) as HT. fold fs T0 in HT.
  destruct (toggle_sameKinds fs T0 g q b HT Hg) as [HK Hkind]. fold T0' in HK, Hkind.
  destruct (OpenedOk_pass fs (Some T0')) as [_ [Hop _]].
  fold (getFileList fs (Some T0')) in Hop.
  exists {| props := withFiles (props this) (filesAfter fs (Some T0'));
            state := stateOf (getFileList fs (Some T0')) |}.
  split; [unfold onOpenChanged, Dict.read; fold T0; rewrite Hg; reflexivity|].
  simpl. split; [exact HK|]. split; [|split; [|reflexivity]].
  - pose proof (Hkind g) as O. rewrite Hg in O.
    destruct (Dict.get g (getFileList fs (Some T0'))) as [[f|p]|] eqn:G;
      simpl in O; try contradiction; try discriminate.
    exists p. split; auto. rewrite (Hop g p G). unfold openedOf, T0'.
    now rewrite get_set_same.
  - intros k p0 Hk G0. pose proof (Hkind k) as O. rewrite G0 in O.
    destruct (Dict.get k (getFileList fs (Some T0'))) as [[f|p]|] eqn:G;
      simpl in O; try contradiction; try discriminate.
    exists p. split; auto. rewrite (Hop k p G). unfold openedOf, T0'.
    rewrite get_set_other by congruence. now rewrite G0.
Qed.

Lemma toggle_sets_the_flag_of_that_group_only_witness :
  inSync scenarioB_component
  /\ exists this',
      onOpenChanged scenarioB_component "doc.sketch/page1"%string true
        = Returned this'
      /\ Dict.keys (files (state this'))
         = Dict.keys (files (state scenarioB_component))
      /\ (exists p, Dict.get "doc.sketch/page1"%string (files (state this'))
                      = Some (Fake p)
                    /\ P.opened p = true)
      /\ (forall k p0, k <> "doc.sketch/page1"%string ->
            Dict.get k (files (state scenarioB_component)) = Some (Fake p0) ->
            exists p, Dict.get k (files (state this')) = Some (Fake p)
                      /\ P.opened p = P.opened p0)
      /\ visibleFileList (state this')
         = getOpenedFilesList (files (state this')).
Proof.
  split; [reflexivity|].
  exact (toggle_sets_the_flag_of_that_group_only scenarioB_component
           "doc.sketch/page1"%string (scenarioB_page layerChange) true
           eq_refl eq_refl).
Defined.

(** X10: for a component in sync with its change list, [onOpenChanged] with
    the value a group already has leaves the table and the visible list as
    they are. *)
Theorem toggle_to_the_current_value_changes_nothing :
  forall this g q,
    inSync this ->
    Dict.get g (files (state this)) = Some (Fake q) ->
    exists this',
      onOpenChanged this g (P.opened q) = Returned this'
      /\ state this' = state this.
Proof.
  intros this g q Hsync Hg. unfold onOpenChanged, Dict.read. rewrite Hg.
  eexists. split; [reflexivity|]. simpl.
  rewrite setOpened_same, (set_same _ _ _ Hg).
  symmetry. exact Hsync.
Qed.

Lemma toggle_to_the_current_value_changes_nothing_witness :
  inSync scenarioB_component
  /\ exists this',
      onOpenChanged scenarioB_component "doc.sketch/page1"%string false
        = Returned this'
      /\ state this' = state scenarioB_component.
Proof.
  split; [reflexivity|].
  exact (toggle_to_the_current_value_changes_nothing scenarioB_component
           "doc.sketch/page1"%string (scenarioB_page layerChange)
           eq_refl eq_refl).
Defined.

(** ** New props *)

(** X11: for a component in sync with its change list, new props whose
    change records agree with the current ones in id, path, status, parts and
    sketch file never change the state, whatever the selection of the new
    props is: the guard skips the pass, or the pass reproduces the table. *)
Theorem same_changes_leave_the_state :
  forall this nextProps,
    inSync this ->
    Forall2 sameChange (workingDirectoryFiles (props this))
                       (workingDirectoryFiles nextProps) ->
    fst (componentWillReceiveProps this nextProps) = state this.
Proof.
  intros this nextProps Hsync Hsame. unfold componentWillReceiveProps.
  destruct (selectionChanged (props this) nextProps); [reflexivity|]. simpl.
  unfold getFileList.
  rewrite (getFileListRun_written (workingDirectoryFiles (props this))).
  - symmetry. exact Hsync.
  - eapply Forall2_impl; [|exact Hsame]. apply sameChange_written.
Qed.

Lemma same_changes_leave_the_state_witness :
  inSync scenarioB_component
  /\ fst (componentWillReceiveProps scenarioB_component
            (noSelection [layerChange]))
     = state scenarioB_component.
Proof.
  split; [reflexivity|].
  apply (same_changes_leave_the_state scenarioB_component
           (noSelection [layerChange])); [reflexivity|].
  repeat constructor.
Defined.

(** X12: being in sync with the change list is established by the
    constructor and kept by [onOpenChanged] and by a rebuild in
    [componentWillReceiveProps], for change lists with well-formed segments
    in which no change has the id of a synthesized group. *)
Theorem component_stays_in_sync :
  (forall p,
      Forall partsOk (workingDirectoryFiles p) ->
      noGroupUnderChangeId (workingDirectoryFiles p) None ->
      inSync (construct p))
  /\ (forall this id opened this',
        Forall partsOk (workingDirectoryFiles (props this)) ->
        (forall oldList,
            noGroupUnderChangeId (workingDirectoryFiles (props this)) oldList) ->
        inSync this ->
        onOpenChanged this id opened = Returned this' ->
        inSync this')
  /\ (forall this nextProps,
        Forall partsOk (workingDirectoryFiles nextProps) ->
        (forall oldList,
            noGroupUnderChangeId (workingDirectoryFiles nextProps) oldList) ->
        selectionUnchanged (props this) nextProps ->
        inSync {| props := snd (componentWillReceiveProps this nextProps);
                  state := fst (componentWillReceiveProps this nextProps) |}).
Proof.
  split; [|split].
  - apply construct_inSync.
  - intros this id opened this'. apply onOpenChanged_inSync.
  - intros this nextProps Hok Hnc Hsel.
    apply selectionChanged_false in Hsel.
    unfold componentWillReceiveProps. rewrite Hsel. unfold inSync. simpl.
    f_equal. unfold getFileList at 2.
    rewrite (getFileListRun_written (workingDirectoryFiles nextProps) _ _
               (filesAfter_written _ _)).
    now rewrite getFileList_reproduces.
Qed.

Lemma component_stays_in_sync_witness :
  inSync (construct (noSelection [layerChange])).
Proof.
  apply (proj1 component_stays_in_sync (noSelection [layerChange])).
  - repeat constructor; discriminate.
  - intros f [<-|[]]. reflexivity.
Defined.

(** * The rest of the component: properties *)

(** ** Rows *)

Lemma TypeOk_pass files oldList : TypeOk (fst (getFileListRun files oldList)).
Proof.
  apply getFileList_invariant; unfold TypeOk.
  - intros pp f c part i arr Hi H k p.
    destruct (samePart part pp i) eqn:E.
    + destruct (partStep_same oldList pp f c part i arr E) as (-> & _).
      destruct (isConflicted f); [|apply H]. rewrite attachStatus_get.
      destruct (Dict.get (idOfPart arr i part) (acc c)) as [[g|q]|] eqn:G;
        try apply H.
      destruct (P.status q); try apply H.
      destruct (String.eqb _ k); [|apply H].
      intros [= <-]. exact (H _ q G).
    + destruct (partStep_new oldList pp f c part i arr E) as (-> & _).
      rewrite get_set. destruct (String.eqb _ k); [|apply H].
      intros [= <-]. rewrite partChangeOf_depth by exact Hi. reflexivity.
  - intros c f H k p. simpl. rewrite get_set.
    destruct (String.eqb _ k); [discriminate | apply H].
  - cbv zeta. intros c f parts _ _ H k p. simpl. rewrite get_set.
    destruct (String.eqb _ k); [discriminate | apply H].
  - intros k p. discriminate.
Qed.

Lemma In_values_pair {V : Type} (d : Dict.t V) v :
  In v (Dict.values d) -> exists k, In (k, v) d.
Proof.
  unfold Dict.values. intros H. apply in_map_iff in H as ([k v'] & E & H).
  simpl in E. subst v'. eauto.
Qed.

(** A row of the visible list of a returned table is the node that the table
    holds under the id of the row. *)
Lemma visible_row_lookup files oldList n :
  In n (getOpenedFilesList (getFileList files oldList)) ->
  Dict.get (node_id n) (getFileList files oldList) = Some n.
Proof.
  intros H.
  apply (Permutation_in _ (sortByIndex_Permutation_self _)) in H.
  apply filter_In in H as [H _]. apply In_values_pair in H as [k H].
  pose proof (In_get _ k n (NoDup_keys_pass files oldList) H) as G.
  destruct (IdsOk_pass files oldList) as [_ [Hid _ _]].
  now rewrite (Hid k n G).
Qed.

Lemma typeOfDepth_not_normal i : typeOfDepth i <> NormalFile.
Proof. unfold typeOfDepth. destruct (i =? 0), (i =? 1); discriminate. Qed.

(** X13: in a component whose state comes from a pass, a key press on a row
    of the visible list never fails.  A key other than the two arrows, and
    any key on the row of a file node, leaves the component as it is; an
    arrow on the row of a group is [onOpenChanged] for that group, opening it
    with ArrowRight and closing it with ArrowLeft, and returns normally.  An
    arrow on a row beyond the visible list ends in a [TypeError]. *)
Theorem row_keys_toggle_groups_and_never_fail_on_a_row :
  forall fileType this key,
    builtByPass this ->
    (forall row n,
        nth_error (visibleFileList (state this)) row = Some n ->
        exists this',
          onRowKeyDown fileType this row key = Returned this'
          /\ (isArrow key = false -> this' = this)
          /\ (forall f, n = File f -> this' = this)
          /\ (forall p, n = Fake p -> isArrow key = true ->
                onOpenChanged this (P.id p) (String.eqb key "ArrowRight")
                = Returned this'))
    /\ (forall row,
          length (visibleFileList (state this)) <= row ->
          isArrow key = true ->
          onRowKeyDown fileType this row key = TypeError).
Proof.
  intros fileType this key (fs & oldList & Hst). split.
  - intros row n Hn. unfold onRowKeyDown. rewrite Hn.
    assert (G : Dict.get (node_id n) (files (state this)) = Some n).
    { rewrite Hst in *. simpl in *. apply visible_row_lookup.
      eapply nth_error_In; eauto. }
    destruct (isArrow key) eqn:A.
    + destruct n as [f|p]; simpl in *.
      * exists this. unfold onOpenChanged, Dict.read. rewrite G.
        destruct (negb _); repeat split; auto; try discriminate.
      * assert (T : P.type p <> NormalFile).
        { rewrite Hst in G. simpl in G.
          rewrite (TypeOk_pass fs oldList _ p G). apply typeOfDepth_not_normal. }
        assert (E : negb (FileType_eqb (P.type p) NormalFile) = true)
          by (destruct (P.type p); auto; congruence).
        rewrite E. unfold onOpenChanged, Dict.read. rewrite G. eexists.
        split; [reflexivity|]. repeat split; try discriminate.
        intros p' [= <-] _. rewrite G. reflexivity.
    + exists this. repeat split; auto; try discriminate.
  - intros row Hrow A. unfold onRowKeyDown. rewrite A.
    apply nth_error_None in Hrow. now rewrite Hrow.
Qed.

Lemma row_keys_toggle_groups_and_never_fail_on_a_row_witness :
  builtByPass scenarioB_component
  /\ exists this',
       onRowKeyDown (fun _ => NormalFile) scenarioB_component 1 "ArrowRight"
         = Returned this'
       /\ onOpenChanged scenarioB_component "doc.sketch/page1"%string true
          = Returned this'.
Proof.
  assert (B : builtByPass scenarioB_component).
  { exists [layerChange], None. reflexivity. }
  split; [exact B|].
  destruct (proj1 (row_keys_toggle_groups_and_never_fail_on_a_row
                     (fun _ => NormalFile) scenarioB_component
                     "ArrowRight"%string B)
                  1 (Fake (scenarioB_page layerChange)) eq_refl)
    as (this' & H1 & _ & _ & H2).
  exists this'. split; [exact H1|].
  exact (H2 (scenarioB_page layerChange) eq_refl eq_refl).
Defined.

(** X14: in a component whose state comes from a pass, selecting the row of
    a group never ends in the file callback: a group of depth 0 goes to
    [onSketchFileSelectionChanged], with the first sketch file of the props
    that has the id of the group (or [undefined] when there is none), and
    every deeper group goes to [onSketchPartSelectionChanged] with the group
    itself.  Without a first row, or with one beyond the visible list, the
    call ends in a [TypeError]. *)
Theorem selecting_a_group_row_dispatches_by_depth :
  forall (K : Type) (kactusId : K -> string) fileType sketchFiles this,
    builtByPass this ->
    (forall row rest p,
        nth_error (visibleFileList (state this)) row = Some (Fake p) ->
        onFileSelectionChanged kactusId fileType sketchFiles this (row :: rest)
        = if length (P.parts p) =? 0
          then Returned (OnSketchFileSelectionChanged
                           (find (fun f => String.eqb (kactusId f) (P.id p))
                                 sketchFiles))
          else Returned (OnSketchPartSelectionChanged (Fake p)))
    /\ onFileSelectionChanged kactusId fileType sketchFiles this [] = TypeError
    /\ (forall row rest,
          length (visibleFileList (state this)) <= row ->
          onFileSelectionChanged kactusId fileType sketchFiles this (row :: rest)
          = TypeError).
Proof.
  intros K kactusId fileType sketchFiles this (fs & oldList & Hst).
  split; [|split].
  - intros row rest p Hn. unfold onFileSelectionChanged. rewrite Hn. simpl.
    assert (G : Dict.get (P.id p) (getFileList fs oldList) = Some (Fake p)).
    { rewrite Hst in Hn. simpl in Hn.
      apply (visible_row_lookup fs oldList (Fake p)).
      eapply nth_error_In; eauto. }
    rewrite (TypeOk_pass fs oldList _ p G). unfold typeOfDepth.
    destruct (length (P.parts p) =? 0); [reflexivity|].
    destruct (length (P.parts p) =? 1); reflexivity.
  - reflexivity.
  - intros row rest Hrow. unfold onFileSelectionChanged.
    apply nth_error_None in Hrow. now rewrite Hrow.
Qed.

Lemma selecting_a_group_row_dispatches_by_depth_witness :
  builtByPass scenarioB_component
  /\ onFileSelectionChanged (fun s : string => s) (fun _ => NormalFile)
       ["other.sketch"; "doc.sketch"]%string scenarioB_component [0]
     = Returned (OnSketchFileSelectionChanged (Some "doc.sketch"%string)).
Proof.
  assert (B : builtByPass scenarioB_component).
  { exists [layerChange], None. reflexivity. }
  split; [exact B|].
  exact (proj1 (selecting_a_group_row_dispatches_by_depth string
                  (fun s : string => s) (fun _ => NormalFile)
                  ["other.sketch"; "doc.sketch"]%string scenarioB_component B)
               0 [] (scenarioB_root layerChange) eq_refl).
Defined.

(** ** [onDiscardChanges] *)

Lemma findByPath_Some wd path f :
  findByPath wd path = Some f -> In f wd /\ F.path f = path.
Proof.
  intros H. apply find_some in H as [H1 H2]. split; auto.
  now apply String.eqb_eq.
Qed.

Lemma findByPath_None wd path : findByPath wd path = None <-> hasPath wd path = false.
Proof.
  unfold findByPath, hasPath. induction wd as [|f wd IH]; simpl; [tauto|].
  destruct (String.eqb (F.path f) path); simpl; [split; discriminate | exact IH].
Qed.

Lemma modifiedFilesOf_paths wd files :
  map F.path (modifiedFilesOf wd files) = filter (hasPath wd) files.
Proof.
  unfold modifiedFilesOf. induction files as [|p files IH]; simpl; auto.
  destruct (findByPath wd p) as [f|] eqn:E; simpl.
  - destruct (findByPath_Some _ _ _ E) as [_ Hp].
    destruct (hasPath wd p) eqn:H.
    + now rewrite IH, Hp.
    + apply findByPath_None in H. congruence.
  - apply findByPath_None in E. now rewrite E.
Qed.

Lemma modifiedFilesOf_found wd files :
  Forall (fun f => findByPath wd (F.path f) = Some f) (modifiedFilesOf wd files).
Proof.
  unfold modifiedFilesOf. induction files as [|p files IH]; simpl; [constructor|].
  destruct (findByPath wd p) as [f|] eqn:E; simpl; auto.
  constructor; auto. destruct (findByPath_Some _ _ _ E) as [_ Hp]. now rewrite Hp.
Qed.

Lemma modifiedFilesOf_nil wd files :
  modifiedFilesOf wd files = [] -> Forall (fun p => findByPath wd p = None) files.
Proof.
  unfold modifiedFilesOf. induction files as [|p files IH]; simpl; [constructor|].
  destruct (findByPath wd p) as [f|] eqn:E; simpl; [discriminate|].
  intros H. constructor; auto.
Qed.

(** X15: [onDiscardChanges] hands to the callbacks only records of the
    working directory, found by the requested paths: with exactly one path,
    the first record of that path goes to [onDiscardChanges]; with any other
    number, the first records of the requested paths that exist go to
    [onDiscardAllChanges], in the order requested, with the flag telling
    whether they are as many as the working directory has records; when no
    requested path exists -- in particular for an empty request -- no callback
    is called. *)
Theorem discard_hands_over_the_records_found_by_path :
  forall this files,
    let wd := workingDirectoryFiles (props this) in
    match onDiscardChanges this files with
    | OnDiscardChanges f =>
        files = [F.path f] /\ findByPath wd (F.path f) = Some f /\ In f wd
    | OnDiscardAllChanges fs isAll =>
        length files <> 1 /\ fs <> []
        /\ map F.path fs = filter (hasPath wd) files
        /\ Forall (fun f => findByPath wd (F.path f) = Some f /\ In f wd) fs
        /\ isAll = (length fs =? length wd)
    | NoDiscard => Forall (fun p => findByPath wd p = None) files
    end.
Proof.
  intros this files wd. unfold onDiscardChanges. fold wd.
  assert (Several : length files <> 1 ->
    match (if 0 <? length (modifiedFilesOf wd files)
           then OnDiscardAllChanges (modifiedFilesOf wd files)
                  (length (modifiedFilesOf wd files) =? length wd)
           else NoDiscard) with
    | OnDiscardChanges f =>
        files = [F.path f] /\ findByPath wd (F.path f) = Some f /\ In f wd
    | OnDiscardAllChanges fs isAll =>
        length files <> 1 /\ fs <> []
        /\ map F.path fs = filter (hasPath wd) files
        /\ Forall (fun f => findByPath wd (F.path f) = Some f /\ In f wd) fs
        /\ isAll = (length fs =? length wd)
    | NoDiscard => Forall (fun p => findByPath wd p = None) files
    end).
  { intros Hlen.
    pose proof (modifiedFilesOf_paths wd files) as Hpaths.
    pose proof (modifiedFilesOf_found wd files) as Hfound.
    pose proof (modifiedFilesOf_nil wd files) as Hnil.
    destruct (modifiedFilesOf wd files) as [|m ms]; simpl.
    - now apply Hnil.
    - refine (conj Hlen (conj _ (conj Hpaths (conj _ eq_refl)))).
      + discriminate.
      + eapply Forall_impl; [|exact Hfound].
        intros f Hf. split; auto. now apply findByPath_Some in Hf. }
  destruct files as [|file0 [|file1 rest]].
  - apply Several. discriminate.
  - destruct (findByPath wd file0) as [f|] eqn:E.
    + destruct (findByPath_Some _ _ _ E) as [Hin <-]. auto.
    + repeat constructor; auto.
  - apply Several. discriminate.
Qed.

(** X16: when the requested paths are pairwise distinct and so are the
    paths of the working directory, [onDiscardChanges] reports
    [isDiscardingAllChanges = true] only if the records it hands over are all
    the records of the working directory, each once. *)
Theorem discarding_all_means_every_record :
  forall this files fs,
    NoDup files ->
    NoDup (map F.path (workingDirectoryFiles (props this))) ->
    onDiscardChanges this files = OnDiscardAllChanges fs true ->
    Permutation fs (workingDirectoryFiles (props this)).
Proof.
  intros this files fs NDf NDw H.
  set (wd := workingDirectoryFiles (props this)) in *.
  assert (E : fs = modifiedFilesOf wd files
              /\ (length fs =? length wd) = true).
  { unfold onDiscardChanges in H. fold wd in H.
    destruct files as [|file0 [|file1 rest]];
      try (destruct (findByPath wd file0); discriminate);
      destruct (0 <? length (modifiedFilesOf wd _)); try discriminate;
      injection H as <- Hb; auto. }
  destruct E as [-> Hlen]. apply Nat.eqb_eq in Hlen.
  apply NoDup_Permutation_bis.
  - apply (NoDup_map_inv F.path). rewrite modifiedFilesOf_paths.
    now apply NoDup_filter.
  - lia.
  - intros f Hf.
    pose proof (modifiedFilesOf_found wd files) as Hall.
    rewrite Forall_forall in Hall. now apply (findByPath_Some wd (F.path f)), Hall.
Qed.

Lemma discarding_all_means_every_record_witness :
  let this := construct (noSelection threeFiles) in
  let requested := ["c.txt"; "a.txt"; "b.txt"]%string in
  exists fs,
    onDiscardChanges this requested = OnDiscardAllChanges fs true
    /\ Permutation fs (workingDirectoryFiles (props this)).
Proof.
  cbv zeta. eexists. split; [reflexivity|].
  apply (discarding_all_means_every_record
           (construct (noSelection threeFiles))
           ["c.txt"; "a.txt"; "b.txt"]%string).
  - repeat constructor; simpl; intuition discriminate.
  - repeat constructor; simpl; intuition discriminate.
  - reflexivity.
Defined.

(** With a path requested twice the flag can be raised although a record is
    left out. *)
Example discarding_all_with_a_repeated_path :
  onDiscardChanges (construct (noSelection [plainFile "a.txt"; plainFile "b.txt"]))
                   ["a.txt"; "a.txt"]%string
  = OnDiscardAllChanges
      [setIndex (setShown (plainFile "a.txt") true) 0;
       setIndex (setShown (plainFile "a.txt") true) 0] true.
Proof. reflexivity. Qed.

(** ** The placeholder of the commit message *)

(** X17: the placeholder that [render] asks for never fails: [render] calls
    [getPlaceholderMessage] with [singleFileCommit] set only when exactly one
    file is selected, and then the message names that file, with "Create" for
    a new or untracked file, "Delete" for a deleted one and "Update" for
    every other status; in all other cases it is "Summary (required)".  On its
    own, [getPlaceholderMessage] with [singleFileCommit] set and no file ends
    in a [TypeError]. *)
Theorem placeholder_of_render_never_fails :
  forall selected basename,
    (forall this,
        renderPlaceholder selected basename this =
        Returned
          match filter selected (workingDirectoryFiles (props this)) with
          | [f] =>
              match kind (F.status f) with
              | New | Untracked => ("Create " ++ basename (F.path f))%string
              | Deleted => ("Delete " ++ basename (F.path f))%string
              | _ => ("Update " ++ basename (F.path f))%string
              end
          | _ => "Summary (required)"%string
          end)
    /\ getPlaceholderMessage basename [] true = TypeError.
Proof.
  intros selected basename. split; [|reflexivity].
  intros this. unfold renderPlaceholder.
  destruct (filter selected (workingDirectoryFiles (props this)))
    as [|f [|g rest]]; reflexivity.
Qed.

(** * The [Diff] component: properties *)

Lemma renderText_None this d :
  Diff.renderText this d = None <-> Diff.file (Diff.props this) = None.
Proof.
  unfold Diff.renderText. destruct (Diff.file (Diff.props this)) as [f|].
  - split; [|discriminate].
    destruct (length (IDiff.hunks d) =? 0); [|discriminate].
    destruct (_ || _); [discriminate|].
    destruct (AppFileStatusKind_eqb _ Renamed); discriminate.
  - tauto.
Qed.

Lemma AppFileStatusKind_eqb_eq a b : AppFileStatusKind_eqb a b = true <-> a = b.
Proof. destruct a, b; simpl; split; congruence. Qed.

(** X18: [renderDiff] returns [null] exactly when the props hold no file and
    the diff is one that is rendered from the file: a text diff, a binary
    diff, a Sketch diff of type [Style], or a large text diff after "Show
    Diff".  With a file it always returns an element. *)
Theorem diff_renders_nothing_only_without_a_file :
  forall this d,
    Diff.renderDiff this d = None <->
    Diff.file (Diff.props this) = None
    /\ (IDiff.kind d = Text
        \/ IDiff.kind d = Binary
        \/ (IDiff.kind d = Sketch /\ IDiff.type d = Style)
        \/ (IDiff.kind d = LargeText
            /\ Diff.forceShowLargeDiff (Diff.state this) = true)).
Proof.
  intros this d. unfold Diff.renderDiff, Diff.renderLargeText.
  destruct (IDiff.kind d) eqn:K.
  - rewrite renderText_None. intuition.
  - split; [discriminate|]. intros [_ [H|[H|[[H _]|[H _]]]]]; discriminate.
  - unfold Diff.renderBinaryFile.
    destruct (Diff.file (Diff.props this)); split; try discriminate;
      intuition discriminate.
  - destruct (IDiff.type d) eqn:T; simpl.
    + rewrite renderText_None. intuition.
    + split; [discriminate|].
      intros [_ [H|[H|[[_ H]|[H _]]]]]; discriminate.
  - split; [discriminate|]. intros [_ [H|[H|[[H _]|[H _]]]]]; discriminate.
  - destruct (Diff.forceShowLargeDiff (Diff.state this)).
    + rewrite renderText_None. intuition.
    + split; [discriminate|].
      intros [_ [H|[H|[[H _]|[_ H]]]]]; discriminate.
  - split; [discriminate|]. intros [_ [H|[H|[[H _]|[H _]]]]]; discriminate.
Qed.

(** X19: a large text diff is first rendered as the prompt with the "Show
    Diff" button; after [showLargeDiff] it is rendered as the text diff of
    the same text and hunks is, and every diff of another kind is rendered as
    before. *)
Theorem show_large_diff_renders_it_as_text :
  forall this d,
    IDiff.kind d = LargeText ->
    Diff.renderDiff (Diff.construct (Diff.props this)) d = Some LargeDiffPrompt
    /\ Diff.renderDiff (Diff.showLargeDiff this) d
       = Diff.renderDiff this (IDiff.withKind d Text)
    /\ forall d', IDiff.kind d' <> LargeText ->
         Diff.renderDiff (Diff.showLargeDiff this) d'
         = Diff.renderDiff this d'.
Proof.
  intros this d K. unfold Diff.renderDiff. rewrite K. simpl.
  refine (conj eq_refl (conj eq_refl _)).
  intros d' K'. destruct (IDiff.kind d'); try reflexivity. contradiction.
Qed.

Lemma show_large_diff_renders_it_as_text_witness :
  let this := diffOf (Some (plainFile "a.txt")) largeDiff in
  IDiff.kind largeDiff = LargeText
  /\ Diff.renderDiff (Diff.showLargeDiff this) largeDiff
     = Some (TextDiffView (plainFile "a.txt") false "@@ -1 +1 @@"
                          [hunk "@@ -1 +1 @@"]).
Proof.
  cbv zeta. split; [reflexivity|].
  destruct (show_large_diff_renders_it_as_text
              (diffOf (Some (plainFile "a.txt")) largeDiff) largeDiff
              eq_refl) as [_ [H _]].
  rewrite H. reflexivity.
Defined.

(** X20: the conflict view is rendered only for a Sketch diff, not of type
    [Style], of a file whose status is [Conflicted]; whenever it is on
    screen, [onPickOurs] and [onPickTheirs] find the file and resolve the
    conflict of its path, so the error branch they guard against is never
    taken from it. *)
Theorem conflict_view_always_has_its_file :
  forall this d e,
    Diff.renderDiff this d = Some e ->
    showsConflictView e = true ->
    exists f,
      Diff.file (Diff.props this) = Some f
      /\ kind (F.status f) = Conflicted
      /\ IDiff.kind d = Sketch /\ IDiff.type d <> Style
      /\ Diff.onPickOurs this = ResolveConflict (F.path f) "ours"
      /\ Diff.onPickTheirs this = ResolveConflict (F.path f) "theirs".
Proof.
  intros this d e R S.
  assert (T : forall d', match Diff.renderText this d' with
                         | Some e' => showsConflictView e' = false
                         | None => True
                         end).
  { intros d'. unfold Diff.renderText.
    destruct (Diff.file (Diff.props this)); auto.
    destruct (length (IDiff.hunks d') =? 0); auto.
    destruct (_ || _); auto.
    destruct (AppFileStatusKind_eqb _ Renamed); auto. }
  unfold Diff.renderDiff, Diff.renderLargeText in R.
  destruct (IDiff.kind d) eqn:K.
  - specialize (T d). rewrite R in T. congruence.
  - injection R as <-. discriminate.
  - unfold Diff.renderBinaryFile in R.
    destruct (Diff.file (Diff.props this)); [|discriminate].
    injection R as <-. discriminate.
  - destruct (IDiff.type d) eqn:Ty; simpl in R.
    + specialize (T d). rewrite R in T. congruence.
    + injection R as <-. simpl in S.
      unfold Diff.onPickOurs, Diff.onPickTheirs.
      destruct (Diff.file (Diff.props this)) as [f|] eqn:Ef;
        [|discriminate].
      destruct (AppFileStatusKind_eqb (kind (F.status f)) Conflicted) eqn:C.
      * exists f. apply AppFileStatusKind_eqb_eq in C.
        repeat split; auto. discriminate.
      * destruct ((_ || _) && _); discriminate.
  - injection R as <-. discriminate.
  - destruct (Diff.forceShowLargeDiff (Diff.state this)).
    + specialize (T (IDiff.withKind d Text)). rewrite R in T. congruence.
    + injection R as <-. discriminate.
  - injection R as <-. discriminate.
Qed.

Lemma conflict_view_always_has_its_file_witness :
  let this := diffOf (Some conflictedDocument) sketchDiff in
  exists e,
    Diff.renderDiff this sketchDiff = Some e
    /\ showsConflictView e = true
    /\ exists f,
         Diff.file (Diff.props this) = Some f
         /\ kind (F.status f) = Conflicted
         /\ IDiff.kind sketchDiff = Sketch /\ IDiff.type sketchDiff <> Style
         /\ Diff.onPickOurs this = ResolveConflict (F.path f) "ours"
         /\ Diff.onPickTheirs this = ResolveConflict (F.path f) "theirs".
Proof.
  cbv zeta. eexists. split; [reflexivity|]. split; [reflexivity|].
  apply (conflict_view_always_has_its_file
           (diffOf (Some conflictedDocument) sketchDiff) sketchDiff _
           eq_refl eq_refl).
Defined.

(** X21: the line-by-line view of a text diff is rendered only with a file
    and at least one hunk, and it is given that file, the [readOnly] flag of
    the props and the hunks of the diff; a diff without hunks is never shown
    line by line. *)
Theorem text_view_needs_a_file_and_hunks :
  forall this d e,
    Diff.renderDiff this d = Some e ->
    showsTextDiff e = true ->
    exists f,
      Diff.file (Diff.props this) = Some f
      /\ IDiff.hunks d <> []
      /\ e = TextDiffView f (Diff.readOnly (Diff.props this))
                          (IDiff.text d) (IDiff.hunks d).
Proof.
  intros this d e R S.
  assert (T : forall d' e', Diff.renderText this d' = Some e' ->
                            showsTextDiff e' = true ->
            exists f,
              Diff.file (Diff.props this) = Some f
              /\ IDiff.hunks d' <> []
              /\ e' = TextDiffView f (Diff.readOnly (Diff.props this))
                                   (IDiff.text d') (IDiff.hunks d')).
  { intros d' e'. unfold Diff.renderText.
    destruct (Diff.file (Diff.props this)) as [f|]; [|discriminate].
    destruct (IDiff.hunks d') as [|h hs] eqn:H; simpl.
    - destruct (_ || _); [intros [= <-]; discriminate|].
      destruct (AppFileStatusKind_eqb _ Renamed); intros [= <-]; discriminate.
    - intros [= <-] _. exists f. repeat split; auto. discriminate. }
  unfold Diff.renderDiff, Diff.renderLargeText in R.
  destruct (IDiff.kind d) eqn:K.
  - eauto.
  - injection R as <-. discriminate.
  - unfold Diff.renderBinaryFile in R.
    destruct (Diff.file (Diff.props this)); [|discriminate].
    injection R as <-. discriminate.
  - destruct (IDiff.type d) eqn:Ty; simpl in R.
    + eauto.
    + injection R as <-. simpl in S. exfalso.
      destruct (Diff.file (Diff.props this)) as [f|]; [|discriminate].
      destruct (AppFileStatusKind_eqb (kind (F.status f)) Conflicted);
        [discriminate|].
      destruct ((_ || _) && _); discriminate.
  - injection R as <-. discriminate.
  - destruct (Diff.forceShowLargeDiff (Diff.state this)).
    + apply (T (IDiff.withKind d Text)); auto.
    + injection R as <-. discriminate.
  - injection R as <-. discriminate.
Qed.

Lemma text_view_needs_a_file_and_hunks_witness :
  let this := Diff.showLargeDiff (diffOf (Some (plainFile "a.txt")) largeDiff) in
  exists e,
    Diff.renderDiff this largeDiff = Some e
    /\ showsTextDiff e = true
    /\ exists f,
         Diff.file (Diff.props this) = Some f
         /\ IDiff.hunks largeDiff <> []
         /\ e = TextDiffView f (Diff.readOnly (Diff.props this))
                             (IDiff.text largeDiff) (IDiff.hunks largeDiff).
Proof.
  cbv zeta. eexists. split; [reflexivity|]. split; [reflexivity|].
  apply (text_view_needs_a_file_and_hunks
           (Diff.showLargeDiff (diffOf (Some (plainFile "a.txt")) largeDiff))
           largeDiff _ eq_refl eq_refl).
Defined.

(** * The context menus: properties *)

Lemma In_setAdd e x s : In e (setAdd x s) <-> e = x \/ In e s.
Proof.
  unfold setAdd. destruct (existsb (String.eqb x) s) eqn:E.
  - split; auto. intros [->|H]; auto.
    apply existsb_exists in E as [y [Hy Hxy]].
    apply String.eqb_eq in Hxy. now subst.
  - rewrite in_app_iff. simpl. intuition.
Qed.

Lemma NoDup_setAdd x s : NoDup s -> NoDup (setAdd x s).
Proof.
  unfold setAdd. intros H. destruct (existsb (String.eqb x) s) eqn:E; auto.
  apply (Permutation_NoDup (Permutation_cons_append s x)).
  constructor; auto. intros Hin.
  assert (existsb (String.eqb x) s = true); [|congruence].
  apply existsb_exists. exists x. split; auto. apply String.eqb_refl.
Qed.

Lemma length_zero_empty (s : string) : (String.length s =? 0) = true <-> s = ""%string.
Proof. destruct s; simpl; split; congruence. Qed.

Lemma foundFiles_cons find id ids :
  foundFiles find (id :: ids) = foundFiles find [id] ++ foundFiles find ids.
Proof. unfold foundFiles. simpl. now rewrite app_nil_r. Qed.

Lemma addItemToArray_spec find ext g id :
  selectedFiles (addItemToArray find ext g id)
  = selectedFiles g ++ foundFiles find [id]
  /\ paths (addItemToArray find ext g id)
     = paths g ++ map F.path (foundFiles find [id])
  /\ (NoDup (extensions g) -> NoDup (extensions (addItemToArray find ext g id)))
  /\ (forall e, In e (extensions (addItemToArray find ext g id)) <->
                In e (extensions g)
                \/ (e <> ""%string
                    /\ exists f, In f (foundFiles find [id])
                                 /\ e = ext (F.path f))).
Proof.
  unfold addItemToArray, foundFiles. simpl.
  destruct (find id) as [f|]; simpl.
  - refine (conj eq_refl (conj eq_refl _)).
    destruct (String.length (ext (F.path f)) =? 0) eqn:L; simpl.
    + apply length_zero_empty in L. split; auto.
      intros e. split; auto.
      intros [H|[Hne [f' [[<-|[]] ->]]]]; auto. contradiction.
    + split; [apply NoDup_setAdd|].
      intros e. rewrite In_setAdd. split.
      * intros [->|H]; auto. right. split; eauto.
        intros E. rewrite E in L. discriminate.
      * intros [H|[_ [f' [[<-|[]] ->]]]]; auto.
  - rewrite !app_nil_r. refine (conj eq_refl (conj eq_refl (conj (fun H => H) _))).
    intros e. split; auto. intros [H|[_ [f' [[] _]]]]; auto.
Qed.

Lemma fold_addItemToArray_spec find ext ids : forall g,
  selectedFiles (fold_left (addItemToArray find ext) ids g)
  = selectedFiles g ++ foundFiles find ids
  /\ paths (fold_left (addItemToArray find ext) ids g)
     = paths g ++ map F.path (foundFiles find ids)
  /\ (NoDup (extensions g) ->
      NoDup (extensions (fold_left (addItemToArray find ext) ids g)))
  /\ (forall e, In e (extensions (fold_left (addItemToArray find ext) ids g)) <->
                In e (extensions g)
                \/ (e <> ""%string
                    /\ exists f, In f (foundFiles find ids)
                                 /\ e = ext (F.path f))).
Proof.
  induction ids as [|id ids IH]; intros g.
  - simpl. rewrite !app_nil_r. refine (conj eq_refl (conj eq_refl (conj (fun H => H) _))).
    intros e. split; auto. intros [H|[_ [f' [[] _]]]]; auto.
  - cbn [fold_left].
    destruct (IH (addItemToArray find ext g id)) as [S [P [N E]]].
    destruct (addItemToArray_spec find ext g id) as [S1 [P1 [N1 E1]]].
    rewrite foundFiles_cons.
    refine (conj _ (conj _ (conj _ _))).
    + now rewrite S, S1, app_assoc.
    + now rewrite P, P1, map_app, app_assoc.
    + auto.
    + intros e. rewrite E, E1. split.
      * intros [[H|[Hne [f [Hf ->]]]]|[Hne [f [Hf ->]]]]; auto;
          right; split; auto; exists f; split; auto; apply in_or_app; auto.
      * intros [H|[Hne [f [Hf ->]]]]; auto.
        apply in_app_or in Hf as [Hf|Hf]; [left|]; right; split; eauto.
Qed.

Lemma gather_spec find ext this id :
  selectedFiles (gather find ext this id) = foundFiles find (menuScope this id)
  /\ paths (gather find ext this id)
     = map F.path (foundFiles find (menuScope this id))
  /\ NoDup (extensions (gather find ext this id))
  /\ (forall e, In e (extensions (gather find ext this id)) <->
                e <> ""%string
                /\ exists f, In f (foundFiles find (menuScope this id))
                             /\ e = ext (F.path f)).
Proof.
  unfold gather, menuScope.
  set (empty := {| selectedFiles := []; paths := []; extensions := [] |}).
  assert (G : forall ids,
    selectedFiles (fold_left (addItemToArray find ext) ids empty)
    = foundFiles find ids
    /\ paths (fold_left (addItemToArray find ext) ids empty)
       = map F.path (foundFiles find ids)
    /\ NoDup (extensions (fold_left (addItemToArray find ext) ids empty))
    /\ (forall e, In e (extensions (fold_left (addItemToArray find ext) ids empty)) <->
                  e <> ""%string
                  /\ exists f, In f (foundFiles find ids)
                               /\ e = ext (F.path f))).
  { intros ids.
    destruct (fold_addItemToArray_spec find ext ids empty) as [S [P [N E]]].
    refine (conj S (conj P (conj (N (NoDup_nil _)) _))).
    intros e. rewrite E. simpl. tauto. }
  destruct (existsb (String.eqb id) (selectedFileIDs (props this))).
  - apply G.
  - apply (G [id]).
Qed.

Lemma ignoreAllPatterns_app a b :
  ignoreAllPatterns (a ++ b) = ignoreAllPatterns a ++ ignoreAllPatterns b.
Proof. apply flat_map_app. Qed.

Lemma ignoreAllPatterns_extensions l :
  ignoreAllPatterns
    (map (fun extension =>
            Item ("Ignore All " ++ extension ++ " Files (Add to .gitignore)")
                 (ActIgnore ("*" ++ extension)) None) l)
  = map (String.append "*") l.
Proof.
  unfold ignoreAllPatterns.
  induction l as [|e l IH]; simpl; [reflexivity | f_equal; exact IH].
Qed.

Lemma firstn_incl {A} n (l : list A) x : In x (firstn n l) -> In x l.
Proof.
  intros H. rewrite <- (firstn_skipn n l). apply in_or_app. now left.
Qed.

Lemma NoDup_firstn_of {A} n (l : list A) : NoDup l -> NoDup (firstn n l).
Proof.
  intros H. rewrite <- (firstn_skipn n l) in H.
  now apply NoDup_app_remove_r in H.
Qed.

Lemma NoDup_map_star l : NoDup l -> NoDup (map (String.append "*") l).
Proof.
  induction 1 as [|x l Hx Hl IH]; simpl; constructor; auto.
  intros Hin. apply in_map_iff in Hin as [y [Hy Hin]].
  simpl in Hy. injection Hy as ->. contradiction.
Qed.

Lemma existsb_filter_length {A} (p : A -> bool) l :
  existsb p l = (0 <? length (filter p l)).
Proof.
  induction l as [|x l IH]; simpl; auto. destruct (p x); simpl; auto.
Qed.

(** X22: the item menu acts on the files in scope: the files of the whole
    selection when the clicked id belongs to it, of the clicked id alone
    otherwise -- each looked up by [findFileWithID], in order, ids without a
    file being skipped.  [paths] holds their paths, and [extensions] holds
    the non-empty extensions of those paths, each once. *)
Theorem item_menu_gathers_the_files_in_scope :
  forall findFileWithID extname this id,
    let g := gather findFileWithID extname this id in
    let scope :=
      if existsb (String.eqb id) (selectedFileIDs (props this))
      then selectedFileIDs (props this) else [id] in
    selectedFiles g = foundFiles findFileWithID scope
    /\ paths g = map F.path (selectedFiles g)
    /\ NoDup (extensions g)
    /\ (forall e, In e (extensions g) <->
                  e <> ""%string
                  /\ exists f, In f (selectedFiles g)
                               /\ e = extname (F.path f)).
Proof.
  intros find ext this id. cbv zeta.
  destruct (gather_spec find ext this id) as [S [P [N E]]].
  unfold menuScope in *. rewrite S. auto.
Qed.

(** X23: the item menu holds at most five "Ignore All ... Files" entries;
    their patterns are pairwise different, and each is [*] followed by the
    non-empty extension of a file in scope. *)
Theorem item_menu_has_at_most_five_extension_entries :
  forall findFileWithID extname basename l1 l2 l3 l4 editor ask
         this id path status,
    let menu :=
      onItemContextMenu findFileWithID extname basename l1 l2 l3 l4 editor ask
                        this id path status in
    length (ignoreAllPatterns menu) <= 5
    /\ NoDup (ignoreAllPatterns menu)
    /\ forall p, In p (ignoreAllPatterns menu) ->
         exists f,
           In f (foundFiles findFileWithID (menuScope this id))
           /\ extname (F.path f) <> ""%string
           /\ p = ("*" ++ extname (F.path f))%string.
Proof.
  intros find ext base l1 l2 l3 l4 editor ask this id path status. cbv zeta.
  destruct (gather_spec find ext this id) as [S [P [N E]]].
  assert (M : ignoreAllPatterns
                (onItemContextMenu find ext base l1 l2 l3 l4 editor ask
                                   this id path status)
              = map (String.append "*")
                    (firstn 5 (extensions (gather find ext this id)))).
  { unfold onItemContextMenu.
    rewrite !ignoreAllPatterns_app, ignoreAllPatterns_extensions.
    destruct (length (paths (gather find ext this id)) =? 1);
      [|destruct (1 <? length (paths (gather find ext this id)))];
      simpl; now rewrite app_nil_r. }
  rewrite M. refine (conj _ (conj _ _)).
  - rewrite length_map. apply firstn_le_length.
  - now apply NoDup_map_star, NoDup_firstn_of.
  - intros p Hp. apply in_map_iff in Hp as [e [<- He]].
    apply firstn_incl, E in He as [Hne [f [Hf ->]]]. eauto.
Qed.

(** X24: the entry that ignores several selected files appears only with at
    least two files in scope; it ignores their paths other than those named
    [.gitignore], and it is enabled exactly when at least one path is left
    to ignore. *)
Theorem ignore_several_is_enabled_iff_a_path_is_left :
  forall findFileWithID extname basename l1 l2 l3 l4 editor ask
         this id path status label patterns enabled,
    In (Item label (ActIgnoreSeveral patterns) enabled)
       (onItemContextMenu findFileWithID extname basename l1 l2 l3 l4 editor
                          ask this id path status) ->
    let scopePaths :=
      map F.path (foundFiles findFileWithID (menuScope this id)) in
    2 <= length scopePaths
    /\ patterns
       = filter (fun p => negb (String.eqb (basename p) ".gitignore")) scopePaths
    /\ enabled = Some (0 <? length patterns).
Proof.
  intros find ext base l1 l2 l3 l4 editor ask this id path status
         label patterns enabled Hin. cbv zeta.
  destruct (gather_spec find ext this id) as [S [P [N E]]].
  unfold onItemContextMenu in Hin. rewrite <- P.
  set (g := gather find ext this id) in *.
  rewrite !in_app_iff in Hin. destruct Hin as [Hin|[Hin|[Hin|Hin]]].
  - simpl in Hin. destruct Hin as [H|[H|[H|[]]]]; discriminate.
  - destruct (length (paths g) =? 1) eqn:L1.
    + destruct Hin as [H|[]]. discriminate.
    + destruct (1 <? length (paths g)) eqn:L2; [|destruct Hin].
      destruct Hin as [H|[]]. injection H as _ <- <-.
      apply Nat.ltb_lt in L2. refine (conj L2 (conj eq_refl _)).
      f_equal. apply existsb_filter_length.
  - apply in_map_iff in Hin as [e [H _]]. discriminate.
  - simpl in Hin. destruct Hin as [H|[H|[H|[H|[H|[]]]]]]; discriminate.
Qed.

Lemma ignore_several_is_enabled_iff_a_path_is_left_witness :
  In (Item "Ignore 3 Selected Files (Add to .gitignore)"
           (ActIgnoreSeveral ["a.ts"; "b.ts"]%string) (Some true))
     (menuOf ["a.ts"; ".gitignore"; "b.ts"]%string "a.ts")
  /\ ["a.ts"; "b.ts"]%string
     = filter (fun p => negb (String.eqb p ".gitignore"))
              (map F.path
                   (foundFiles (findByID sourceFiles)
                               ["a.ts"; ".gitignore"; "b.ts"]%string)).
Proof.
  assert (H : In (Item "Ignore 3 Selected Files (Add to .gitignore)"
                       (ActIgnoreSeveral ["a.ts"; "b.ts"]%string) (Some true))
                 (menuOf ["a.ts"; ".gitignore"; "b.ts"]%string "a.ts")).
  { vm_compute. right. right. right. left. reflexivity. }
  split; [exact H|].
  exact (proj1 (proj2
    (ignore_several_is_enabled_iff_a_path_is_left
       (findByID sourceFiles) afterLastDot (fun p => p)
       "Open in external editor" "Copy file path" "Reveal" "Open" None true
       (construct {| workingDirectoryFiles := sourceFiles;
                     selectedFileIDs := ["a.ts"; ".gitignore"; "b.ts"]%string;
                     selectedSketchFileID := None;
                     selectedSketchPartID := None |})
       "a.ts" "a.ts" {| kind := Modified; payload := 0 |}
       "Ignore 3 Selected Files (Add to .gitignore)"
       ["a.ts"; "b.ts"]%string (Some true) H))).
Defined.

(** X25: a right click outside the selection never discards the selection:
    the first entry of the item menu then runs [onDiscardChanges] on at most
    the path of the clicked file, which ends in [props.onDiscardChanges] for
    a record of the working directory with that path, or in no call when the
    id or the path is not found -- never in [props.onDiscardAllChanges]. *)
Theorem click_outside_the_selection_discards_one_file_at_most :
  forall findFileWithID extname basename l1 l2 l3 l4 editor ask
         this id path status,
    ~ In id (selectedFileIDs (props this)) ->
    match hd Separator
             (onItemContextMenu findFileWithID extname basename l1 l2 l3 l4
                                editor ask this id path status) with
    | Item _ action _ =>
        match runDiscard this action with
        | OnDiscardAllChanges _ _ => False
        | OnDiscardChanges m =>
            In m (workingDirectoryFiles (props this))
            /\ exists f, findFileWithID id = Some f /\ F.path m = F.path f
        | NoDiscard =>
            forall f, findFileWithID id = Some f ->
                      findByPath (workingDirectoryFiles (props this)) (F.path f)
                      = None
        end
    | Separator => False
    end.
Proof.
  intros find ext base l1 l2 l3 l4 editor ask this id path status Hout.
  assert (Sc : menuScope this id = [id]).
  { unfold menuScope.
    destruct (existsb (String.eqb id) (selectedFileIDs (props this))) eqn:E; auto.
    apply existsb_exists in E as [y [Hy Hxy]].
    apply String.eqb_eq in Hxy. subst. contradiction. }
  destruct (gather_spec find ext this id) as [_ [P _]].
  rewrite Sc in P. unfold onItemContextMenu. cbn [hd app runDiscard].
  rewrite P. unfold foundFiles. simpl.
  destruct (find id) as [f|] eqn:F; simpl.
  - destruct (findByPath (workingDirectoryFiles (props this)) (F.path f))
      as [m|] eqn:M.
    + apply findByPath_Some in M as [Hin Hp]. split; eauto.
    + intros f' [= <-]. exact M.
  - discriminate.
Qed.

Lemma click_outside_the_selection_discards_one_file_at_most_witness :
  let this := construct {| workingDirectoryFiles := sourceFiles;
                           selectedFileIDs := ["a.ts"; "b.ts"]%string;
                           selectedSketchFileID := None;
                           selectedSketchPartID := None |} in
  ~ In "c.md"%string (selectedFileIDs (props this))
  /\ match hd Separator (menuOf ["a.ts"; "b.ts"]%string "c.md") with
     | Item _ action _ =>
         match runDiscard this action with
         | OnDiscardAllChanges _ _ => False
         | OnDiscardChanges m =>
             In m (workingDirectoryFiles (props this))
             /\ exists f, findByID sourceFiles "c.md" = Some f
                          /\ F.path m = F.path f
         | NoDiscard =>
             forall f, findByID sourceFiles "c.md" = Some f ->
                       findByPath (workingDirectoryFiles (props this)) (F.path f)
                       = None
         end
     | Separator => False
     end.
Proof.
  cbv zeta.
  assert (H : ~ In "c.md"%string ["a.ts"; "b.ts"]%string).
  { simpl. intros [E|[E|[]]]; discriminate. }
  split; [exact H|].
  exact (click_outside_the_selection_discards_one_file_at_most
           (findByID sourceFiles) afterLastDot (fun p => p)
           "Open in external editor" "Copy file path" "Reveal" "Open"
           None true
           (construct {| workingDirectoryFiles := sourceFiles;
                         selectedFileIDs := ["a.ts"; "b.ts"]%string;
                         selectedSketchFileID := None;
                         selectedSketchPartID := None |})
           "c.md" "c.md" {| kind := Modified; payload := 0 |} H).
Defined.

(** * Well-grouped change lists: properties *)

Lemma eqSegments_eq a b : eqSegments a b = true <-> a = b.
Proof.
  revert b. induction a as [|x a IH]; destruct b as [|y b]; simpl;
    try (split; [discriminate | congruence]); [tauto|].
  rewrite andb_true_iff, String.eqb_eq, IH. split.
  - now intros [-> ->].
  - now intros [= -> ->].
Qed.

Lemma partChange_loops f arr :
  partChange f arr <-> loops f = true /\ arr = partsOf f.
Proof.
  unfold partChange, loops, partsOf. destruct (F.parts f) as [parts|].
  - split.
    + intros ([= ->] & -> & ->). auto.
    + intros [H ->]. apply andb_true_iff in H as [-> H].
      apply negb_true_iff in H. auto.
  - split; [intros [H _] | intros [H _]]; discriminate.
Qed.

Lemma loops_partChange f : loops f = true -> partChange f (partsOf f).
Proof. intros H. now apply partChange_loops. Qed.

Lemma plain_loops f : plainChange f <-> loops f = false.
Proof.
  unfold plainChange, loops. destruct (F.parts f) as [parts|]; [|tauto].
  destruct (F.sketchFile f), (isNewSketchFile parts (F.path f)); simpl;
    intuition discriminate.
Qed.

Lemma hasPrefix_spec prefix g :
  hasPrefix prefix g = true <->
  loops g = true /\ firstn (length prefix) (partsOf g) = prefix.
Proof. unfold hasPrefix. now rewrite andb_true_iff, eqSegments_eq. Qed.

Lemma hasPrefix_firstn g n :
  loops g = true -> n < length (partsOf g) ->
  hasPrefix (firstn (S n) (partsOf g)) g = true.
Proof.
  intros Hl Hn. apply hasPrefix_spec. split; auto.
  rewrite firstn_length_le by lia. reflexivity.
Qed.

Lemma hasPrefix_inv prefix g :
  prefix <> [] -> hasPrefix prefix g = true ->
  exists n, n < length (partsOf g) /\ prefix = firstn (S n) (partsOf g).
Proof.
  intros Hne H. apply hasPrefix_spec in H as [_ H].
  destruct prefix as [|s prefix]; [congruence|].
  exists (length prefix). simpl length in H. split; [|now rewrite H].
  assert (L : length (firstn (S (length prefix)) (partsOf g))
              = S (length prefix)) by now rewrite H.
  rewrite length_firstn in L. lia.
Qed.

(** In a well-grouped list the skip test tells whether the group is there. *)
Lemma wellGrouped_skip files j f arr i part :
  wellGrouped files = true ->
  nth_error files j = Some f -> partChange f arr ->
  nth_error arr i = Some part ->
  samePart part (previousPartsAt files j) i
  = existsb (hasPrefix (firstn (S i) arr)) (firstn j files).
Proof.
  intros Hw Hj Hpc Hi. apply partChange_loops in Hpc as [Hl ->].
  unfold wellGrouped in Hw. rewrite forallb_forall in Hw.
  assert (Lj : j < length files) by (apply nth_error_Some; congruence).
  specialize (Hw j). rewrite Hj in Hw.
  assert (Hin : In j (seq 0 (length files))) by (apply in_seq; lia).
  specialize (Hw Hin). unfold wellGroupedAt in Hw. rewrite Hl in Hw.
  simpl in Hw. rewrite forallb_forall in Hw.
  assert (Li : i < length (partsOf f)) by (apply nth_error_Some; congruence).
  specialize (Hw i). 
  assert (Hin' : In i (seq 0 (length (partsOf f)))) by (apply in_seq; lia).
  specialize (Hw Hin'). apply Bool.eqb_prop in Hw.
  unfold skipsAt in Hw. now rewrite Hi in Hw.
Qed.

Lemma groupIdsOf_In g arr n :
  partChange g arr -> n < length arr ->
  In (join (firstn (S n) arr)) (groupIdsOf g).
Proof.
  intros Hpc Hn. apply partChange_loops in Hpc as [Hl ->].
  unfold groupIdsOf. rewrite Hl. apply in_map_iff. exists n. split; auto.
  apply in_seq. lia.
Qed.

Lemma idsApart_spec files f g k :
  idsApart files = true -> In f files -> In g files ->
  In k (groupIdsOf g) -> F.id f <> k.
Proof.
  unfold idsApart. rewrite forallb_forall. intros H Hf Hg Hk E.
  specialize (H f Hf). rewrite forallb_forall in H. specialize (H g Hg).
  apply negb_true_iff in H.
  assert (X : existsb (String.eqb (F.id f)) (groupIdsOf g) = true);
    [|congruence].
  apply existsb_exists. exists k. split; auto. now apply String.eqb_eq.
Qed.

(** ** Induction over a pass, position by position *)

Lemma forEachFrom_inv_at {A St : Type} (cb : St -> A -> nat -> list A -> St)
    (arr : list A) (Inv : nat -> St -> Prop) :
  (forall s x i, nth_error arr i = Some x -> Inv i s -> Inv (S i) (cb s x i arr)) ->
  forall rest i s,
    (forall j x, nth_error rest j = Some x -> nth_error arr (i + j) = Some x) ->
    Inv i s -> Inv (i + length rest) (forEachFrom cb arr i rest s).
Proof.
  intros Hcb rest; induction rest as [|x rest IH]; intros i s Hsuf Hs; simpl.
  - now rewrite Nat.add_0_r.
  - replace (i + S (length rest)) with (S i + length rest) by lia. apply IH.
    + intros j y Hj. replace (S i + j) with (i + S j) by lia. now apply Hsuf.
    + apply Hcb; [|exact Hs]. specialize (Hsuf 0 x eq_refl).
      now rewrite Nat.add_0_r in Hsuf.
Qed.

Lemma forEach_inv_at {A St : Type} (cb : St -> A -> nat -> list A -> St)
    (arr : list A) (Inv : nat -> St -> Prop) :
  (forall s x i, nth_error arr i = Some x -> Inv i s -> Inv (S i) (cb s x i arr)) ->
  forall s, Inv 0 s -> Inv (length arr) (forEach cb arr s).
Proof.
  intros Hcb s Hs. unfold forEach.
  apply (forEachFrom_inv_at cb arr Inv Hcb arr 0 s); auto.
Qed.

Lemma closureAt_0 files oldList : closureAt files oldList 0 = initial.
Proof. reflexivity. Qed.

Lemma closureAt_length files oldList :
  closureAt files oldList (length files) = fst (getFileListRun files oldList).
Proof. unfold closureAt, getFileListRun. now rewrite firstn_all. Qed.

Lemma pass_inv_at files oldList (Inv : nat -> Closure -> Prop) :
  Inv 0 initial ->
  (forall j f, nth_error files j = Some f ->
     Inv j (closureAt files oldList j) ->
     Inv (S j) (fst (fileStep files oldList (closureAt files oldList j) f j))) ->
  forall j, j <= length files -> Inv j (closureAt files oldList j).
Proof.
  intros H0 Hstep. induction j as [|j IH]; intros Hj; [exact H0|].
  destruct (nth_error files j) as [f|] eqn:E.
  - rewrite (closureAt_S _ _ _ _ E). apply Hstep; auto. apply IH. lia.
  - apply nth_error_None in E. lia.
Qed.


(** ** Group ids determine the prefix *)

Lemma noSlash_split x y ra rb :
  hasSlash x = false -> hasSlash y = false ->
  (ra = ""%string \/ exists r, ra = String "/" r) ->
  (rb = ""%string \/ exists r, rb = String "/" r) ->
  (x ++ ra)%string = (y ++ rb)%string -> x = y /\ ra = rb.
Proof.
  revert y. induction x as [|a x IH]; intros y Hx Hy Ha Hb E.
  - destruct y as [|b y]; simpl in *; auto.
    apply orb_false_iff in Hy as [Hy _].
    destruct Ha as [->|[r ->]]; [discriminate|].
    injection E as <- _. discriminate.
  - simpl in Hx. apply orb_false_iff in Hx as [Hx1 Hx2].
    destruct y as [|b y]; simpl in *.
    + destruct Hb as [->|[r ->]]; [discriminate|].
      injection E as -> _. discriminate.
    + apply orb_false_iff in Hy as [_ Hy]. injection E as -> E.
      destruct (IH y Hx2 Hy Ha Hb E) as [-> ->]. auto.
Qed.

Lemma join_cons s l :
  join (s :: l)
  = (s ++ match l with [] => "" | _ => "/" ++ join l end)%string.
Proof.
  unfold join. destruct l; simpl; auto.
  clear. induction s; simpl; congruence.
Qed.

Lemma join_inj a : forall b,
  Forall segmentOk a -> Forall segmentOk b -> join a = join b -> a = b.
Proof.
  induction a as [|x a IH]; intros b Ha Hb E.
  - destruct b as [|y b]; auto. exfalso.
    inversion Hb as [|? ? [Hy _] _]; subst.
    symmetry in E. revert E. now apply join_cons_nonempty.
  - destruct b as [|y b].
    + exfalso. inversion Ha as [|? ? [Hx _] _]; subst.
      revert E. now apply join_cons_nonempty.
    + inversion Ha as [|? ? [Hx1 Hx2] Ha']; subst.
      inversion Hb as [|? ? [Hy1 Hy2] Hb']; subst.
      rewrite !join_cons in E.
      assert (Ta : forall l : list string,
                (match l with [] => "" | _ => "/" ++ join l end)%string
                = ""%string
                \/ exists r, (match l with [] => "" | _ => "/" ++ join l end)%string
                             = String "/" r).
      { intros [|z l]; [now left | right]. eexists. reflexivity. }
      destruct (noSlash_split _ _ _ _ Hx2 Hy2 (Ta a) (Ta b) E) as [-> E'].
      f_equal. apply IH; auto.
      destruct a as [|a0 a], b as [|b0 b]; auto; try discriminate.
      simpl in E'. now injection E'.
Qed.

Lemma Forall_firstn {A : Type} (P : A -> Prop) n l :
  Forall P l -> Forall P (firstn n l).
Proof.
  intros H. rewrite Forall_forall in *. intros x Hx. apply H.
  rewrite <- (firstn_skipn n l). apply in_or_app. now left.
Qed.

Lemma partsOk_partsOf f : partsOk f -> Forall segmentOk (partsOf f).
Proof.
  unfold partsOk, partsOf. destruct (F.parts f); auto.
Qed.

(** The id of the group at depth [i] is the join of the first [i + 1]
    segments. *)
Lemma idOfPart_prefix arr i part :
  Forall segmentOk arr -> nth_error arr i = Some part ->
  idOfPart arr i part = join (firstn (S i) arr).
Proof.
  intros Hok Hi. rewrite (firstn_S_nth _ _ _ Hi). now apply idOfPart_join.
Qed.

(** The parent found when a group is synthesized, and when a part file is
    emitted, is what [fakePartsAcc] has under the id. *)
Lemma findParent_reset_read c i parentId :
  IdsOk c ->
  findParent (resetParent c i) i parentId
  = Dict.read parentId (fakePartsAcc c).
Proof.
  intros Hids. unfold findParent, resetParent.
  destruct (i <=? 1) eqn:L; simpl; auto.
  apply Nat.leb_gt in L.
  destruct (parentPartChange c) as [q| |] eqn:Hp; auto.
  - assert (L' : (1 <? i) = true) by (apply Nat.ltb_lt; lia). rewrite L'. simpl.
    destruct (String.eqb (P.id q) parentId) eqn:E; simpl; auto.
    apply String.eqb_eq in E. subst parentId. symmetry.
    apply read_Own. now apply (ids_parent c Hids).
  - assert (L' : (1 <? i) = true) by (apply Nat.ltb_lt; lia). now rewrite L'.
Qed.

Lemma fileParent_read c parts :
  IdsOk c -> 1 < length parts ->
  fileParent c parts = Dict.read (join parts) (fakePartsAcc c).
Proof.
  intros Hids L. unfold fileParent.
  assert (L' : (1 <? length parts) = true) by (apply Nat.ltb_lt; lia).
  destruct (parentPartChange c) as [q| |] eqn:Hp; rewrite ?L'; auto.
  simpl. destruct (String.eqb (P.id q) (join parts)) eqn:E; simpl; auto.
  destruct (length parts <=? 1) eqn:L2; [apply Nat.leb_le in L2; lia|].
  apply String.eqb_eq in E. rewrite <- E. symmetry.
  apply read_Own. now apply (ids_parent c Hids).
Qed.

Lemma fileParent_short c parts :
  length parts <= 1 ->
  fileParent c parts = Undefined
  \/ fileParent c parts = Dict.read (join parts) (fakePartsAcc c).
Proof.
  intros L. unfold fileParent.
  assert (L1 : (1 <? length parts) = false) by (apply Nat.ltb_ge; lia).
  assert (L2 : (length parts <=? 1) = true) by (apply Nat.leb_le; lia).
  rewrite L1, L2. simpl. destruct (parentPartChange c); auto.
Qed.

Lemma read_empty_key (d : Dict.t P.t) :
  Dict.get ""%string d = None -> Dict.read ""%string d = Undefined.
Proof. intros H. unfold Dict.read. now rewrite H. Qed.

Lemma parentOpened_read oldList c k :
  OpenedOk oldList c -> DepthOk c ->
  Dict.get k (fakePartsAcc c) <> None ->
  parentOpened (Dict.read k (fakePartsAcc c)) = expandedOf oldList k
  /\ noParentOrOpened (Dict.read k (fakePartsAcc c)) = expandedOf oldList k.
Proof.
  intros Hop Hd H. unfold Dict.read.
  destruct (Dict.get k (fakePartsAcc c)) as [q|] eqn:G; [|congruence].
  simpl. rewrite (opened_expandedOf oldList c k q Hop Hd G). auto.
Qed.

Lemma parentOpened_true oldList c k :
  OpenedOk oldList c -> DepthOk c ->
  parentOpened (Dict.read k (fakePartsAcc c)) = true ->
  Dict.get k (fakePartsAcc c) <> None /\ expandedOf oldList k = true.
Proof.
  intros Hop Hd. unfold Dict.read.
  destruct (Dict.get k (fakePartsAcc c)) as [q|] eqn:G.
  - simpl. rewrite (opened_expandedOf oldList c k q Hop Hd G).
    split; [discriminate | auto].
  - destruct (Dict.inherited k); discriminate.
Qed.

(** ** The shown flags, step by step *)

(** A group of the table after a turn of [forEach] was there before, up to
    its status, or is the one the turn has synthesized. *)
Lemma partStep_acc_Fake oldList pp f c part i arr k p :
  Dict.get k (acc (partStep oldList pp f c part i arr)) = Some (Fake p) ->
  (exists q, Dict.get k (acc c) = Some (Fake q)
             /\ P.opened p = P.opened q /\ P.shown p = P.shown q
             /\ P.parts p = P.parts q)
  \/ (samePart part pp i = false /\ k = idOfPart arr i part
      /\ p = partChangeOf oldList f (resetParent c i) part i arr).
Proof.
  destruct (samePart part pp i) eqn:E.
  - destruct (partStep_same oldList pp f c part i arr E) as (-> & _).
    intros H. left. destruct (isConflicted f); [|eauto].
    rewrite attachStatus_get in H.
    destruct (Dict.get (idOfPart arr i part) (acc c)) as [[g|q]|] eqn:G; eauto.
    destruct (P.status q); eauto.
    destruct (String.eqb _ k) eqn:K; eauto.
    apply String.eqb_eq in K. subst k. injection H as <-. eauto.
  - destruct (partStep_new oldList pp f c part i arr E) as (-> & _).
    rewrite get_set. destruct (String.eqb _ k) eqn:K.
    + intros [= <-]. right. apply String.eqb_eq in K. auto.
    + intros H. left. eauto.
Qed.

Lemma firstn_nil_inv {A : Type} (l : list A) i x :
  nth_error l i = Some x -> firstn i l = [] -> i = 0.
Proof.
  intros H E. apply length_firstn_nth in H. rewrite E in H. simpl in H. lia.
Qed.

Lemma AlwaysShown_partStep oldList pp f c part i arr :
  Forall segmentOk arr -> nth_error arr i = Some part ->
  TreeOk oldList c -> AlwaysShown c ->
  AlwaysShown (partStep oldList pp f c part i arr).
Proof.
  intros Hok Hi (Hids & Hop & Hd) H k n Hn. destruct n as [g|p].
  - apply partStep_acc_File in Hn. apply (H k (File g) Hn).
  - apply partStep_acc_Fake in Hn as [(q & Hq & Eo & Es & Ep)|(E & -> & ->)].
    + rewrite Eo, Es, Ep. apply (H k (Fake q) Hq).
    + simpl. intros [Hp| ->]; [|reflexivity].
      apply (firstn_nil_inv _ _ _ Hi) in Hp. subst i.
      rewrite findParent_reset_read by exact Hids. simpl.
      rewrite read_empty_key; [apply orb_true_r|].
      destruct (Dict.get ""%string (fakePartsAcc c)) as [q|] eqn:G; auto.
      destruct (depth_fake c Hd _ q G) as [N _]. now elim N.
Qed.

Lemma AlwaysShown_emit c parent f b :
  (plainChange f -> b = true) ->
  AlwaysShown c -> AlwaysShown (fst (emit c parent (setShown f b))).
Proof.
  intros Hb H k n. simpl. rewrite get_set.
  destruct (String.eqb _ k); [|apply H].
  intros [= <-]. simpl. exact Hb.
Qed.

Lemma AlwaysShown_fileStep files oldList c f i :
  partsOk f -> TreeOk oldList c /\ AlwaysShown c ->
  TreeOk oldList (fst (fileStep files oldList c f i))
  /\ AlwaysShown (fst (fileStep files oldList c f i)).
Proof.
  intros Hok [Ht Ha]. split; [now apply TreeOk_fileStep|].
  destruct (fileStep_cases files oldList c f i)
    as [E|(parts & Hp & Hs & Hn & E)]; cbv zeta in E; rewrite E.
  - now apply AlwaysShown_emit.
  - apply AlwaysShown_emit.
    + intros Hpl. exfalso. apply (plain_not_part f parts Hpl).
      repeat split; auto.
    + unfold partsOk in Hok. rewrite Hp in Hok.
      assert (X : TreeOk oldList
                    (forEach (partStep oldList (previousPartsAt files i) f) parts c)
                  /\ AlwaysShown
                       (forEach (partStep oldList (previousPartsAt files i) f) parts c)).
      { apply (forEach_inv _ parts
                 (fun s => TreeOk oldList s /\ AlwaysShown s)); auto.
        intros s x j Hj [H1 H2]. split.
        - now apply TreeOk_partStep.
        - now apply AlwaysShown_partStep. }
      apply X.
Qed.

Lemma AlwaysShown_pass files oldList :
  Forall partsOk files ->
  AlwaysShown (fst (getFileListRun files oldList)).
Proof.
  intros Hok. unfold getFileListRun.
  apply (reduceFrom_inv_on files oldList partsOk
           (fun c => TreeOk oldList c /\ AlwaysShown c)); auto.
  - intros c f i. apply AlwaysShown_fileStep.
  - split.
    + refine (conj _ (conj _ _)); split; simpl; intros; discriminate.
    + intros k n. discriminate.
Qed.

(** ** The pass over a well-grouped list *)

Lemma firstn_nonempty {A : Type} (l : list A) i x :
  nth_error l i = Some x -> firstn (S i) l <> [].
Proof. destruct l; [destruct i|]; simpl; discriminate. Qed.

Lemma GroupedAt_partStep files oldList k f arr s part i :
  wellGrouped files = true ->
  nth_error files k = Some f -> partChange f arr -> Forall segmentOk arr ->
  nth_error arr i = Some part ->
  GroupedAt files oldList k arr i s ->
  GroupedAt files oldList k arr (S i)
    (partStep oldList (previousPartsAt files k) f s part i arr).
Proof.
  intros Hw Hk Hpc Hok Hi (Ht & Hpres & Hpre & Hg & Hf).
  pose proof (TreeOk_partStep oldList (previousPartsAt files k) f s part i arr
                Hok Hi Ht) as Ht'.
  destruct Ht as (Hids & Hop & Hd).
  set (s' := partStep oldList (previousPartsAt files k) f s part i arr) in *.
  assert (Keep : forall key, Dict.get key (fakePartsAcc s) <> None ->
                             Dict.get key (fakePartsAcc s') <> None)
    by (intros key; apply partStep_fake_keeps).
  assert (Here : Dict.get (join (firstn (S i) arr)) (fakePartsAcc s') <> None).
  { destruct (samePart part (previousPartsAt files k) i) eqn:E.
    - apply Keep. apply Hpres; [now apply (firstn_nonempty _ _ part)|].
      now rewrite <- (wellGrouped_skip files k f arr i part Hw Hk Hpc Hi).
    - destruct (partStep_new oldList _ f s part i arr E) as (_ & Ef & _).
      fold s' in Ef. rewrite Ef, (idOfPart_prefix arr i part Hok Hi).
      rewrite get_set_same. discriminate. }
  refine (conj Ht' (conj _ (conj _ (conj _ _)))).
  - intros prefix Hne Hex. apply Keep. now apply Hpres.
  - intros n Hn. destruct (Nat.eq_dec n i) as [->|Hni]; auto.
    apply Keep, Hpre. lia.
  - intros key p Hp.
    apply partStep_acc_Fake in Hp as [(q & Hq & Eo & Es & Ep)|(E & -> & ->)].
    + rewrite Eo, Es, Ep.
      destruct (Hg key q Hq) as [H|[H1 H2]]; [now left | right]. auto.
    + simpl. destruct i as [|i]; [now left | right].
      assert (Hpar : Dict.get (join (firstn (S i) arr)) (fakePartsAcc s) <> None)
        by (apply Hpre; lia).
      split; [now apply Keep|].
      rewrite findParent_reset_read by exact Hids.
      now rewrite (proj2 (parentOpened_read oldList s _ Hop Hd Hpar)).
  - intros key g parts Hg' Hpc'. apply partStep_acc_File in Hg'.
    specialize (Hf key g parts Hg' Hpc').
    destruct parts as [|x [|y parts]]; auto.
    + intros Hs. destruct (Hf Hs) as [H1 H2]. auto.
    + destruct Hf as [H1 H2]. auto.
Qed.

Lemma GroupedAt_forEach files oldList k f arr c :
  wellGrouped files = true ->
  nth_error files k = Some f -> partChange f arr -> Forall segmentOk arr ->
  Grouped files oldList k c ->
  GroupedAt files oldList k arr (length arr)
    (forEach (partStep oldList (previousPartsAt files k) f) arr c).
Proof.
  intros Hw Hk Hpc Hok (Ht & Hp & Hg & Hf).
  apply (forEach_inv_at _ arr (GroupedAt files oldList k arr)).
  - intros s x i Hi Hs. now apply (GroupedAt_partStep files oldList k f).
  - refine (conj Ht (conj Hp (conj _ (conj Hg Hf)))). intros n Hn. lia.
Qed.

Lemma existsb_firstn_S {A : Type} (p : A -> bool) (l : list A) k x :
  nth_error l k = Some x ->
  existsb p (firstn (S k) l) = existsb p (firstn k l) || p x.
Proof.
  intros H. rewrite (firstn_S_nth _ _ _ H), existsb_app. simpl.
  now rewrite orb_false_r.
Qed.

Lemma fileStep_loops files oldList c f i :
  loops f = true ->
  fileStep files oldList c f i
  = emit (forEach (partStep oldList (previousPartsAt files i) f) (partsOf f) c)
         (fileParent
            (forEach (partStep oldList (previousPartsAt files i) f) (partsOf f) c)
            (partsOf f))
         (setShown f
            (parentOpened
               (fileParent
                  (forEach (partStep oldList (previousPartsAt files i) f)
                           (partsOf f) c)
                  (partsOf f))
             || (length (partsOf f) =? 0))).
Proof.
  unfold loops, fileStep, partsOf. destruct (F.parts f) as [parts|];
    [|discriminate].
  destruct (F.sketchFile f); [|discriminate].
  destruct (isNewSketchFile parts (F.path f)); [discriminate | reflexivity].
Qed.

Lemma Grouped_fileStep files oldList k f :
  wellGrouped files = true -> partsOk f ->
  nth_error files k = Some f ->
  Grouped files oldList k (closureAt files oldList k) ->
  Grouped files oldList (S k)
    (fst (fileStep files oldList (closureAt files oldList k) f k)).
Proof.
  intros Hw Hok Hk Hc. set (c := closureAt files oldList k) in *.
  pose proof (TreeOk_fileStep files oldList c f k Hok (proj1 Hc)) as Ht'.
  destruct (loops f) eqn:Hl.
  - (* The record goes through the loop. *)
    pose proof (loops_partChange f Hl) as Hpc.
    pose proof (partsOk_partsOf f Hok) as Hseg.
    pose proof (GroupedAt_forEach files oldList k f (partsOf f) c
                  Hw Hk Hpc Hseg Hc) as (Ht & Hp & Hpre & Hg & Hf).
    rewrite (fileStep_loops files oldList c f k Hl) in *.
    set (c' := forEach (partStep oldList (previousPartsAt files k) f)
                       (partsOf f) c) in *.
    destruct Ht as (Hids & Hop & Hd).
    refine (conj Ht' (conj _ (conj _ _))).
    + intros prefix Hne Hex. simpl.
      rewrite (existsb_firstn_S _ _ _ _ Hk) in Hex.
      apply orb_true_iff in Hex as [Hex|Hex]; [now apply Hp|].
      destruct (hasPrefix_inv prefix f Hne Hex) as (n & Hn & ->).
      now apply Hpre.
    + intros key p. simpl. rewrite get_set.
      destruct (String.eqb _ key); [discriminate | apply Hg].
    + intros key g parts. simpl. rewrite get_set.
      destruct (String.eqb _ key); [|apply Hf].
      intros [= <-] Hpc'.
      assert (parts = partsOf f) as ->.
      { apply partChange_loops in Hpc' as [_ ->]. reflexivity. }
      simpl. remember (partsOf f) as arr eqn:Harr.
      destruct arr as [|x [|y arr]].
      * apply orb_true_r.
      * rewrite orb_false_r. intros Hs.
        destruct (fileParent_short c' [x]) as [E|E]; [simpl; lia | |];
          rewrite E in Hs; [discriminate|].
        now apply (parentOpened_true oldList c').
      * rewrite orb_false_r.
        assert (Hin : Dict.get (join (x :: y :: arr)) (fakePartsAcc c') <> None).
        { specialize (Hpre (S (length arr))). simpl length in Hpre.
          rewrite firstn_all2 in Hpre by (simpl; lia). apply Hpre. lia. }
        split; [exact Hin|].
        rewrite fileParent_read by (auto; simpl; lia).
        apply (parentOpened_read oldList c' _ Hop Hd Hin).
  - (* The record is emitted at once. *)
    assert (Hpl : plainChange f) by now apply plain_loops.
    rewrite (fileStep_plain files oldList c f k Hpl) in *.
    destruct Hc as (Ht & Hp & Hg & Hf).
    refine (conj Ht' (conj _ (conj _ _))).
    + intros prefix Hne Hex. simpl.
      rewrite (existsb_firstn_S _ _ _ _ Hk) in Hex.
      apply orb_true_iff in Hex as [Hex|Hex]; [now apply Hp|].
      apply hasPrefix_spec in Hex as [Hex _]. congruence.
    + intros key p. simpl. rewrite get_set.
      destruct (String.eqb _ key); [discriminate | apply Hg].
    + intros key g parts. simpl. rewrite get_set.
      destruct (String.eqb _ key); [|apply Hf].
      intros [= <-] Hpc'. exfalso. apply (plain_not_part f parts Hpl Hpc').
Qed.

Lemma Grouped_pass files oldList :
  Forall partsOk files -> wellGrouped files = true ->
  Grouped files oldList (length files) (fst (getFileListRun files oldList)).
Proof.
  intros Hok Hw. rewrite <- closureAt_length.
  apply (pass_inv_at files oldList (Grouped files oldList)); auto.
  - refine (conj _ (conj _ (conj _ _))).
    + refine (conj _ (conj _ _)); split; simpl; intros; discriminate.
    + intros prefix _. discriminate.
    + intros k p. discriminate.
    + intros k g parts. discriminate.
  - intros j f Hj. apply Grouped_fileStep; auto.
    rewrite Forall_forall in Hok. apply Hok. eapply nth_error_In; eauto.
Qed.

(** ** The keys of the table *)

Lemma attachStatus_keeps_none prev id s k :
  Dict.get k (attachStatus prev id s) <> None -> Dict.get k prev <> None.
Proof.
  rewrite attachStatus_get.
  destruct (Dict.get id prev) as [[g|q]|] eqn:G; auto.
  destruct (P.status q); auto.
  destruct (String.eqb id k) eqn:K; auto.
  apply String.eqb_eq in K. subst k. intros _. congruence.
Qed.

Lemma Keys_partStep files oldList pp k f arr s part i :
  Forall segmentOk arr -> nth_error arr i = Some part ->
  GroupKeysAt files k arr i s /\ TableKeys files k s ->
  GroupKeysAt files k arr (S i) (partStep oldList pp f s part i arr)
  /\ TableKeys files k (partStep oldList pp f s part i arr).
Proof.
  intros Hok Hi [Hg Ht].
  assert (Old : forall key, Dict.get key (fakePartsAcc s) <> None ->
            exists prefix,
              prefix <> [] /\ key = join prefix
              /\ (existsb (hasPrefix prefix) (firstn k files) = true
                  \/ exists n, n < S i /\ prefix = firstn (S n) arr)).
  { intros key H. destruct (Hg key H) as (prefix & H1 & H2 & [H3|(n & Hn & H3)]);
      exists prefix; repeat split; auto. right. exists n. split; auto. }
  destruct (samePart part pp i) eqn:E.
  - destruct (partStep_same oldList pp f s part i arr E) as (Ea & Ef & _).
    split.
    + intros key. rewrite Ef. apply Old.
    + intros key. rewrite Ea, Ef. intros H. apply Ht.
      destruct (isConflicted f); auto. now apply attachStatus_keeps_none in H.
  - destruct (partStep_new oldList pp f s part i arr E) as (Ea & Ef & _).
    rewrite (idOfPart_prefix arr i part Hok Hi) in Ea, Ef. split.
    + intros key. rewrite Ef, get_set.
      destruct (String.eqb _ key) eqn:K; [|apply Old].
      intros _. apply String.eqb_eq in K. subst key.
      exists (firstn (S i) arr). split; [now apply (firstn_nonempty _ _ part)|].
      split; auto. right. exists i. auto.
    + intros key. rewrite Ea, Ef, !get_set.
      destruct (String.eqb _ key); [intros _; right; discriminate|].
      apply Ht.
Qed.

Lemma In_firstn_S {A : Type} (l : list A) k x y :
  nth_error l k = Some x -> In y (firstn k l) \/ y = x -> In y (firstn (S k) l).
Proof.
  intros H. rewrite (firstn_S_nth _ _ _ H). intros [Hy| ->]; apply in_or_app;
    [now left | right; now left].
Qed.

Lemma Keys_fileStep files oldList k f c :
  partsOk f -> nth_error files k = Some f ->
  GroupKeys files k c /\ TableKeys files k c ->
  GroupKeys files (S k) (fst (fileStep files oldList c f k))
  /\ TableKeys files (S k) (fst (fileStep files oldList c f k)).
Proof.
  intros Hok Hk [Hg Ht].
  assert (Emit : forall c' parent b,
            (forall key, Dict.get key (fakePartsAcc c') <> None ->
               exists prefix, prefix <> [] /\ key = join prefix
                 /\ existsb (hasPrefix prefix) (firstn (S k) files) = true) ->
            TableKeys files k c' ->
            GroupKeys files (S k) (fst (emit c' parent (setShown f b)))
            /\ TableKeys files (S k) (fst (emit c' parent (setShown f b)))).
  { intros c' parent b Hg' Ht'. split; [exact Hg'|].
    intros key. simpl. rewrite get_set.
    destruct (String.eqb _ key) eqn:K.
    - intros _. left. exists f. apply String.eqb_eq in K. split; auto.
      apply (In_firstn_S _ _ _ _ Hk). now right.
    - intros H. destruct (Ht' key H) as [(g & Hin & Hid)|H']; auto.
      left. exists g. split; auto. apply (In_firstn_S _ _ _ _ Hk). now left. }
  destruct (loops f) eqn:Hl.
  - rewrite (fileStep_loops files oldList c f k Hl).
    pose proof (partsOk_partsOf f Hok) as Hseg.
    assert (X : GroupKeysAt files k (partsOf f) (length (partsOf f))
                  (forEach (partStep oldList (previousPartsAt files k) f)
                           (partsOf f) c)
                /\ TableKeys files k
                     (forEach (partStep oldList (previousPartsAt files k) f)
                              (partsOf f) c)).
    { apply (forEach_inv_at _ (partsOf f)
               (fun i s => GroupKeysAt files k (partsOf f) i s
                           /\ TableKeys files k s)).
      - intros s x i Hi. now apply Keys_partStep.
      - split; auto. intros key H.
        destruct (Hg key H) as (prefix & H1 & H2 & H3). eauto. }
    destruct X as [Xg Xt]. apply Emit; auto.
    intros key H. destruct (Xg key H) as (prefix & H1 & H2 & [H3|(n & Hn & H3)]);
      exists prefix; repeat split; auto;
      rewrite (existsb_firstn_S _ _ _ _ Hk); apply orb_true_iff; auto.
    right. subst prefix. now apply hasPrefix_firstn.
  - assert (Hpl : plainChange f) by now apply plain_loops.
    rewrite (fileStep_plain files oldList c f k Hpl). apply Emit; auto.
    intros key H. destruct (Hg key H) as (prefix & H1 & H2 & H3).
    exists prefix. repeat split; auto.
    rewrite (existsb_firstn_S _ _ _ _ Hk). apply orb_true_iff. auto.
Qed.

Lemma Keys_pass files oldList :
  Forall partsOk files ->
  forall j, j <= length files ->
    GroupKeys files j (closureAt files oldList j)
    /\ TableKeys files j (closureAt files oldList j).
Proof.
  intros Hok.
  apply (pass_inv_at files oldList
           (fun j c => GroupKeys files j c /\ TableKeys files j c)).
  - split; intros key H; now elim H.
  - intros j f Hj. apply Keys_fileStep; auto.
    rewrite Forall_forall in Hok. apply Hok. eapply nth_error_In; eauto.
Qed.

(** A key of [fakePartsAcc] is a group id of a record of the list. *)
Lemma GroupKeys_groupId files k c key :
  GroupKeys files k c -> Dict.get key (fakePartsAcc c) <> None ->
  exists h, In h files /\ In key (groupIdsOf h).
Proof.
  intros Hg H. destruct (Hg key H) as (prefix & Hne & -> & Hex).
  apply existsb_exists in Hex as (h & Hin & Hp). exists h.
  split; [now apply firstn_incl in Hin|].
  pose proof (proj1 (proj1 (hasPrefix_spec prefix h) Hp)) as Hl.
  destruct (hasPrefix_inv prefix h Hne Hp) as (n & Hn & ->).
  apply groupIdsOf_In; auto. now apply loops_partChange.
Qed.

(** When no record has the id of a group, every group of [fakePartsAcc] is in
    the returned table, with its [opened] flag. *)
Lemma group_in_table files oldList key :
  Forall partsOk files -> idsApart files = true ->
  Dict.get key (fakePartsAcc (fst (getFileListRun files oldList))) <> None ->
  exists q, Dict.get key (getFileList files oldList) = Some (Fake q)
            /\ P.opened q = expandedOf oldList key.
Proof.
  intros Hok Ha H.
  destruct (Keys_pass files oldList Hok (length files) (le_n _)) as [Hg _].
  rewrite closureAt_length in Hg.
  destruct (GroupKeys_groupId _ _ _ _ Hg H) as (h & Hh & Hkey).
  pose proof (KeysOk_pass files oldList key H) as Hacc.
  fold (getFileList files oldList) in Hacc.
  destruct (TreeOk_pass files oldList Hok) as (Hids & Hop & Hd).
  destruct (Dict.get key (getFileList files oldList)) as [[g|q]|] eqn:G;
    [exfalso | | congruence].
  - pose proof (ids_acc _ Hids key (File g) G) as Hid. simpl in Hid.
    apply getFileList_File_In in G.
    pose proof (filesAfter_written files oldList) as Hw.
    destruct (Forall2_In_r _ _ _ _ Hw G) as (f & Hf & b & n & ->).
    simpl in Hid. now apply (idsApart_spec files f h key Ha Hf Hh Hkey).
  - exists q. split; auto.
    apply (opened_expandedOf_acc oldList _ key q Hop Hd G).
Qed.

(** ** Which nodes are shown *)

(** C1, counterexample: the pass over the single plain change "readme.md"
    shows its file node, which is no group and has no parent group. *)
Lemma visibility_as_specified_fails : ~ visibility_as_specified.
Proof.
  intros H.
  destruct (H [plainFile "readme.md"] None "readme.md"%string
              (File (setIndex (setShown (plainFile "readme.md") true) 0))
              eq_refl) as [Hshown _].
  destruct (Hshown eq_refl) as [(p & Hp & _)|(q & Hq & _)]; discriminate.
Qed.

(** Nor is the parent's state decisive for a group: with the old list
    [scenarioB_rootClosed] the page group is shown under the closed document
    group, and so is the layer group below it. *)
Example group_shown_under_closed_parent :
  map (fun n => (node_id n, node_shown n,
                 match n with Fake q => P.opened q | File _ => false end))
      (Dict.values (getFileList [layerChange] (Some scenarioB_rootClosed)))
  = [("doc.sketch", true, false); ("doc.sketch/page1", true, true);
     ("doc.sketch/page1/layer1", true, false);
     ("Modified+doc/pages/page1/layer1.json", false, false)]%string.
Proof. reflexivity. Qed.

(** C1 (amended): in the table that one pass returns for change records whose
    path segments are not empty and hold no separator, the file node of a
    plain change (no parts, no sketch file, or a sketch file just added) is
    shown, and so is every group that has depth 0 or is opened.  When the
    list is well grouped and no record has the id of a group, the other flags
    are these.  The parent group of a group of depth 1 or more is in the
    table, and the group is shown if and only if it is opened itself or its
    parent group is opened.  The innermost group of a part file with two or
    more segments is in the table, and the file is shown if and only if that
    group is opened; a part file with one segment is shown only if its group
    is in the table and opened; a part file without segments is shown.  The
    shown flag of the parent is never consulted, so a node can be shown while
    its parent group is hidden. *)
Theorem shown_flags_of_a_pass :
  forall files oldList,
    Forall partsOk files ->
    let table := getFileList files oldList in
    (forall k n, Dict.get k table = Some n ->
       match n with
       | File g => plainChange g -> F.shown g = true
       | Fake p => P.parts p = [] \/ P.opened p = true -> P.shown p = true
       end)
    /\ (wellGrouped files = true -> idsApart files = true ->
        forall k n, Dict.get k table = Some n ->
          match n with
          | Fake p =>
              match P.parts p with
              | [] => P.shown p = true
              | _ => exists q,
                       Dict.get (join (P.parts p)) table = Some (Fake q)
                       /\ P.shown p = P.opened p || P.opened q
              end
          | File g =>
              forall parts, partChange g parts ->
                match parts with
                | [] => F.shown g = true
                | [_] => F.shown g = true ->
                         exists q, Dict.get (join parts) table = Some (Fake q)
                                   /\ P.opened q = true
                | _ => exists q, Dict.get (join parts) table = Some (Fake q)
                                 /\ F.shown g = P.opened q
                end
          end).
Proof.
  intros files oldList Hok table.
  pose proof (AlwaysShown_pass files oldList Hok) as Ha.
  split; [exact Ha|].
  intros Hw Hi k n Hn.
  destruct (Grouped_pass files oldList Hok Hw) as (_ & _ & Hg & Hf).
  assert (G : forall key,
            Dict.get key (fakePartsAcc (fst (getFileListRun files oldList)))
              <> None ->
            exists q, Dict.get key table = Some (Fake q)
                      /\ P.opened q = expandedOf oldList key)
    by (intros key; now apply group_in_table).
  destruct n as [g|p].
  - intros parts Hpc. specialize (Hf k g parts Hn Hpc).
    destruct parts as [|x [|y parts]]; auto.
    + intros Hs. destruct (Hf Hs) as [H1 H2].
      destruct (G _ H1) as (q & Hq & Ho). exists q. split; congruence.
    + destruct Hf as [H1 H2].
      destruct (G _ H1) as (q & Hq & Ho). exists q. split; congruence.
  - specialize (Ha k (Fake p) Hn). simpl in Ha.
    destruct (Hg k p Hn) as [Hp|[H1 H2]].
    + rewrite Hp. auto.
    + destruct (P.parts p) as [|x parts] eqn:Hp; [auto|].
      destruct (G _ H1) as (q & Hq & Ho). exists q. split; congruence.
Qed.

Lemma shown_flags_of_a_pass_witness :
  Forall partsOk [layerChange]
  /\ wellGrouped [layerChange] = true
  /\ idsApart [layerChange] = true
  /\ exists q,
       Dict.get "doc.sketch/page1"%string (getFileList [layerChange] None)
         = Some (Fake q)
       /\ P.shown (scenarioB_layer layerChange)
          = P.opened (scenarioB_layer layerChange) || P.opened q.
Proof.
  assert (Hok : Forall partsOk [layerChange]).
  { repeat constructor; discriminate. }
  refine (conj Hok (conj eq_refl (conj eq_refl _))).
  exact (proj2 (shown_flags_of_a_pass [layerChange] None Hok) eq_refl eq_refl
           "doc.sketch/page1/layer1"%string
           (Fake (scenarioB_layer layerChange)) eq_refl).
Defined.

(** In a list that is not well grouped a group can be hidden without any
    group above it: after a sketch file just added under the name of a
    property that every object inherits, the page group finds that property
    where it looks for its parent. *)
Example group_hidden_under_an_inherited_name :
  let added := F.mk "New+constructor" "constructor/"
                    {| kind := New; payload := 0 |}
                    (Some ["constructor"%string]) true false 0 in
  let page := sketchChange "Modified+constructor/page1"
                           ["constructor"; "page1"]%string
                           {| kind := Modified; payload := 0 |} in
  wellGrouped [added; page] = false
  /\ map (fun n => (node_id n, node_shown n))
         (Dict.values (getFileList [added; page] None))
     = [("New+constructor", true); ("constructor/page1", false);
        ("Modified+constructor/page1", false)]%string.
Proof. split; reflexivity. Qed.

(** ** The [opened] flag across passes *)

(** C5, counterexample: the previous table holds the page group
    "b.sketch/Page 1" opened and the new list still has the change under it,
    after a change of another document whose page has the same name.  The
    skip test of line 170 compares the segment "Page 1" with that of the
    record before, finds them equal and synthesizes no group: the new table
    has no node under "b.sketch/Page 1". *)
Lemma opened_persists_as_specified_fails : ~ opened_persists_as_specified.
Proof.
  intros H.
  destruct (H samePageName secondPageOpened "b.sketch/Page 1"%string
              (P.mk true true 1 PageFile "b.sketch/Page 1" ["b.sketch"%string]
                    "Page 1" None) eq_refl eq_refl) as (p & Hp & _).
  - exists (sketchChange "B" ["b.sketch"; "Page 1"; "y"]%string
                         {| kind := Modified; payload := 0 |}),
           ["b.sketch"; "Page 1"; "y"]%string, 1.
    repeat split; simpl; auto.
  - vm_compute in Hp. discriminate Hp.
Qed.

(** C5 (amended): a group node of the table that [getFileList] returns sits
    under its own id and has the [opened] flag of the node under that id in
    the old list when the old list has a group there; in every other case (no
    old list, no node under that id, or a file node) it is opened exactly
    when its depth is 0.  When the segments are well formed, the list is well
    grouped and no record has the id of a group, the table has a group for
    every non-empty prefix of the part path of every record that goes through
    the loop, so that a group which the old list holds opened is in the new
    table, opened, as long as the list has a record under it. *)
Theorem opened_taken_from_old_list :
  forall files oldList,
    let table := getFileList files oldList in
    (forall k p, Dict.get k table = Some (Fake p) ->
       P.id p = k
       /\ match oldList with
          | Some old =>
              match Dict.get k old with
              | Some (Fake q) => P.opened p = P.opened q
              | _ => P.opened p = (length (P.parts p) =? 0)
              end
          | None => P.opened p = (length (P.parts p) =? 0)
          end)
    /\ (Forall partsOk files -> wellGrouped files = true ->
        idsApart files = true ->
        forall f arr n,
          In f files -> partChange f arr -> n < length arr ->
          exists p,
            Dict.get (join (firstn (S n) arr)) table = Some (Fake p)
            /\ forall old q,
                 oldList = Some old ->
                 Dict.get (join (firstn (S n) arr)) old = Some (Fake q) ->
                 P.opened p = P.opened q).
Proof.
  intros files oldList table.
  assert (Rule : forall k p, Dict.get k table = Some (Fake p) ->
     P.id p = k
     /\ match oldList with
        | Some old =>
            match Dict.get k old with
            | Some (Fake q) => P.opened p = P.opened q
            | _ => P.opened p = (length (P.parts p) =? 0)
            end
        | None => P.opened p = (length (P.parts p) =? 0)
        end).
  { intros k p H.
    destruct (IdsOk_pass files oldList) as [_ [Hid _ _]].
    destruct (OpenedOk_pass files oldList) as [_ [Hop _]].
    specialize (Hid k (Fake p) H). specialize (Hop k p H).
    unfold openedOf in Hop. split; [exact Hid|].
    destruct oldList as [old|]; auto.
    destruct (Dict.get k old) as [[g|q]|]; auto. }
  split; [exact Rule|].
  intros Hok Hw Ha f arr n Hf Hpc Hn.
  destruct (Grouped_pass files oldList Hok Hw) as (_ & Hp & _).
  pose proof Hpc as Hpc'. apply partChange_loops in Hpc' as [Hl ->].
  assert (Hin : Dict.get (join (firstn (S n) (partsOf f)))
                  (fakePartsAcc (fst (getFileListRun files oldList))) <> None).
  { apply Hp.
    - destruct (partsOf f); simpl in *; [lia | discriminate].
    - rewrite firstn_all. apply existsb_exists. exists f. split; auto.
      now apply hasPrefix_firstn. }
  destruct (group_in_table files oldList _ Hok Ha Hin) as (p & Hg & _).
  exists p. split; [exact Hg|].
  intros old q -> Hq. destruct (Rule _ p Hg) as [_ R]. now rewrite Hq in R.
Qed.

Lemma opened_taken_from_old_list_witness :
  Forall partsOk twoDocuments
  /\ wellGrouped twoDocuments = true
  /\ idsApart twoDocuments = true
  /\ exists p,
       Dict.get "a.sketch/page1"%string
         (getFileList twoDocuments (Some firstPageOpened)) = Some (Fake p)
       /\ P.opened p = true.
Proof.
  assert (Hok : Forall partsOk twoDocuments).
  { repeat constructor; discriminate. }
  refine (conj Hok (conj eq_refl (conj eq_refl _))).
  destruct (proj2 (opened_taken_from_old_list twoDocuments
                     (Some firstPageOpened))
              Hok eq_refl eq_refl
              (sketchChange "m2" ["a.sketch"; "page1"; "l2"]%string
                            {| kind := Modified; payload := 0 |})
              ["a.sketch"; "page1"; "l2"]%string 1)
    as (p & Hp & Ho).
  - simpl. auto.
  - repeat split.
  - simpl. lia.
  - exists p. split; [exact Hp|].
    exact (Ho firstPageOpened _ eq_refl eq_refl).
Defined.

(** ** The indices of a table *)

Lemma length_set_fresh {V : Type} (d : Dict.t V) k v :
  Dict.get k d = None ->
  length (Dict.values (Dict.set k v d)) = S (length (Dict.values d)).
Proof.
  intros H. rewrite set_fresh by exact H. unfold Dict.values.
  rewrite map_app, length_app. simpl. lia.
Qed.

Lemma length_set_there {V : Type} (d : Dict.t V) k v v0 :
  Dict.get k d = Some v0 ->
  length (Dict.values (Dict.set k v d)) = length (Dict.values d).
Proof.
  unfold Dict.values. rewrite !length_map.
  induction d as [|[k' v'] d IH]; simpl; [discriminate|].
  destruct (String.eqb k k'); simpl; auto.
Qed.

Lemma length_attachStatus prev id s :
  length (Dict.values (attachStatus prev id s)) = length (Dict.values prev).
Proof.
  unfold attachStatus. destruct (Dict.get id prev) as [[g|q]|] eqn:G; auto.
  destruct (P.status q); auto. now apply (length_set_there _ _ _ (Fake q)).
Qed.

Lemma hasPrefix_segments files prefix h :
  Forall partsOk files -> In h files -> hasPrefix prefix h = true ->
  Forall segmentOk prefix.
Proof.
  intros Hok Hh Hp. apply hasPrefix_spec in Hp as [_ <-].
  apply Forall_firstn, partsOk_partsOf.
  rewrite Forall_forall in Hok. now apply Hok.
Qed.

(** In a well-grouped list whose ids are apart from the group ids, a group is
    synthesized under a key that the table does not have yet. *)
Lemma fresh_group files k f arr i part s :
  Forall partsOk files -> wellGrouped files = true -> idsApart files = true ->
  nth_error files k = Some f -> partChange f arr ->
  nth_error arr i = Some part ->
  samePart part (previousPartsAt files k) i = false ->
  GroupKeysAt files k arr i s -> TableKeys files k s ->
  Dict.get (join (firstn (S i) arr)) (acc s) = None.
Proof.
  intros Hok Hw Ha Hk Hpc Hi Hskip Hg Ht.
  assert (Hf : In f files) by (eapply nth_error_In; eauto).
  assert (Li : i < length arr) by (apply nth_error_Some; congruence).
  assert (Hseg : Forall segmentOk arr).
  { pose proof Hpc as Hpc'. apply partChange_loops in Hpc' as [_ ->].
    apply partsOk_partsOf. rewrite Forall_forall in Hok. now apply Hok. }
  destruct (Dict.get (join (firstn (S i) arr)) (acc s)) as [n|] eqn:G; auto.
  exfalso.
  assert (G' : Dict.get (join (firstn (S i) arr)) (acc s) <> None) by congruence.
  destruct (Ht _ G') as [(g & Hgin & Hid)|Hfake].
  - apply firstn_incl in Hgin.
    apply (idsApart_spec files g f _ Ha Hgin Hf
             (groupIdsOf_In f arr i Hpc Li) Hid).
  - destruct (Hg _ Hfake) as (prefix & Hne & Hj & [Hex|(n' & Hn' & ->)]).
    + assert (Hps : Forall segmentOk prefix).
      { apply existsb_exists in Hex as (h & Hh & Hp).
        apply (hasPrefix_segments files prefix h Hok); auto.
        now apply firstn_incl in Hh. }
      apply join_inj in Hj; auto using Forall_firstn. subst prefix.
      rewrite <- (wellGrouped_skip files k f arr i part Hw Hk Hpc Hi) in Hex.
      congruence.
    + apply join_inj in Hj; auto using Forall_firstn.
      apply (f_equal (@length string)) in Hj.
      rewrite !firstn_length_le in Hj by lia. lia.
Qed.

Lemma NoDup_ids_before files k f g :
  NoDup (map F.id files) -> nth_error files k = Some f ->
  In g (firstn k files) -> F.id g <> F.id f.
Proof.
  intros ND Hk Hg E.
  rewrite (split_at_nth _ _ _ Hk), map_app in ND. simpl in ND.
  apply NoDup_remove_2 in ND. apply ND. apply in_or_app. left.
  rewrite <- E. now apply in_map.
Qed.

(** And a record is stored under a key that the table does not have yet. *)
Lemma fresh_file files k f c :
  NoDup (map F.id files) -> idsApart files = true ->
  nth_error files k = Some f ->
  (forall key, Dict.get key (fakePartsAcc c) <> None ->
     exists h, In h files /\ In key (groupIdsOf h)) ->
  TableKeys files k c ->
  Dict.get (F.id f) (acc c) = None.
Proof.
  intros ND Ha Hk Hg Ht.
  assert (Hf : In f files) by (eapply nth_error_In; eauto).
  destruct (Dict.get (F.id f) (acc c)) as [n|] eqn:G; auto. exfalso.
  assert (G' : Dict.get (F.id f) (acc c) <> None) by congruence.
  destruct (Ht _ G') as [(g & Hgin & Hid)|Hfake].
  - now apply (NoDup_ids_before files k f g ND Hk Hgin).
  - destruct (Hg _ Hfake) as (h & Hh & Hkey).
    now apply (idsApart_spec files f h _ Ha Hf Hh Hkey).
Qed.

Lemma GroupKeysAt_groupId files k f arr i c key :
  nth_error files k = Some f -> partChange f arr ->
  GroupKeysAt files k arr i c -> i <= length arr ->
  Dict.get key (fakePartsAcc c) <> None ->
  exists h, In h files /\ In key (groupIdsOf h).
Proof.
  intros Hk Hpc Hg Hi H.
  destruct (Hg key H) as (prefix & Hne & -> & [Hex|(n & Hn & ->)]).
  - apply existsb_exists in Hex as (h & Hin & Hp). exists h.
    split; [now apply firstn_incl in Hin|].
    pose proof (proj1 (proj1 (hasPrefix_spec prefix h) Hp)) as Hl.
    destruct (hasPrefix_inv prefix h Hne Hp) as (n & Hn & ->).
    apply groupIdsOf_In; auto. now apply loops_partChange.
  - exists f. split; [eapply nth_error_In; eauto|].
    apply groupIdsOf_In; auto. lia.
Qed.

Lemma NoneReplaced_fileStep files oldList k f :
  Forall partsOk files -> NoDup (map F.id files) ->
  idsApart files = true -> wellGrouped files = true ->
  nth_error files k = Some f ->
  let c := closureAt files oldList k in
  GroupKeys files k c /\ TableKeys files k c /\ NoneReplaced c ->
  NoneReplaced (fst (fileStep files oldList c f k)).
Proof.
  intros Hok ND Ha Hw Hk c (Hg & Ht & Hn).
  assert (Hf : partsOk f).
  { rewrite Forall_forall in Hok. apply Hok. eapply nth_error_In; eauto. }
  destruct (loops f) eqn:Hl.
  - rewrite (fileStep_loops files oldList c f k Hl).
    pose proof (loops_partChange f Hl) as Hpc.
    pose proof (partsOk_partsOf f Hf) as Hseg.
    assert (X : (GroupKeysAt files k (partsOf f) (length (partsOf f))
                   (forEach (partStep oldList (previousPartsAt files k) f)
                            (partsOf f) c)
                 /\ TableKeys files k
                      (forEach (partStep oldList (previousPartsAt files k) f)
                               (partsOf f) c))
                /\ NoneReplaced
                     (forEach (partStep oldList (previousPartsAt files k) f)
                              (partsOf f) c)).
    { apply (forEach_inv_at _ (partsOf f)
               (fun i s => (GroupKeysAt files k (partsOf f) i s
                            /\ TableKeys files k s)
                           /\ NoneReplaced s)).
      - intros s x i Hi [[Hg' Ht'] Hn']. split; [now apply Keys_partStep|].
        unfold NoneReplaced in *.
        destruct (samePart x (previousPartsAt files k) i) eqn:E.
        + destruct (partStep_same oldList _ f s x i (partsOf f) E)
            as (-> & _ & _ & ->).
          destruct (isConflicted f); auto. now rewrite length_attachStatus.
        + destruct (partStep_new oldList _ f s x i (partsOf f) E)
            as (-> & _ & _ & ->).
          rewrite (idOfPart_prefix _ _ _ Hseg Hi).
          rewrite length_set_fresh; [lia|].
          now apply (fresh_group files k f (partsOf f) i x s).
      - split; [split|]; auto. intros key H.
        destruct (Hg key H) as (prefix & H1 & H2 & H3). eauto. }
    destruct X as [[Xg Xt] Xn]. unfold NoneReplaced in *. simpl.
    rewrite length_set_fresh; [lia|].
    apply (fresh_file files k f); auto.
    intros key. now apply (GroupKeysAt_groupId files k f (partsOf f) _ _ key Hk Hpc Xg).
  - assert (Hpl : plainChange f) by now apply plain_loops.
    rewrite (fileStep_plain files oldList c f k Hpl).
    unfold NoneReplaced in *. simpl.
    rewrite length_set_fresh; [lia|].
    apply (fresh_file files k f); auto.
    intros key. apply (GroupKeys_groupId files k c key Hg).
Qed.

Lemma NoneReplaced_pass files oldList :
  Forall partsOk files -> NoDup (map F.id files) ->
  idsApart files = true -> wellGrouped files = true ->
  NoneReplaced (fst (getFileListRun files oldList)).
Proof.
  intros Hok ND Ha Hw. rewrite <- closureAt_length.
  assert (X : forall j, j <= length files ->
            (GroupKeys files j (closureAt files oldList j)
             /\ TableKeys files j (closureAt files oldList j))
            /\ NoneReplaced (closureAt files oldList j)).
  { apply (pass_inv_at files oldList
             (fun j c => (GroupKeys files j c /\ TableKeys files j c)
                         /\ NoneReplaced c)).
    - split; [split; intros key H; now elim H | reflexivity].
    - intros j f Hj [[Hg Ht] Hn]. split.
      + apply Keys_fileStep; auto.
        rewrite Forall_forall in Hok. apply Hok. eapply nth_error_In; eauto.
      + now apply NoneReplaced_fileStep. }
  apply X. lia.
Qed.

Lemma numbers_below_length (l : list nat) :
  NoDup l -> (forall x, In x l -> x < length l) ->
  forall x, In x l <-> x < length l.
Proof.
  intros ND Hb x. split; [apply Hb|]. intros Hx.
  assert (I : incl (seq 0 (length l)) l).
  { apply NoDup_length_incl; auto.
    - rewrite length_seq. lia.
    - intros y Hy. apply in_seq. specialize (Hb y Hy). lia. }
  apply I. apply in_seq. lia.
Qed.

(** C6, counterexample: three changes with three ids, the third back in the
    document of the first.  The document group "a.sketch" is synthesized a
    second time and replaces the first, whose index 0 is then missing: the
    table has eight nodes, with the indices 1 to 8. *)
Lemma index_contiguity_as_specified_fails : ~ index_contiguity_as_specified.
Proof.
  intros H. destruct (H reconverging None) as [_ Hx].
  specialize (Hx 0). vm_compute in Hx. destruct Hx as [_ Hx].
  assert (L : 0 < 8) by lia. specialize (Hx L).
  repeat (destruct Hx as [Hx|Hx]; [discriminate Hx|]). exact Hx.
Qed.

(** A plain change between two parts of one document has the same effect:
    the record before the second part has no parts, the skip test of line 170
    fails, and the document group is synthesized again.  The table has six
    nodes and none with the index 0. *)
Example document_group_replaced_after_a_plain_change :
  let table := getFileList strayInsideDocument None in
  NoDup (map F.id strayInsideDocument)
  /\ wellGrouped strayInsideDocument = false
  /\ indices table = [4; 1; 2; 3; 5; 6]
  /\ length (Dict.values table) = 6.
Proof.
  vm_compute. repeat split; try reflexivity.
  repeat constructor; simpl; intuition discriminate.
Qed.

(** C6 (amended): in the table returned by one pass the indices of the stored
    nodes are pairwise distinct and all below the number of nodes the pass
    has constructed.  For a change list with well-formed segments and
    pairwise distinct ids, none of them the id of a group, that is well
    grouped and assigns no key [__proto__], no node is replaced and the
    indices are exactly the numbers below the number of nodes of the
    table. *)
Theorem indices_distinct_and_contiguous_without_overwrite :
  forall files oldList,
    let table := getFileList files oldList in
    NoDup (indices table)
    /\ (forall x, In x (indices table) -> x < constructedCount files oldList)
    /\ (Forall partsOk files -> NoDup (map F.id files) ->
        idsApart files = true -> wellGrouped files = true ->
        keysAssignable files = true ->
        forall x, In x (indices table) <-> x < length (Dict.values table)).
Proof.
  intros files oldList table.
  destruct (IndexOk_pass files oldList) as [_ [A B]].
  fold (getFileList files oldList) in A, B. fold table in A, B.
  assert (Hb : forall x, In x (indices table) -> x < constructedCount files oldList).
  { intros x Hx. apply in_map_iff in Hx as (n & <- & Hn). apply (A n Hn). }
  split; [exact B|]. split; [exact Hb|].
  intros Hok ND Ha Hw _.
  pose proof (NoneReplaced_pass files oldList Hok ND Ha Hw) as Hn.
  unfold NoneReplaced in Hn. fold (getFileList files oldList) in Hn.
  fold table in Hn. fold (constructedCount files oldList) in Hn.
  assert (L : length (indices table) = length (Dict.values table))
    by (unfold indices; now rewrite length_map).
  rewrite <- L. apply numbers_below_length; auto.
  intros x Hx. rewrite L, Hn. now apply Hb.
Qed.

Lemma indices_distinct_and_contiguous_without_overwrite_witness :
  let table := getFileList twoDocuments None in
  Forall partsOk twoDocuments
  /\ NoDup (map F.id twoDocuments)
  /\ idsApart twoDocuments = true
  /\ wellGrouped twoDocuments = true
  /\ keysAssignable twoDocuments = true
  /\ forall x, In x (indices table) <-> x < length (Dict.values table).
Proof.
  cbv zeta.
  assert (Hok : Forall partsOk twoDocuments).
  { repeat constructor; discriminate. }
  assert (ND : NoDup (map F.id twoDocuments)).
  { repeat constructor; simpl; intuition discriminate. }
  refine (conj Hok (conj ND (conj eq_refl (conj eq_refl (conj eq_refl _))))).
  exact (proj2 (proj2 (indices_distinct_and_contiguous_without_overwrite
                         twoDocuments None))
           Hok ND eq_refl eq_refl eq_refl).
Defined.

(** ** Changes without a sketch file *)

(** The node under a key stays a file node through a turn of [forEach], or
    becomes a group. *)
Lemma partStep_keeps_file oldList pp h c part i arr key n :
  Dict.get key (acc c) = Some n ->
  Dict.get key (acc (partStep oldList pp h c part i arr)) = Some n
  \/ exists q, Dict.get key (acc (partStep oldList pp h c part i arr))
               = Some (Fake q).
Proof.
  intros H. destruct (samePart part pp i) eqn:E.
  - destruct (partStep_same oldList pp h c part i arr E) as (-> & _).
    destruct (isConflicted h); auto. rewrite attachStatus_get.
    destruct (Dict.get (idOfPart arr i part) (acc c)) as [[g|q]|]; auto.
    destruct (P.status q); auto.
    destruct (String.eqb _ key); eauto.
  - destruct (partStep_new oldList pp h c part i arr E) as (-> & _).
    rewrite get_set. destruct (String.eqb _ key); eauto.
Qed.

Lemma fileStep_keeps_file files oldList c g i key f' :
  F.id g <> key ->
  (Dict.get key (acc c) = Some (File f')
   \/ exists q, Dict.get key (acc c) = Some (Fake q)) ->
  Dict.get key (acc (fst (fileStep files oldList c g i))) = Some (File f')
  \/ exists q, Dict.get key (acc (fst (fileStep files oldList c g i)))
               = Some (Fake q).
Proof.
  intros Hid H.
  assert (Emit : forall c' parent b,
            (Dict.get key (acc c') = Some (File f')
             \/ exists q, Dict.get key (acc c') = Some (Fake q)) ->
            Dict.get key (acc (fst (emit c' parent (setShown g b))))
              = Some (File f')
            \/ exists q, Dict.get key (acc (fst (emit c' parent (setShown g b))))
                         = Some (Fake q)).
  { intros c' parent b H'. simpl. rewrite get_set.
    destruct (String.eqb (F.id g) key) eqn:K; auto.
    apply String.eqb_eq in K. contradiction. }
  destruct (fileStep_cases files oldList c g i)
    as [E|(parts & _ & _ & _ & E)]; cbv zeta in E; rewrite E; apply Emit; auto.
  apply (forEach_inv _ parts
           (fun s => Dict.get key (acc s) = Some (File f')
                     \/ exists q, Dict.get key (acc s) = Some (Fake q))); auto.
  intros s x n _ [Hs|(q & Hs)].
  - apply (partStep_keeps_file oldList (previousPartsAt files i) g s x n parts
             key (File f') Hs).
  - right.
    destruct (partStep_keeps_file oldList (previousPartsAt files i) g s x n
                parts key (Fake q) Hs) as [Hq|Hq]; eauto.
Qed.

Lemma getFileListRun_from files oldList j :
  fst (getFileListRun files oldList)
  = fst (reduceFrom files oldList (length (firstn j files)) (skipn j files)
           (closureAt files oldList j)).
Proof.
  unfold getFileListRun, closureAt.
  rewrite <- (firstn_skipn j files) at 2. now rewrite reduceFrom_app.
Qed.

(** C10: a change record whose [sketchFile] is falsy is handled as a plain
    file whatever its part path is.  At its turn of the pass no group is
    synthesized: [fakePartsAcc] and every other key of the table are left as
    they were, and the record is what a lookup of its id then finds, written
    with [shown = true] and the next index; it is also the record found in
    the array after the pass.  The returned table still holds it under its
    id, unless a later record has the same id or a group has that id.  The
    id is taken to be a key that an assignment adds ([assignable]: any id
    but [__proto__], whose assignment sets the prototype of the table). *)
Theorem change_without_sketchFile_is_plain :
  forall files oldList j f,
    nth_error files j = Some f ->
    F.sketchFile f = false ->
    assignable (F.id f) = true ->
    let before := closureAt files oldList j in
    let after := closureAt files oldList (S j) in
    exists f',
      sameChange f f' /\ F.shown f' = true /\ F.index f' = index before
      /\ nth_error (filesAfter files oldList) j = Some f'
      /\ Dict.get (F.id f) (acc after) = Some (File f')
      /\ (forall k, k <> F.id f ->
                    Dict.get k (acc after) = Dict.get k (acc before))
      /\ (forall k, Dict.get k (fakePartsAcc after)
                    = Dict.get k (fakePartsAcc before))
      /\ index after = index before + 1
      /\ (Dict.get (F.id f) (getFileList files oldList) = Some (File f')
          \/ (exists g, In g (skipn (S j) files) /\ F.id g = F.id f)
          \/ (exists q, Dict.get (F.id f) (getFileList files oldList)
                        = Some (Fake q))).
Proof.
  intros files oldList j f Hj Hs _ before after.
  assert (E : fileStep files oldList before f j
              = emit before (parentPartChange before) (setShown f true)).
  { unfold fileStep. rewrite Hs. now destruct (F.parts f). }
  assert (Ea : after = fst (emit before (parentPartChange before)
                                 (setShown f true))).
  { unfold after. rewrite (closureAt_S _ _ _ _ Hj). fold before. now rewrite E. }
  exists (setIndex (setShown f true) (index before)).
  assert (Hget : Dict.get (F.id f) (acc after)
                 = Some (File (setIndex (setShown f true) (index before)))).
  { rewrite Ea. simpl. apply get_set_same. }
  refine (conj _ (conj eq_refl (conj eq_refl (conj _ (conj Hget
            (conj _ (conj _ (conj _ _)))))))).
  - repeat split.
  - rewrite (filesAfter_nth _ _ _ _ Hj). fold before. now rewrite E.
  - intros k Hk. rewrite Ea. simpl. rewrite get_set.
    destruct (String.eqb (F.id f) k) eqn:K; auto.
    apply String.eqb_eq in K. congruence.
  - intros k. now rewrite Ea.
  - now rewrite Ea.
  - destruct (existsb (fun g => String.eqb (F.id g) (F.id f))
                      (skipn (S j) files)) eqn:X.
    + right; left. apply existsb_exists in X as (g & Hg & Hid).
      exists g. split; auto. now apply String.eqb_eq.
    + assert (Good : Forall (fun g => F.id g <> F.id f) (skipn (S j) files)).
      { apply Forall_forall. intros g Hg Hid.
        assert (Y : existsb (fun g => String.eqb (F.id g) (F.id f))
                            (skipn (S j) files) = true); [|congruence].
        apply existsb_exists. exists g. split; auto. now apply String.eqb_eq. }
      unfold getFileList. rewrite (getFileListRun_from files oldList (S j)).
      fold after.
      pose proof (reduceFrom_inv_on files oldList _
                    (fun c => Dict.get (F.id f) (acc c)
                              = Some (File (setIndex (setShown f true)
                                                     (index before)))
                              \/ exists q, Dict.get (F.id f) (acc c)
                                           = Some (Fake q))
                    (fun c g i Hg H => fileStep_keeps_file files oldList c g i
                                         (F.id f) _ Hg H)
                    (skipn (S j) files) Good
                    (length (firstn (S j) files)) after (or_introl Hget))
        as [H|H]; auto.
Qed.

Lemma change_without_sketchFile_is_plain_witness :
  let files := [strayPartChange; layerChange] in
  nth_error files 0 = Some strayPartChange
  /\ F.sketchFile strayPartChange = false
  /\ assignable (F.id strayPartChange) = true
  /\ exists f',
       F.shown f' = true
       /\ Dict.get (F.id strayPartChange) (acc (closureAt files None 1))
          = Some (File f')
       /\ Dict.get "notes"%string (acc (closureAt files None 1)) = None.
Proof.
  cbv zeta. refine (conj eq_refl (conj eq_refl (conj eq_refl _))).
  destruct (change_without_sketchFile_is_plain
              [strayPartChange; layerChange] None 0 strayPartChange
              eq_refl eq_refl eq_refl)
    as (f' & _ & Hs & _ & _ & Hg & Hk & _).
  exists f'. refine (conj Hs (conj Hg _)).
  rewrite Hk; [reflexivity | discriminate].
Defined.

(** ** [onOpenChanged] on an id that is no group *)

(** C4, counterexample: on the component built over no changes, whose table is
    empty, the call with the id "doc.sketch" reads [fakePart] of [undefined]. *)
Lemma toggle_noop_as_specified_fails : ~ toggle_noop_as_specified.
Proof.
  intros H.
  specialize (H (construct (noSelection [])) "doc.sketch"%string false).
  assert (A : Dict.get "doc.sketch"%string
                (files (state (construct (noSelection [])))) = None)
    by reflexivity.
  specialize (H (or_introl A)). vm_compute in H. discriminate H.
Qed.

(** C4 (amended): for every component and every id that names a file node of
    its table, [onOpenChanged] returns normally and leaves the table, the
    visible list and the props as they are.  For an id that is absent from
    the table (a table whose prototype is the one of an object literal) the
    call is such a no-op only when the id is the name of a property that
    every object inherits, [constructor] for one; for any other absent id it
    does not return: it ends in the [TypeError] of reading [fakePart] of
    [undefined].  The rows of a component whose state comes from a pass never
    end there: the id of every row is a key of the table. *)
Theorem onOpenChanged_file_noop_absent_throws :
  forall this id opened,
    (forall f, Dict.get id (files (state this)) = Some (File f) ->
       onOpenChanged this id opened = Returned this)
    /\ (Dict.get id (files (state this)) = None ->
        Dict.get "__proto__"%string (files (state this)) = None ->
        onOpenChanged this id opened
        = if Dict.inherited id then Returned this else TypeError)
    /\ (builtByPass this ->
        forall row, In row (visibleFileList (state this)) ->
          Dict.get (node_id row) (files (state this)) = Some row
          /\ onOpenChanged this (node_id row) opened <> TypeError).
Proof.
  intros this id opened. unfold onOpenChanged, Dict.read.
  refine (conj _ (conj _ _)).
  - intros f ->. reflexivity.
  - intros -> _. now destruct (Dict.inherited id).
  - intros (fs & old & E) row Hrow. rewrite E in *. simpl in *.
    pose proof (visible_row_lookup fs old row Hrow) as G.
    split; [exact G|]. rewrite G. destruct row; discriminate.
Qed.

Lemma onOpenChanged_file_noop_absent_throws_witness :
  let this := construct (noSelection [plainFile "readme.md"]) in
  onOpenChanged this "readme.md" false = Returned this
  /\ onOpenChanged this "doc.sketch" false = TypeError
  /\ onOpenChanged this "constructor" false = Returned this.
Proof.
  cbv zeta. refine (conj _ (conj _ _)).
  - apply (proj1 (onOpenChanged_file_noop_absent_throws
                    (construct (noSelection [plainFile "readme.md"]))
                    "readme.md"%string false)
                 (setIndex (setShown (plainFile "readme.md") true) 0)).
    reflexivity.
  - apply (proj1 (proj2 (onOpenChanged_file_noop_absent_throws
                    (construct (noSelection [plainFile "readme.md"]))
                    "doc.sketch"%string false))); reflexivity.
  - apply (proj1 (proj2 (onOpenChanged_file_noop_absent_throws
                    (construct (noSelection [plainFile "readme.md"]))
                    "constructor"%string false))); reflexivity.
Defined.
